(** * Certora-Scraper helpers: a shallow embedding and its verified properties

    The development embeds the pure helper functions of the scraper
    ([parseRunInfo], [buildResultBaseUrl], [parseMaybeJson],
    [getProgressRoots], [collectFailedRuleOutputs], [parseJobMetadata] and
    [extractCodexAnswer]) together with the small part of the JavaScript
    platform they lean on (truthiness, property access, string methods,
    [JSON], [URL] and [URLSearchParams]).

    Conventions of the embedding
    - JavaScript text is the byte string ([string]) of its UTF-8 form. White
      space is that of ECMAScript. Case mapping is that of the letters of
      ASCII: the platform also maps letters outside ASCII, which the
      embedding leaves as they are.
    - JavaScript numbers are IEEE 754 doubles ([spec_float]), written and
      read in decimal as [Number::toString] and [JSON.parse] do.
    - The URL parser is a partial function, [None] where the URL standard is
      not written out; so is [parseRunInfo], which calls it.
    - A JavaScript object is an association list in key order, with distinct
      keys; property lookup takes the first binding.
    - A function that can throw returns a [result]. *)

From Stdlib Require Import String Ascii List ZArith Bool Lia Permutation Sorted.
From Stdlib Require Import DecimalString DecimalZ SpecFloat.
Import ListNotations.
Open Scope string_scope.

Set Implicit Arguments.

(** ** Exceptions *)

Inductive exn : Type :=
| TypeError    (* property access on null/undefined, call of a non-function *)
| InvalidUrl.  (* the URL constructor rejected its argument *)

Inductive result (A : Type) : Type :=
| Ok (a : A)
| Throw (e : exn).

Arguments Ok {A} a.
Arguments Throw {A} e.

Definition bind {A B : Type} (m : result A) (k : A -> result B) : result B :=
  match m with
  | Ok a => k a
  | Throw e => Throw e
  end.

Notation "x <- m ;; k" := (bind m (fun x => k))
  (at level 61, m at next level, right associativity).

(** [for (const x of l) acc = step(acc, x)] with early exit on a throw. *)
Section ForOf.
Variables A B : Type.
Variable step : B -> A -> result B.

Fixpoint for_of (l : list A) (acc : B) : result B :=
  match l with
  | [] => Ok acc
  | x :: l' => acc' <- step acc x ;; for_of l' acc'
  end.
End ForOf.

(** ** Text *)

Definition code (c : ascii) : nat := nat_of_ascii c.

Definition in_range (lo hi : nat) (c : ascii) : bool :=
  ((lo <=? code c)%nat && (code c <=? hi)%nat)%bool.

Definition is_digit (c : ascii) : bool := in_range 48 57 c.
Definition is_upper (c : ascii) : bool := in_range 65 90 c.
Definition is_lower (c : ascii) : bool := in_range 97 122 c.
Definition is_alnum (c : ascii) : bool := is_digit c || is_upper c || is_lower c.

(** The regular-expression class [\w]. *)
Definition is_word (c : ascii) : bool := is_alnum c || Ascii.eqb c "_".

Definition is_ascii (c : ascii) : bool := (code c <? 128)%nat.

(** The white space characters of ASCII. *)
Definition is_space (c : ascii) : bool :=
  in_range 9 13 c || Ascii.eqb c " ".

(** Case mapping, on the letters of ASCII. *)
Definition upper_char (c : ascii) : ascii :=
  if is_lower c then ascii_of_nat (code c - 32) else c.

Definition lower_char (c : ascii) : ascii :=
  if is_upper c then ascii_of_nat (code c + 32) else c.

Fixpoint smap (f : ascii -> ascii) (s : string) : string :=
  match s with
  | "" => ""
  | String c s' => String (f c) (smap f s')
  end.

Definition toUpperCase : string -> string := smap upper_char.
Definition toLowerCase : string -> string := smap lower_char.

Fixpoint sall (p : ascii -> bool) (s : string) : bool :=
  match s with
  | "" => true
  | String c s' => p c && sall p s'
  end.

Fixpoint starts_with (pat s : string) : bool :=
  match pat, s with
  | "", _ => true
  | String p pat', String c s' => Ascii.eqb p c && starts_with pat' s'
  | String _ _, "" => false
  end.

(** [s.includes(pat)] *)
Fixpoint includes (pat s : string) : bool :=
  starts_with pat s
  || match s with
     | "" => false
     | String _ s' => includes pat s'
     end.

(** [/pat/i.test(s)] for a literal pattern. *)
Definition includes_ci (pat s : string) : bool :=
  includes (toLowerCase pat) (toLowerCase s).

Definition starts_with_ci (pat s : string) : bool :=
  starts_with (toLowerCase pat) (toLowerCase s).

Fixpoint ends_with (pat s : string) : bool :=
  String.eqb pat s
  || match s with
     | "" => false
     | String _ s' => ends_with pat s'
     end.

Definition ends_with_ci (pat s : string) : bool :=
  ends_with (toLowerCase pat) (toLowerCase s).

(** The bytes of the UTF-8 form of the code point [n], for [n < 65536]. *)
Definition utf8 (n : N) : string :=
  if (n <? 128)%N then String (ascii_of_N n) ""
  else if (n <? 2048)%N
  then String (ascii_of_N (192 + n / 64)) (String (ascii_of_N (128 + n mod 64)) "")
  else String (ascii_of_N (224 + n / 4096))
         (String (ascii_of_N (128 + (n / 64) mod 64))
            (String (ascii_of_N (128 + n mod 64)) "")).

(** White space as [String.prototype.trim] and the class [\s] see it: the
    code points WhiteSpace and LineTerminator of ECMAScript (TAB, LF, VT, FF,
    CR, SP, NBSP, U+1680, U+2000 to U+200A, LS, PS, U+202F, U+205F, U+3000
    and U+FEFF), each as the bytes of its UTF-8 form. *)
Definition white_space_codes : list N :=
  [9; 10; 11; 12; 13; 32; 160; 5760;
   8192; 8193; 8194; 8195; 8196; 8197; 8198; 8199; 8200; 8201; 8202;
   8232; 8233; 8239; 8287; 12288; 65279]%N.

Definition white_space : list string := map utf8 white_space_codes.

Definition white_space_bytes : list string := Eval vm_compute in white_space.

Definition is_white (t : string) : bool := existsb (String.eqb t) white_space.

(** [s.trimStart()] : a white space character is one, two or three bytes
    long. *)
Fixpoint trimStart (s : string) : string :=
  match s with
  | "" => ""
  | String c1 s1 =>
      if is_white (String c1 "") then trimStart s1
      else match s1 with
           | "" => s
           | String c2 s2 =>
               if is_white (String c1 (String c2 "")) then trimStart s2
               else match s2 with
                    | "" => s
                    | String c3 s3 =>
                        if is_white (String c1 (String c2 (String c3 "")))
                        then trimStart s3 else s
                    end
           end
  end.

(** Remove the longest suffix whose characters all satisfy [p]. *)
Fixpoint drop_end (p : ascii -> bool) (s : string) : string :=
  match s with
  | "" => ""
  | String c s' =>
      match drop_end p s' with
      | "" => if p c then "" else String c ""
      | r => String c r
      end
  end.

(** A text of white space only. *)
Definition blank (s : string) : bool :=
  match trimStart s with "" => true | _ => false end.

(** [s.trimEnd()] : cut where only white space follows. *)
Fixpoint trimEnd (s : string) : string :=
  match s with
  | "" => ""
  | String c s' => if blank s then "" else String c (trimEnd s')
  end.

(** A byte that continues a character in UTF-8. *)
Definition continues (c : ascii) : bool := in_range 128 191 c.

(** The longest prefix whose characters satisfy [p], and what follows it. *)
Fixpoint span (p : ascii -> bool) (s : string) : string * string :=
  match s with
  | "" => ("", "")
  | String c s' =>
      if p c then let (a, b) := span p s' in (String c a, b) else ("", s)
  end.

Definition trim (s : string) : string := trimEnd (trimStart s).

(** [s.split(sep)] for a one-character separator. *)
Fixpoint split (sep : ascii) (s : string) : list string :=
  match s with
  | "" => [""]
  | String c s' =>
      if Ascii.eqb c sep then "" :: split sep s'
      else match split sep s' with
           | h :: t => String c h :: t
           | [] => [String c ""]
           end
  end.

(** [l.join(sep)] on a list of strings. *)
Fixpoint join (sep : string) (l : list string) : string :=
  match l with
  | [] => ""
  | [x] => x
  | x :: rest => x ++ sep ++ join sep rest
  end.

Definition nonempty (s : string) : bool :=
  match s with "" => false | _ => true end.

(** Decimal rendering of an integer, as [String(n)] gives it. *)
Definition dec (z : Z) : string := NilZero.string_of_int (Z.to_int z).

Fixpoint drop (n : nat) (s : string) : string :=
  match n, s with
  | O, _ => s
  | S n', String _ s' => drop n' s'
  | S _, "" => ""
  end.

(** ** Numbers

    A JavaScript number is an IEEE 754 double, here a [spec_float] of the
    Standard Library with 53 bits of precision. *)

Definition number : Type := spec_float.

(** The double nearest to [m * 2 ^ e], ties to even. *)
Definition nearest (m e : Z) : number := binary_normalize 53 1024 m e false.

Definition of_Z (z : Z) : number := nearest z 0.

(** The double nearest to [m * 10 ^ e] for [0 <= m], with the sign [neg]. *)
Definition of_decimal (neg : bool) (m e : Z) : number :=
  match m with
  | Zpos p =>
      if (0 <=? e)%Z
      then nearest (cond_Zopp neg (Zpos p * 10 ^ e)) 0
      else SFdiv 53 1024 (S754_finite neg p 0)
             (S754_finite false (Z.to_pos (10 ^ (- e))) 0)
  | _ => S754_zero neg
  end.

Definition is_finite (x : number) : bool :=
  match x with
  | S754_zero _ | S754_finite _ _ _ => true
  | _ => false
  end.

Definition same_number (x y : number) : bool :=
  match x, y with
  | S754_zero a, S754_zero b => Bool.eqb a b
  | S754_infinity a, S754_infinity b => Bool.eqb a b
  | S754_finite a m e, S754_finite b m' e' =>
      Bool.eqb a b && Pos.eqb m m' && Z.eqb e e'
  | _, _ => false
  end.

(** *** Number to text: [Number::toString] *)

(** [v = a / b] as a fraction. *)
Definition exact_value (m : positive) (e : Z) : Z * Z :=
  if (0 <=? e)%Z then (Zpos m * 2 ^ e, 1)%Z else (Zpos m, 2 ^ (- e))%Z.

Definition digits_of (z : Z) : Z := Z.of_nat (String.length (dec z)).

(** The least [j >= 1], at most [fuel], with [b <= a * 10 ^ j]. *)
Fixpoint first_power (fuel : nat) (a b j : Z) : Z :=
  match fuel with
  | O => j
  | S fuel' => if (b <=? a * 10 ^ j)%Z then j else first_power fuel' a b (j + 1)
  end.

(** The [n] with [10 ^ (n - 1) <= a / b < 10 ^ n]. *)
Definition decimal_point (a b : Z) : Z :=
  if (b <=? a)%Z then digits_of (a / b)
  else (1 - first_power (S (String.length (dec b))) a b 1)%Z.

(** [a / b / 10 ^ scale] as a fraction. *)
Definition scaled (a b scale : Z) : Z * Z :=
  if (0 <=? scale)%Z then (a, b * 10 ^ scale)%Z else (a * 10 ^ (- scale), b)%Z.

(** The digits [s] of the [k]-digit decimal [s * 10 ^ (n - k)] that is read
    as [x] and is nearest to it, if there is one. *)
Definition candidate (x : number) (a b n k : Z) : option Z :=
  let scale := (n - k)%Z in
  let (p, q) := scaled a b scale in
  let lo := (p / q)%Z in
  let hi := (lo + 1)%Z in
  let ok_lo := same_number (of_decimal false lo scale) x in
  let ok_hi := same_number (of_decimal false hi scale) x in
  if ok_lo && ok_hi then
    match (2 * p ?= (lo + hi) * q)%Z with
    | Lt => Some lo
    | Gt => Some hi
    | Eq => Some (if Z.even lo then lo else hi)
    end
  else if ok_lo then Some lo
  else if ok_hi then Some hi
  else None.

(** The shortest decimal that is read as [x]: its digits and their number;
    seventeen digits always are enough. *)
Fixpoint shortest (fuel : nat) (x : number) (a b n k : Z) : Z * Z :=
  match fuel with
  | O => (let (p, q) := scaled a b (n - k) in p / q, k)%Z
  | S fuel' =>
      match candidate x a b n k with
      | Some s => (s, k)
      | None => shortest fuel' x a b n (k + 1)
      end
  end.

(** Digits without the zeros at their end, and how many were dropped. *)
Fixpoint drop_zeros (fuel : nat) (s dropped : Z) : Z * Z :=
  match fuel with
  | O => (s, dropped)
  | S fuel' =>
      if (0 <? s)%Z && (s mod 10 =? 0)%Z
      then drop_zeros fuel' (s / 10)%Z (dropped + 1)%Z
      else (s, dropped)
  end.

Fixpoint zeros (n : nat) : string :=
  match n with
  | O => ""
  | S n' => String "0" (zeros n')
  end.

Fixpoint take (n : nat) (s : string) : string :=
  match n, s with
  | S n', String c s' => String c (take n' s')
  | _, _ => ""
  end.

(** The text of the positive number with digits [ds] and its decimal point
    after [n] of them (steps 6 to 10 of [Number::toString]). *)
Definition layout (ds : string) (n : Z) : string :=
  let k := Z.of_nat (String.length ds) in
  if (k <=? n)%Z && (n <=? 21)%Z then ds ++ zeros (Z.to_nat (n - k))
  else if (0 <? n)%Z && (n <=? 21)%Z
  then take (Z.to_nat n) ds ++ "." ++ drop (Z.to_nat n) ds
  else if (-6 <? n)%Z && (n <=? 0)%Z then "0." ++ zeros (Z.to_nat (- n)) ++ ds
  else
    let e := (n - 1)%Z in
    let mantissa := if (k =? 1)%Z then ds else take 1 ds ++ "." ++ drop 1 ds in
    mantissa ++ "e" ++ (if (e <? 0)%Z then "-" else "+") ++ dec (Z.abs e).

Definition positive_text (m : positive) (e : Z) : string :=
  let (a, b) := exact_value m e in
  let n := decimal_point a b in
  let (s, k) := shortest 17 (S754_finite false m e) a b n 1 in
  let (s', dropped) := drop_zeros 17 s 0 in
  layout (dec s') (n - k + dropped + digits_of s').

(** [String(x)] *)
Definition number_text (x : number) : string :=
  match x with
  | S754_nan => "NaN"
  | S754_zero _ => "0"
  | S754_infinity false => "Infinity"
  | S754_infinity true => "-Infinity"
  | S754_finite neg m e => (if neg then "-" else "") ++ positive_text m e
  end.

(** *** Text to number: the number literals of JSON *)

Fixpoint digits_value (acc : Z) (ds : string) : Z :=
  match ds with
  | "" => acc
  | String c r => digits_value (10 * acc + Z.of_nat (code c - 48))%Z r
  end.

(** A minus sign, if there is one. *)
Definition split_sign (s : string) : bool * string :=
  match s with
  | String c r => if Ascii.eqb c "-" then (true, r) else (false, s)
  | "" => (false, s)
  end.

(** The fraction digits after a point; a point without digits is an error. *)
Definition fraction (s : string) : option (string * string) :=
  match s with
  | String c r =>
      if Ascii.eqb c "."
      then let (fp, r') := span is_digit r in
           if nonempty fp then Some (fp, r') else None
      else Some ("", s)
  | "" => Some ("", s)
  end.

(** The exponent after [e] or [E]; an [e] without digits is an error. *)
Definition exponent (s : string) : option (Z * string) :=
  match s with
  | String c r =>
      if Ascii.eqb c "e" || Ascii.eqb c "E"
      then let (neg, r1) :=
             match r with
             | String d r' =>
                 if Ascii.eqb d "-" then (true, r')
                 else if Ascii.eqb d "+" then (false, r') else (false, r)
             | "" => (false, r)
             end in
           let (ds, r2) := span is_digit r1 in
           if nonempty ds
           then Some (if neg then (- digits_value 0 ds)%Z else digits_value 0 ds, r2)
           else None
      else Some (0%Z, s)
  | "" => Some (0%Z, s)
  end.

(** A number literal at the start of [s]: an optional minus, ["0"] or digits
    that do not start with a zero, an optional fraction, an optional
    exponent. *)
Definition parse_number (s : string) : option (number * string) :=
  let (neg, r0) := split_sign s in
  let (ip, r1) := span is_digit r0 in
  if nonempty ip && (String.eqb ip "0" || negb (starts_with "0" ip))
  then match fraction r1 with
       | Some (fp, r2) =>
           match exponent r2 with
           | Some (ex, r3) =>
               Some (of_decimal neg (digits_value 0 (ip ++ fp))
                       (ex - Z.of_nat (String.length fp)),
                     r3)
           | None => None
           end
       | None => None
       end
  else None.

(** Where a number literal can end. *)
Definition number_end (rest : string) : bool :=
  match rest with
  | "" => true
  | String c _ =>
      negb (is_digit c || Ascii.eqb c "." || Ascii.eqb c "e" || Ascii.eqb c "E")
  end.

Definition starts_number (c : ascii) : bool := Ascii.eqb c "-" || is_digit c.

(** The text of [x] is read as [x]. *)
Definition number_reads_back (x : number) : bool :=
  match parse_number (number_text x) with
  | Some (y, "") => same_number y x
  | _ => false
  end.

(** ** JavaScript values *)

Unset Elimination Schemes.

Inductive jsval : Type :=
| JUndefined
| JNull
| JBool (b : bool)
| JNum (x : number)
| JStr (s : string)
| JArr (l : list jsval)
| JObj (fields : list (string * jsval)).

Set Elimination Schemes.

(** ** Induction on values *)

Section JsvalInd.
Variable P : jsval -> Prop.
Hypothesis Hundef : P JUndefined.
Hypothesis Hnull : P JNull.
Hypothesis Hbool : forall b, P (JBool b).
Hypothesis Hnum : forall z, P (JNum z).
Hypothesis Hstr : forall s, P (JStr s).
Hypothesis Harr : forall l, Forall P l -> P (JArr l).
Hypothesis Hobj : forall fields, Forall (fun kv => P (snd kv)) fields -> P (JObj fields).

Fixpoint jsval_ind (v : jsval) : P v :=
  match v with
  | JUndefined => Hundef
  | JNull => Hnull
  | JBool b => Hbool b
  | JNum z => Hnum z
  | JStr s => Hstr s
  | JArr l =>
      Harr ((fix all (l : list jsval) : Forall P l :=
               match l with
               | [] => Forall_nil P
               | x :: l' => Forall_cons x (jsval_ind x) (all l')
               end) l)
  | JObj fields =>
      Hobj ((fix all (fs : list (string * jsval))
               : Forall (fun kv => P (snd kv)) fs :=
               match fs with
               | [] => Forall_nil _
               | kv :: fs' => Forall_cons kv (jsval_ind (snd kv)) (all fs')
               end) fields)
  end.
End JsvalInd.

(** ToBoolean *)
Definition truthy (v : jsval) : bool :=
  match v with
  | JUndefined | JNull => false
  | JBool b => b
  | JNum x => match x with S754_zero _ | S754_nan => false | _ => true end
  | JStr s => nonempty s
  | JArr _ | JObj _ => true
  end.

Definition falsy (v : jsval) : bool := negb (truthy v).

(** [a || b] on values. *)
Definition js_or (a b : jsval) : jsval := if truthy a then a else b.

(** [a ?? b] *)
Definition nullish (a b : jsval) : jsval :=
  match a with
  | JUndefined | JNull => b
  | _ => a
  end.

Definition isArray (v : jsval) : bool :=
  match v with JArr _ => true | _ => false end.

Definition is_string (v : jsval) : bool :=
  match v with JStr _ => true | _ => false end.

(** [typeof v === 'object'] : objects, arrays and [null]. *)
Definition typeof_object (v : jsval) : bool :=
  match v with JNull | JArr _ | JObj _ => true | _ => false end.

Fixpoint lookup (k : string) (fields : list (string * jsval)) : option jsval :=
  match fields with
  | [] => None
  | (k', v) :: rest => if String.eqb k' k then Some v else lookup k rest
  end.

(** [v.k] on a value that is neither [null] nor [undefined]. The keys the
    helpers read are plain names, which only objects carry. *)
Definition prop (v : jsval) (k : string) : jsval :=
  match v with
  | JObj fields => match lookup k fields with Some x => x | None => JUndefined end
  | _ => JUndefined
  end.

(** [v.k] in general: reading a property of [null] or [undefined] throws. *)
Definition member (v : jsval) (k : string) : result jsval :=
  match v with
  | JUndefined | JNull => Throw TypeError
  | _ => Ok (prop v k)
  end.

(** [k in v] : throws on a primitive. *)
Definition has_prop (k : string) (v : jsval) : result bool :=
  match v with
  | JObj fields => Ok (match lookup k fields with Some _ => true | None => false end)
  | JArr _ => Ok false
  | _ => Throw TypeError
  end.

(** [v.toUpperCase()] : a method of strings only. *)
Definition call_toUpperCase (v : jsval) : result string :=
  match v with
  | JStr s => Ok (toUpperCase s)
  | JUndefined | JNull => Throw TypeError
  | _ => Throw TypeError
  end.

(** ToString, as template literals and [Array.prototype.join] apply it. *)
Fixpoint ToString (v : jsval) : string :=
  match v with
  | JUndefined => "undefined"
  | JNull => "null"
  | JBool true => "true"
  | JBool false => "false"
  | JNum x => number_text x
  | JStr s => s
  | JArr l =>
      join "," (map (fun x => match x with
                              | JUndefined | JNull => ""
                              | _ => ToString x
                              end) l)
  | JObj _ => "[object Object]"
  end.

(** [arr.join(sep)] : [null] and [undefined] elements render as empty. *)
Definition array_join (sep : string) (l : list jsval) : string :=
  join sep (map (fun x => match x with
                          | JUndefined | JNull => ""
                          | _ => ToString x
                          end) l).

(** [arr.concat(x)] : an array argument is spread. *)
Definition array_concat (l : list jsval) (x : jsval) : list jsval :=
  match x with
  | JArr xs => l ++ xs
  | _ => l ++ [x]
  end.

(** [obj[k] = v] : overwrite the binding, or add it after the others. *)
Fixpoint obj_set (k : string) (v : jsval) (fields : list (string * jsval))
  : list (string * jsval) :=
  match fields with
  | [] => [(k, v)]
  | (k', v') :: rest =>
      if String.eqb k' k then (k', v) :: rest else (k', v') :: obj_set k v rest
  end.

(** ** URLSearchParams serialisation

    [params.toString()] writes each pair as [name=value], joined by [&], both
    sides in application/x-www-form-urlencoded form: letters, digits and
    [*-._] stay, a space becomes [+], any other byte becomes [%XX]. *)

Definition hex_digit (n : nat) : ascii :=
  nth n ["0"; "1"; "2"; "3"; "4"; "5"; "6"; "7"; "8"; "9";
         "A"; "B"; "C"; "D"; "E"; "F"]%char "0"%char.

Definition form_safe (c : ascii) : bool :=
  is_alnum c || Ascii.eqb c "*" || Ascii.eqb c "-" || Ascii.eqb c "."
  || Ascii.eqb c "_".

Definition form_encode_char (c : ascii) : string :=
  if form_safe c then String c ""
  else if Ascii.eqb c " " then "+"
  else String "%" (String (hex_digit (code c / 16))
                     (String (hex_digit (code c mod 16)) "")).

Fixpoint form_encode (s : string) : string :=
  match s with
  | "" => ""
  | String c s' => form_encode_char c ++ form_encode s'
  end.

Definition params_toString (params : list (string * string)) : string :=
  join "&" (map (fun p => form_encode (fst p) ++ "=" ++ form_encode (snd p)) params).

(** ** The run address, the selection policy and the hits *)

Record RunInfo : Type := {
  origin : string;
  runId : option string;       (* [None] is [undefined] *)
  outputId : option string;
  anonymousKey : string
}.

(** A template-literal hole filled with a possibly undefined string. *)
Definition tpl (o : option string) : string :=
  match o with Some s => s | None => "undefined" end.

(** [buildResultBaseUrl] *)
Definition buildResultBaseUrl (runInfo : RunInfo) : string :=
  origin runInfo ++ "/result/" ++ tpl (runId runInfo) ++ "/" ++ tpl (outputId runInfo).

Record Opts : Type := {
  includeSatisfied : jsval;
  includeAll : jsval;
  includeRuleMatch : jsval
}.

(** The default [opts = {}]. *)
Definition no_opts : Opts :=
  {| includeSatisfied := JUndefined; includeAll := JUndefined;
     includeRuleMatch := JUndefined |}.

Record RuleHit : Type := {
  ruleName : string;
  status : string;
  outputFile : option string;                      (* [None] is [null] *)
  url : option string;
  nodeSnapshot : option (list (string * jsval))    (* [None] : no such key *)
}.

(** ** collectFailedRuleOutputs *)

Definition snapshotFields : list string :=
  ["message"; "counterExample"; "counterexample"; "trace"; "callTrace";
   "output_type_information"; "contract_call_summaries"; "storage_initial_state";
   "assertions"; "assertMessage"; "treeViewPath"; "variables";
   "callResolutionWarnings"].

(** The URL of one evidence file (source lines 94-100). *)
Definition hit_url (runInfo : RunInfo) (outputFile : string) : string :=
  let baseUrl := origin runInfo ++ "/result/" ++ tpl (runId runInfo) ++ "/"
                 ++ tpl (outputId runInfo) in
  let params :=
    ((if nonempty (anonymousKey runInfo)
      then [("anonymousKey", anonymousKey runInfo)] else [])
     ++ [("output", outputFile)])%list in
  if nonempty (params_toString params)
  then baseUrl ++ "?" ++ params_toString params
  else baseUrl.

(** The loop over [node.output] (source lines 92-109). *)
Definition push_outputs (runInfo : RunInfo) (label status : string)
  (output : list jsval) (results : list RuleHit) : list RuleHit :=
  fold_left
    (fun acc outputFile =>
       match outputFile with
       | JStr f =>
           if ends_with_ci ".json" f
           then (acc ++ [{| ruleName := label; status := status;
                            outputFile := Some f;
                            url := Some (hit_url runInfo f);
                            nodeSnapshot := None |}])%list
           else acc
       | _ => acc
       end)
    output results.

(** The snapshot of a node without output (source lines 111-117). *)
Definition take_snapshot (node : jsval) (status : string)
  : result (list (string * jsval)) :=
  for_of
    (fun snap field =>
       present <- has_prop field node ;;
       Ok (if present then obj_set field (prop node field) snap else snap))
    snapshotFields
    [("name", prop node "name"); ("status", JStr status)].

(** [node.output] and [node.children] read as arrays. *)
Definition output_of (node : jsval) : list jsval :=
  match prop node "output" with JArr l => l | _ => [] end.

Definition children_of (node : jsval) : list jsval :=
  match prop node "children" with JArr l => l | _ => [] end.

(** The trimmed, lower-cased [opts.includeRuleMatch], or [null]. *)
Definition rule_match (opts : Opts) : option string :=
  match includeRuleMatch opts with
  | JStr s => if nonempty (trim s) then Some (toLowerCase (trim s)) else None
  | _ => None
  end.

(** [for (const child of children)] with the children found inside the node,
    so that the walk below is a structural recursion. *)
Definition for_children (B : Type) (step : B -> jsval -> result B)
  (node : jsval) (acc : B) : result B :=
  match node with
  | JObj fields =>
      (fix find (fs : list (string * jsval)) : result B :=
         match fs with
         | [] => Ok acc
         | (k, v) :: rest =>
             if String.eqb k "children"
             then match v with
                  | JArr l => for_of step l acc
                  | _ => Ok acc
                  end
             else find rest
         end) fields
  | _ => Ok acc
  end.

Fixpoint collectFailedRuleOutputs (node : jsval) (runInfo : RunInfo)
  (results : list RuleHit) (currentPath : list jsval) (opts : Opts)
  {struct node} : result (list RuleHit) :=
  if falsy node then Ok results else
  let name := js_or (prop node "name") (JStr "") in
  status <- call_toUpperCase (js_or (prop node "status") (JStr "")) ;;
  let output := output_of node in
  let nextPath := array_concat currentPath name in
  let includeSatisfied := truthy (includeSatisfied opts) in
  let includeAll := truthy (includeAll opts) in
  let includeRuleMatch := rule_match opts in
  let rulePathLower := toLowerCase (array_join " > " nextPath) in
  let matchesName :=
    match includeRuleMatch with
    | Some m => includes m rulePathLower
    | None => false
    end in
  results <-
    (if nonempty status && (0 <? length output)%nat
        && (matchesName
            || includeAll
            || (includeSatisfied && negb (status =? "VERIFIED"))
            || (negb includeSatisfied
                && ((status =? "VIOLATED") || (status =? "SANITY_FAILED"))))
     then Ok (push_outputs runInfo (array_join " > " nextPath) status output results)
     else if includeSatisfied && nonempty status && (length output =? 0)%nat
             && negb (status =? "VERIFIED")
     then
       nodeSnapshot <- take_snapshot node status ;;
       Ok (results ++ [{| ruleName := array_join " > " nextPath;
                          status := status;
                          outputFile := None;
                          url := None;
                          nodeSnapshot := Some nodeSnapshot |}])%list
     else Ok results) ;;
  for_children
    (fun results child =>
       collectFailedRuleOutputs child runInfo results nextPath opts)
    node results.

(** ** The platform's URL parser

    [new URL(s)] and [url.searchParams] as a partial function: the result is
    [None] on the strings for which the URL standard is not written out
    here. Written out are
    - the strings without a colon: they have no scheme, and the parser
      rejects them;
    - the strings [https://] host path [?] query, without fragment, in which
      the parser changes nothing: the host is a domain name in lower case, no
      IPv4 address and no internationalised name; the path is made of
      slashes, letters, digits, [-], [_] and [~], so it has no dot segment and
      nothing to percent-encode; the query is made of letters, digits and
      [- . _ ~ / = & + % *], and its names and values, form-decoded ([+] is a
      space, [%XX] a byte), are well-formed UTF-8.
    The search of the result is the query without its question mark. *)

Record URL : Type := {
  protocol : string;   (* with its colon *)
  host : string;
  pathname : string;
  search : string      (* without the question mark *)
}.

Definition ends_authority (c : ascii) : bool :=
  Ascii.eqb c "/" || Ascii.eqb c "?" || Ascii.eqb c "#".

Definition ends_path (c : ascii) : bool :=
  Ascii.eqb c "?" || Ascii.eqb c "#".

Definition host_char (c : ascii) : bool :=
  is_lower c || is_digit c || Ascii.eqb c "-" || Ascii.eqb c ".".

Definition segment_char (c : ascii) : bool :=
  is_alnum c || Ascii.eqb c "-" || Ascii.eqb c "_" || Ascii.eqb c "~".

Definition path_char (c : ascii) : bool := segment_char c || Ascii.eqb c "/".

Definition key_char (c : ascii) : bool :=
  is_alnum c || Ascii.eqb c "-" || Ascii.eqb c "." || Ascii.eqb c "_"
  || Ascii.eqb c "~" || Ascii.eqb c "/" || Ascii.eqb c "=".

Definition coded_key_char (c : ascii) : bool :=
  key_char c || Ascii.eqb c "+" || Ascii.eqb c "%" || Ascii.eqb c "*".

Definition query_char (c : ascii) : bool := coded_key_char c || Ascii.eqb c "&".

(** A label of a domain name that the parser leaves as it is: at most 63
    letters in lower case, digits and hyphens, no hyphen at either end, and
    not the prefix [xn--] of an encoded label. *)
Definition plain_label (l : string) : bool :=
  nonempty l && (String.length l <=? 63)%nat
  && negb (starts_with "-" l) && negb (ends_with "-" l)
  && negb (starts_with "xn--" l).

(** A host that the parser leaves as it is: plain labels between dots, the
    last of which starts with a letter, so that the host is no IPv4 address. *)
Definition plain_host (h : string) : bool :=
  sall host_char h && (String.length h <=? 253)%nat
  && forallb plain_label (split "." h)
  && match last (split "." h) "" with
     | String c _ => is_lower c
     | "" => false
     end.

Definition plain_segment (r : string) : bool := nonempty r && sall segment_char r.
Definition coded_key (k : string) : bool := sall coded_key_char k.

Definition second_of_three (c c1 : ascii) : bool :=
  if (code c =? 224)%nat then in_range 160 191 c1
  else if (code c =? 237)%nat then in_range 128 159 c1
  else continues c1.

Definition second_of_four (c c1 : ascii) : bool :=
  if (code c =? 240)%nat then in_range 144 191 c1
  else if (code c =? 244)%nat then in_range 128 143 c1
  else continues c1.

(** Well-formed UTF-8: the bytes of a text without lone surrogates. *)
Fixpoint valid_utf8 (s : string) : bool :=
  match s with
  | "" => true
  | String c r =>
      if is_ascii c then valid_utf8 r
      else
        match r with
        | String c1 r1 =>
            if in_range 194 223 c then continues c1 && valid_utf8 r1
            else
              match r1 with
              | String c2 r2 =>
                  if in_range 224 239 c
                  then second_of_three c c1 && continues c2 && valid_utf8 r2
                  else
                    match r2 with
                    | String c3 r3 =>
                        in_range 240 244 c && second_of_four c c1
                        && continues c2 && continues c3 && valid_utf8 r3
                    | "" => false
                    end
              | "" => false
              end
        | "" => false
        end
  end.

Definition hex_val (c : ascii) : option nat :=
  if is_digit c then Some (code c - 48)
  else if in_range 65 70 c then Some (code c - 55)
  else if in_range 97 102 c then Some (code c - 87)
  else None.

Fixpoint percent_decode (s : string) : string :=
  match s with
  | "" => ""
  | String c rest =>
      if Ascii.eqb c "%" then
        match rest with
        | String h (String l s') =>
            match hex_val h, hex_val l with
            | Some a, Some b => String (ascii_of_nat (16 * a + b)) (percent_decode s')
            | _, _ => String c (percent_decode rest)
            end
        | _ => String c (percent_decode rest)
        end
      else String c (percent_decode rest)
  end.

Definition form_decode (s : string) : string :=
  percent_decode (smap (fun c => if Ascii.eqb c "+" then " "%char else c) s).

(** One [name=value] piece of a query, split at its first [=]. *)
Definition query_pair (piece : string) : string * string :=
  let (name, r) := span (fun c => negb (Ascii.eqb c "=")) piece in
  (form_decode name,
   form_decode match r with String _ value => value | "" => "" end).

(** The names and values in a query. *)
Definition query_pairs (query : string) : list (string * string) :=
  map query_pair (filter nonempty (split "&" query)).

Definition plain_query (query : string) : bool :=
  sall query_char query
  && forallb (fun p => valid_utf8 (fst p) && valid_utf8 (snd p)) (query_pairs query).

Definition URL_new (s : string) : option (result URL) :=
  if negb (includes ":" s) then Some (Throw InvalidUrl)
  else if starts_with "https://" s then
    let (authority, r2) := span (fun c => negb (ends_authority c)) (drop 8 s) in
    let (path, r3) := span (fun c => negb (ends_path c)) r2 in
    let query :=
      match r3 with
      | "" => Some ""
      | String "?" q => Some q
      | _ => None
      end in
    match query with
    | Some q =>
        if plain_host authority && sall path_char path && plain_query q
        then Some (Ok {| protocol := "https:";
                         host := authority;
                         pathname := if nonempty path then path else "/";
                         search := q |})
        else None
    | None => None
    end
  else None.

(** [url.searchParams], for a parsed [u]. *)
Definition searchParams (u : URL) : list (string * string) :=
  query_pairs (search u).

(** [params.get(name)] : the first value under [name], or [null]. *)
Fixpoint params_get (name : string) (params : list (string * string))
  : option string :=
  match params with
  | [] => None
  | (k, v) :: rest => if String.eqb k name then Some v else params_get name rest
  end.

(** ** parseRunInfo *)

(** [parts[i]], [undefined] outside the array. *)
Definition at_index (parts : list string) (i : Z) : option string :=
  if (i <? 0)%Z then None else nth_error parts (Z.to_nat i).

Definition is_token (tok : string) (x : option string) : bool :=
  match x with Some s => String.eqb s tok | None => false end.

(** The loop of source lines 15-21, started at index [i] with [n] rounds
    left; [runId] and [outputId] stay [undefined] when it runs out. *)
Fixpoint scan_parts (parts : list string) (n : nat) (i : Z)
  : option string * option string :=
  match n with
  | O => (None, None)
  | S n' =>
      if is_token "output" (at_index parts i)
         && negb (is_token "outputs" (at_index parts (i - 1)))
      then (at_index parts (i + 1), at_index parts (i + 2))
      else scan_parts parts n' (i + 1)
  end.

Definition run_info (u : URL) : RunInfo :=
  let parts := filter nonempty (split "/" (pathname u)) in
  let (runId, outputId) := scan_parts parts (length parts) 0 in
  let anonymousKey :=
    match params_get "anonymousKey" (searchParams u) with
    | Some k => if nonempty k then k else ""
    | None => ""
    end in
  {| origin := protocol u ++ "//" ++ host u;
     runId := runId; outputId := outputId; anonymousKey := anonymousKey |}.

(** [None] where the URL parser is not written out. *)
Definition parseRunInfo (urlStr : string) : option (result RunInfo) :=
  match URL_new (drop_end (Ascii.eqb "/") urlStr) with
  | Some parsed => Some (u <- parsed ;; Ok (run_info u))
  | None => None
  end.

(** ** The platform's JSON

    [stringify] is [JSON.stringify] without indentation; [JSON_parse] is
    [JSON.parse], [None] standing for its SyntaxError. A repeated key keeps
    its last value. *)

Definition dquote : ascii := ascii_of_nat 34.
Definition backslash : ascii := ascii_of_nat 92.

Definition lower_hex_digit (n : nat) : ascii :=
  nth n ["0"; "1"; "2"; "3"; "4"; "5"; "6"; "7"; "8"; "9";
         "a"; "b"; "c"; "d"; "e"; "f"]%char "0"%char.

(** The two-character escapes, as (letter, character) pairs. *)
Definition short_escapes : list (ascii * ascii) :=
  [("b"%char, ascii_of_nat 8); ("t"%char, ascii_of_nat 9);
   ("n"%char, ascii_of_nat 10); ("f"%char, ascii_of_nat 12);
   ("r"%char, ascii_of_nat 13)].

Definition escape_char (c : ascii) : string :=
  if Ascii.eqb c dquote || Ascii.eqb c backslash then String backslash (String c "")
  else match find (fun p => Ascii.eqb (snd p) c) short_escapes with
       | Some p => String backslash (String (fst p) "")
       | None =>
           if (code c <? 32)%nat
           then String backslash
                  (String "u" (String "0" (String "0"
                     (String (lower_hex_digit (code c / 16))
                        (String (lower_hex_digit (code c mod 16)) "")))))
           else String c ""
       end.

Fixpoint quote_body (s : string) : string :=
  match s with
  | "" => ""
  | String c s' => escape_char c ++ quote_body s'
  end.

Definition quote (s : string) : string :=
  String dquote (quote_body s ++ String dquote "").

Definition is_undefined (v : jsval) : bool :=
  match v with JUndefined => true | _ => false end.

Fixpoint stringify (v : jsval) : string :=
  match v with
  | JUndefined | JNull => "null"
  | JBool true => "true"
  | JBool false => "false"
  | JNum x => if is_finite x then number_text x else "null"
  | JStr s => quote s
  | JArr l => "[" ++ join "," (map stringify l) ++ "]"
  | JObj fields =>
      "{" ++ join "," (flat_map
                         (fun p : string * jsval =>
                                   let (k, x) := p in
                                   if is_undefined x then []
                                   else [quote k ++ ":" ++ stringify x])
                         fields)
          ++ "}"
  end.

(** [JSON.stringify(v)] : [undefined] has no JSON text. *)
Definition JSON_stringify (v : jsval) : jsval :=
  match v with
  | JUndefined => JUndefined
  | _ => JStr (stringify v)
  end.

Definition is_json_ws (c : ascii) : bool :=
  Ascii.eqb c " " || (code c =? 9)%nat || (code c =? 10)%nat || (code c =? 13)%nat.

Fixpoint skip_ws (s : string) : string :=
  match s with
  | "" => ""
  | String c s' => if is_json_ws c then skip_ws s' else s
  end.

(** What follows [pat] in [s], when [s] starts with it. *)
Fixpoint strip_prefix (pat s : string) : option string :=
  match pat, s with
  | "", _ => Some s
  | String p pat', String c s' =>
      if Ascii.eqb p c then strip_prefix pat' s' else None
  | String _ _, "" => None
  end.

Definition hex4 (a b c d : ascii) : option nat :=
  match hex_val a, hex_val b, hex_val c, hex_val d with
  | Some x, Some y, Some z, Some w => Some (4096 * x + 256 * y + 16 * z + w)
  | _, _, _, _ => None
  end.

Definition unescape (e : ascii) : option ascii :=
  if Ascii.eqb e dquote || Ascii.eqb e backslash || Ascii.eqb e "/" then Some e
  else match find (fun p => Ascii.eqb (fst p) e) short_escapes with
       | Some p => Some (snd p)
       | None => None
       end.

Definition prepend (pre : string) (x : option (string * string))
  : option (string * string) :=
  match x with
  | Some (body, rest) => Some (pre ++ body, rest)
  | None => None
  end.

(** The characters of a string literal up to its closing quote. *)
Fixpoint parse_chars (s : string) : option (string * string) :=
  match s with
  | "" => None
  | String c s' =>
      if Ascii.eqb c dquote then Some ("", s')
      else if Ascii.eqb c backslash then
        match s' with
        | "" => None
        | String e s'' =>
            if Ascii.eqb e "u" then
              match s'' with
              | String h1 (String h2 (String h3 (String h4 r))) =>
                  match hex4 h1 h2 h3 h4 with
                  | Some n => prepend (utf8 (N.of_nat n)) (parse_chars r)
                  | None => None
                  end
              | _ => None
              end
            else match unescape e with
                 | Some ch => prepend (String ch "") (parse_chars s'')
                 | None => None
                 end
        end
      else if (code c <? 32)%nat then None
      else prepend (String c "") (parse_chars s')
  end.

Section Aggregates.
(** The parser of one value, with less fuel. *)
Variable parse_value : string -> option (jsval * string).

(** The elements of an array after its first bracket or a comma. *)
Fixpoint parse_elements (fuel : nat) (s : string) : option (list jsval * string) :=
  match fuel with
  | O => None
  | S fuel' =>
      match parse_value s with
      | None => None
      | Some (v, r) =>
          match skip_ws r with
          | "" => None
          | String c r' =>
              if Ascii.eqb c "," then
                match parse_elements fuel' r' with
                | Some (vs, r'') => Some (v :: vs, r'')
                | None => None
                end
              else if Ascii.eqb c "]" then Some ([v], r')
              else None
          end
      end
  end.

(** One [key : value] member. *)
Definition parse_member (s : string) : option ((string * jsval) * string) :=
  match skip_ws s with
  | "" => None
  | String q r =>
      if Ascii.eqb q dquote then
        match parse_chars r with
        | None => None
        | Some (k, r1) =>
            match skip_ws r1 with
            | "" => None
            | String c r2 =>
                if Ascii.eqb c ":" then
                  match parse_value r2 with
                  | Some (v, r3) => Some ((k, v), r3)
                  | None => None
                  end
                else None
            end
        end
      else None
  end.

(** The members of an object after its first brace or a comma. *)
Fixpoint parse_members (fuel : nat) (s : string)
  : option (list (string * jsval) * string) :=
  match fuel with
  | O => None
  | S fuel' =>
      match parse_member s with
      | None => None
      | Some (kv, r) =>
          match skip_ws r with
          | "" => None
          | String c r' =>
              if Ascii.eqb c "," then
                match parse_members fuel' r' with
                | Some (kvs, r'') => Some (kv :: kvs, r'')
                | None => None
                end
              else if Ascii.eqb c "}" then Some ([kv], r')
              else None
          end
      end
  end.
End Aggregates.

(** The object built from members in the order read. *)
Definition build_object (members : list (string * jsval)) : jsval :=
  JObj (fold_left (fun fields kv => obj_set (fst kv) (snd kv) fields) members []).

Definition keyword (word : string) (v : jsval) (s : string) : option (jsval * string) :=
  match strip_prefix word s with
  | Some rest => Some (v, rest)
  | None => None
  end.

Fixpoint parse_value (fuel : nat) (s : string) : option (jsval * string) :=
  match fuel with
  | O => None
  | S fuel' =>
      match skip_ws s with
      | "" => None
      | String c r =>
          if Ascii.eqb c "n" then keyword "ull" JNull r
          else if Ascii.eqb c "t" then keyword "rue" (JBool true) r
          else if Ascii.eqb c "f" then keyword "alse" (JBool false) r
          else if Ascii.eqb c dquote then
            match parse_chars r with
            | Some (str, rest) => Some (JStr str, rest)
            | None => None
            end
          else if Ascii.eqb c "[" then
            match strip_prefix "]" (skip_ws r) with
            | Some rest => Some (JArr [], rest)
            | None =>
                match parse_elements (parse_value fuel') fuel' r with
                | Some (vs, rest) => Some (JArr vs, rest)
                | None => None
                end
            end
          else if Ascii.eqb c "{" then
            match strip_prefix "}" (skip_ws r) with
            | Some rest => Some (JObj [], rest)
            | None =>
                match parse_members (parse_value fuel') fuel' r with
                | Some (kvs, rest) => Some (build_object kvs, rest)
                | None => None
                end
            end
          else if starts_number c then
            match parse_number (String c r) with
            | Some (x, rest) => Some (JNum x, rest)
            | None => None
            end
          else None
      end
  end.

(** [JSON.parse(s)] : one value, then nothing but white space. *)
Definition JSON_parse (s : string) : option jsval :=
  match parse_value (S (String.length s)) s with
  | Some (v, rest) => match skip_ws rest with "" => Some v | _ => None end
  | None => None
  end.

(** ** parseMaybeJson and getProgressRoots *)

Definition parseMaybeJson (val : jsval) : jsval :=
  match val with
  | JStr s => match JSON_parse s with Some v => v | None => val end
  | _ => val
  end.

(** [Array.isArray(x) ? x : [x]] *)
Definition as_array (x : jsval) : list jsval :=
  match x with JArr l => l | _ => [x] end.

(** [v && v.k] *)
Definition and_member (v : jsval) (k : string) : result jsval :=
  if truthy v then member v k else Ok v.

(** [v != null] *)
Definition not_null (v : jsval) : bool :=
  match v with JUndefined | JNull => false | _ => true end.

(** Source lines 50-57: [Some roots] when one of the inner returns fires. *)
Definition inner_roots (pj : jsval) : result (option (list jsval)) :=
  if truthy pj then
    wrapper <- member pj "verificationProgress" ;;
    if not_null wrapper then
      let vp := parseMaybeJson wrapper in
      if truthy vp then
        rules <- member vp "rules" ;;
        if truthy rules then Ok (Some (as_array rules))
        else if isArray vp then Ok (Some (as_array vp))
        else
          children <- member vp "children" ;;
          if truthy children then Ok (Some (as_array children)) else Ok None
      else Ok None
    else Ok None
  else Ok None.

Definition getProgressRoots (progressJson : jsval) : result (list jsval) :=
  let roots : list jsval := [] in
  if falsy progressJson then Ok roots else
  let pj := parseMaybeJson progressJson in
  inner <- inner_roots pj ;;
  match inner with
  | Some found => Ok found
  | None =>
      rules <- and_member pj "rules" ;;
      if truthy rules then Ok (as_array rules)
      else if isArray pj then Ok (as_array pj)
      else
        children <- and_member pj "children" ;;
        if truthy children then Ok (as_array children)
        else Ok roots
  end.

(** ** parseJobMetadata *)

Record RulesSummary : Type := {
  passed : Z;
  failed : Z;
  total : Z
}.

Record JobMetadata : Type := {
  jobStatus : jsval;
  proverTime : jsval;
  contractName : jsval;
  specFile : jsval;
  solcVersion : jsval;
  proverVersion : jsval;
  ruleSanity : jsval;
  rulesSummary : option RulesSummary    (* [None] is [null] *)
}.

(** [Object.entries(v)] of an object or an array. *)
Definition Object_entries (v : jsval) : list (string * jsval) :=
  match v with
  | JObj fields => fields
  | JArr l => combine (map (fun i => dec (Z.of_nat i)) (seq 0 (length l))) l
  | _ => []
  end.

(** [Array.isArray(v) ? v.length : 0] *)
Definition array_length (v : jsval) : Z :=
  match v with JArr l => Z.of_nat (length l) | _ => 0%Z end.

(** The body of the loop over a keyed [rules] (source lines 158-164), on the
    counters [(passed, failed)]. *)
Definition count_entry (counts : Z * Z) (entry : string * jsval) : result (Z * Z) :=
  let (passed, failed) := counts in
  let val := snd entry in
  match val with
  | JStr s =>
      if s =? "SUCCESS" then Ok ((passed + 1)%Z, failed)
      else Ok (passed, (failed + 1)%Z)
  | _ =>
      if typeof_object val then
        success <- member val "SUCCESS" ;;
        let successCount := array_length success in
        let failCount :=
          fold_left (fun s kv => (s + array_length (snd kv))%Z)
            (filter (fun kv => negb (String.eqb (fst kv) "SUCCESS"))
               (Object_entries val))
            0%Z in
        if (failCount =? 0)%Z then Ok ((passed + 1)%Z, failed)
        else Ok (passed, (failed + 1)%Z)
      else Ok (passed, failed)
  end.

(** The body of the loop over a [rules] array (source lines 167-170). *)
Definition count_element (counts : Z * Z) (r : jsval) : result (Z * Z) :=
  let (passed, failed) := counts in
  st <- member r "status" ;;
  s <- call_toUpperCase (js_or st (JStr "")) ;;
  if (s =? "VERIFIED") || (s =? "SUCCESS")
  then Ok ((passed + 1)%Z, failed)
  else Ok (passed, (failed + 1)%Z).

Definition parseJobMetadata (data : jsval) : result (option JobMetadata) :=
  if falsy data || negb (typeof_object data) then Ok None else
  let conf := prop data "conf" in
  let ruleSanity :=
    if truthy conf && typeof_object conf
    then nullish (nullish (prop conf "rule_sanity") (prop conf "ruleSanity")) JNull
    else JNull in
  let rules := prop data "rules" in
  rulesSummary <-
    (if truthy rules then
       counts <-
         (if typeof_object rules && negb (isArray rules)
          then for_of count_entry (Object_entries rules) (0%Z, 0%Z)
          else if isArray rules
          then for_of count_element (as_array rules) (0%Z, 0%Z)
          else Ok (0%Z, 0%Z)) ;;
       Ok (Some {| passed := fst counts; failed := snd counts;
                   total := (fst counts + snd counts)%Z |})
     else Ok None) ;;
  Ok (Some {| jobStatus := nullish (prop data "jobStatus") JNull;
              proverTime := nullish (prop data "proverTime") JNull;
              contractName := nullish (prop data "contractName") JNull;
              specFile := nullish (prop data "specFile") JNull;
              solcVersion := nullish (prop data "solcVersion") JNull;
              proverVersion := nullish (prop data "proverVersion") JNull;
              ruleSanity := ruleSanity;
              rulesSummary := rulesSummary |}).

(** ** extractCodexAnswer *)

Definition newline : ascii := ascii_of_nat 10.
Definition nl : string := String newline "".

(** [re.test(s)] for an unanchored [re] : [p] holds of some suffix of [s]. *)
Fixpoint anywhere (p : string -> bool) (s : string) : bool :=
  p s
  || match s with
     | "" => false
     | String _ s' => anywhere p s'
     end.

(** What follows [pat] in [s] when [s] starts with it, letter case aside. *)
Definition strip_prefix_ci (pat s : string) : option string :=
  if starts_with_ci pat s then Some (drop (String.length pat) s) else None.

(** The position after a word character is a word boundary [\b]. *)
Definition word_boundary (s : string) : bool :=
  match s with
  | "" => true
  | String c _ => negb (is_word c)
  end.

(** [/tokens used:/i] *)
Definition tokens_used (l : string) : bool := includes_ci "tokens used:" l.

(** The class [[\d\-T:\.Z]]. *)
Definition is_stamp_char (c : ascii) : bool :=
  is_digit c || Ascii.eqb c "-" || Ascii.eqb c "T" || Ascii.eqb c ":"
  || Ascii.eqb c "." || Ascii.eqb c "Z".

(** [/^\[[\d\-T:\.Z]+\]/] *)
Definition timestamped (l : string) : bool :=
  match l with
  | String c r =>
      if Ascii.eqb c "[" then
        let (stamp, after) := span is_stamp_char r in
        nonempty stamp && starts_with "]" after
      else false
  | "" => false
  end.

(** [/\] (exec|bash -lc|codex|thinking)\b/i] *)
Definition tool_echo (l : string) : bool :=
  anywhere
    (fun s =>
       match strip_prefix "] " s with
       | Some r =>
           existsb (fun w => match strip_prefix_ci w r with
                             | Some after => word_boundary after
                             | None => false
                             end)
             ["exec"; "bash -lc"; "codex"; "thinking"]
       | None => false
       end) l.

(** [/workdir:|model:|provider:|approval:|sandbox:|reasoning/i] *)
Definition config_echo (l : string) : bool :=
  existsb (fun w => includes_ci w l)
    ["workdir:"; "model:"; "provider:"; "approval:"; "sandbox:"; "reasoning"].

Definition isMetaLine (l : string) : bool :=
  timestamped l || tool_echo l || config_echo l || includes_ci "OpenAI Codex" l.

(** [/^(Final answer|Final answer)\s*:/i] *)
Definition final_answer_line (l : string) : bool :=
  match strip_prefix_ci "Final answer" l with
  | Some r => starts_with ":" (trimStart r)
  | None => false
  end.

(** [lines.slice(from, to)] with [0 <= from]. *)
Definition slice (from to : nat) (lines : list string) : list string :=
  firstn (to - from) (skipn from lines).

(** The indices [i >= from] of the lines that satisfy [p], in order. *)
Fixpoint indices_from (p : string -> bool) (from : nat) (lines : list string)
  : list nat :=
  match lines with
  | [] => []
  | l :: rest =>
      if p l then from :: indices_from p (S from) rest
      else indices_from p (S from) rest
  end.

(** The backward scan of source lines 194-197 over the lines before [i]:
    the nearest time-stamped one, or [-1]. *)
Fixpoint stamp_before (lines : list string) (i : nat) : Z :=
  match i with
  | O => (-1)%Z
  | S j => if timestamped (nth j lines "") then Z.of_nat j else stamp_before lines j
  end.

(** The filtered text between the time stamp before marker [t] and [t]. *)
Definition segment (lines : list string) (t : nat) : string :=
  let s := stamp_before lines t in
  let piece := slice (Z.to_nat (s + 1)) t lines in
  trim (join nl (filter (fun l => negb (isMetaLine l)) piece)).

(** The loop of source lines 192-201 over the markers, last one first:
    [Some] answer when a segment is not empty. *)
Fixpoint first_segment (lines : list string) (markers_rev : list nat)
  : option string :=
  match markers_rev with
  | [] => None
  | t :: earlier =>
      let filtered := segment lines t in
      if nonempty filtered then Some filtered else first_segment lines earlier
  end.

(** [lines.findIndex(p)] *)
Fixpoint findIndex (p : string -> bool) (lines : list string) : Z :=
  match lines with
  | [] => (-1)%Z
  | l :: rest =>
      if p l then 0%Z
      else let i := findIndex p rest in
           if (i <? 0)%Z then (-1)%Z else (i + 1)%Z
  end.

(** The backward scan of source lines 208-211, over the lines before [i]. *)
Fixpoint instructions_before (lines : list string) (i : nat) : Z :=
  match i with
  | O => (-1)%Z
  | S j => if includes "User instructions:" (nth j lines "")
           then Z.of_nat j else instructions_before lines j
  end.

Definition extractCodexAnswer (fullOutput : string) : string :=
  let lines := split newline fullOutput in
  let tokenIdxs := indices_from tokens_used 0 lines in
  match first_segment lines (rev tokenIdxs) with
  | Some filtered => filtered
  | None =>
      let finalIdx := findIndex final_answer_line lines in
      if negb (finalIdx =? -1)%Z
      then trim (join nl (skipn (Z.to_nat (finalIdx + 1)) lines))
      else
        let userInstrIdx := instructions_before lines (length lines) in
        let candidate :=
          trim (join nl
                  (filter (fun l => negb (isMetaLine l) && negb (tokens_used l))
                     (if (0 <=? userInstrIdx)%Z
                      then skipn (Z.to_nat (userInstrIdx + 1)) lines
                      else lines))) in
        if nonempty candidate then candidate else fullOutput
  end.

(** ** The walk as a list of visits

    The nodes a walk visits, in the order it visits them, each with the path
    that ends in its name. The definitions below restate the walk; the
    lemmas of the next part tie them to [collectFailedRuleOutputs]. *)

Definition next_path (currentPath : list jsval) (node : jsval) : list jsval :=
  array_concat currentPath (js_or (prop node "name") (JStr "")).

Definition node_status (node : jsval) : result string :=
  call_toUpperCase (js_or (prop node "status") (JStr "")).

(** The path label against [opts.includeRuleMatch]. *)
Definition matches_name (opts : Opts) (path : list jsval) : bool :=
  match rule_match opts with
  | Some m => includes m (toLowerCase (array_join " > " path))
  | None => false
  end.

(** The selection predicate on a status, once status and output are there. *)
Definition selects (opts : Opts) (path : list jsval) (st : string) : bool :=
  matches_name opts path
  || truthy (includeAll opts)
  || (truthy (includeSatisfied opts) && negb (st =? "VERIFIED"))
  || (negb (truthy (includeSatisfied opts))
      && ((st =? "VIOLATED") || (st =? "SANITY_FAILED"))).

Definition file_hit (runInfo : RunInfo) (path : list jsval) (st f : string) : RuleHit :=
  {| ruleName := array_join " > " path; status := st; outputFile := Some f;
     url := Some (hit_url runInfo f); nodeSnapshot := None |}.

Definition json_files (output : list jsval) : list string :=
  flat_map (fun x => match x with
                     | JStr f => if ends_with_ci ".json" f then [f] else []
                     | _ => []
                     end) output.

(** The hits a node adds for itself, [path] being the path to it. *)
Definition own_hits (runInfo : RunInfo) (opts : Opts) (visit : list jsval * jsval)
  : result (list RuleHit) :=
  let (path, node) := visit in
  st <- node_status node ;;
  if nonempty st && (0 <? length (output_of node))%nat && selects opts path st
  then Ok (map (file_hit runInfo path st) (json_files (output_of node)))
  else if truthy (includeSatisfied opts) && nonempty st
          && (length (output_of node) =? 0)%nat && negb (st =? "VERIFIED")
  then
    snap <- take_snapshot node st ;;
    Ok [{| ruleName := array_join " > " path; status := st; outputFile := None;
           url := None; nodeSnapshot := Some snap |}]
  else Ok [].

(** The step of the walk at one visited node. *)
Definition add_own (runInfo : RunInfo) (opts : Opts) (acc : list RuleHit)
  (visit : list jsval * jsval) : result (list RuleHit) :=
  own <- own_hits runInfo opts visit ;; Ok (acc ++ own)%list.

Definition over_children (B : Type) (f : jsval -> list B) (node : jsval) : list B :=
  match node with
  | JObj fields =>
      (fix find (fs : list (string * jsval)) : list B :=
         match fs with
         | [] => []
         | (k, v) :: rest =>
             if String.eqb k "children"
             then match v with
                  | JArr l => flat_map f l
                  | _ => []
                  end
             else find rest
         end) fields
  | _ => []
  end.

Fixpoint preorder (currentPath : list jsval) (node : jsval) {struct node}
  : list (list jsval * jsval) :=
  if falsy node then []
  else (next_path currentPath node, node)
       :: over_children (preorder (next_path currentPath node)) node.

(** ** JSON documents

    The values that [JSON.parse] produces: no [undefined] inside, the keys
    of every object distinct, and every number one that its text is read
    back as (which leaves out the infinities, NaN and the negative zero). *)

Fixpoint distinct_keys (fields : list (string * jsval)) : bool :=
  match fields with
  | [] => true
  | (k, _) :: rest =>
      match lookup k rest with
      | Some _ => false
      | None => distinct_keys rest
      end
  end.

Fixpoint is_json (v : jsval) : bool :=
  match v with
  | JUndefined => false
  | JNull | JBool _ | JStr _ => true
  | JNum x => number_reads_back x
  | JArr l => forallb is_json l
  | JObj fields =>
      forallb (fun kv : string * jsval => let (_, x) := kv in is_json x) fields
      && distinct_keys fields
  end.

(** The number of values in a value. *)
Fixpoint size (v : jsval) : nat :=
  match v with
  | JArr l => S (list_sum (map size l))
  | JObj fields =>
      S (list_sum (map (fun kv : string * jsval => let (_, x) := kv in size x) fields))
  | _ => 1
  end.

(** ** Definitions used to state the properties *)


Definition picked (fields : list (string * jsval)) (names : list string)
  : list (string * jsval) :=
  flat_map (fun f => match lookup f fields with
                     | Some v => [(f, v)]
                     | None => []
                     end) names.





Definition sample_run : RunInfo :=
  {| origin := "https://prover.certora.com"; runId := Some "111";
     outputId := Some "aaa"; anonymousKey := "key1" |}.

(** The URL of the evidence file [f] with key and file name written as they
    are, as the specification words it. *)
Definition verbatim_url (runInfo : RunInfo) (f : string) : string :=
  buildResultBaseUrl runInfo ++ "?"
  ++ (if nonempty (anonymousKey runInfo)
      then "anonymousKey=" ++ anonymousKey runInfo ++ "&" else "")
  ++ "output=" ++ f.

(** The same with key and file name in form-urlencoded spelling. *)
Definition encoded_url (runInfo : RunInfo) (f : string) : string :=
  buildResultBaseUrl runInfo ++ "?"
  ++ (if nonempty (anonymousKey runInfo)
      then "anonymousKey=" ++ form_encode (anonymousKey runInfo) ++ "&" else "")
  ++ "output=" ++ form_encode f.

Definition violated_leaf : jsval :=
  JObj [("name", JStr "r"); ("status", JStr "VIOLATED");
        ("output", JArr [JStr "treeView/out.json"]); ("children", JArr [])].

Definition keyless_run : RunInfo :=
  {| origin := "https://prover.certora.com"; runId := Some "111";
     outputId := Some "aaa"; anonymousKey := "" |}.


Definition all_opts : Opts :=
  {| includeSatisfied := JUndefined; includeAll := JBool true;
     includeRuleMatch := JUndefined |}.

Definition match_opts (m : string) : Opts :=
  {| includeSatisfied := JUndefined; includeAll := JUndefined;
     includeRuleMatch := JStr m |}.








(** The sum of the lengths of the arrays under every key but [SUCCESS]. *)
Fixpoint fail_count (fields : list (string * jsval)) : Z :=
  match fields with
  | [] => 0
  | (k, v) :: rest =>
      ((if String.eqb k "SUCCESS" then 0 else array_length v) + fail_count rest)%Z
  end.

(** Passing, as the specification words it for an entry of a keyed [rules]. *)
Definition rule_passes (val : jsval) : bool :=
  match val with
  | JStr s => String.eqb s "SUCCESS"
  | JObj fields => (fail_count fields =? 0)%Z
  | _ => false
  end.

Definition string_or_object (val : jsval) : Prop :=
  match val with
  | JStr _ | JObj _ => True
  | _ => False
  end.

Definition count_if (A : Type) (p : A -> bool) (l : list A) : Z :=
  Z.of_nat (length (filter p l)).

Definition sample_rules : jsval :=
  JObj [("a", JStr "SUCCESS");
        ("b", JObj [("SUCCESS", JArr [JNum (of_Z 1)]);
              ("VIOLATED", JArr [JNum (of_Z 2); JNum (of_Z 3)])]);
        ("c", JStr "VIOLATED")].

(** Documents whose [verificationProgress] has none of the inner shapes: the
    text of an object with a fraction in it, an object, and the number 0. *)
Definition wrapped_doc : jsval :=
  JObj [("verificationProgress", JStr ("{" ++ quote "progress" ++ ":1.5}"));
        ("rules", JArr [JObj [("name", JStr "r1"); ("status", JStr "VIOLATED")]])].

Definition wrapped_children_doc : jsval :=
  JObj [("verificationProgress", JObj [("note", JStr "no rules here")]);
        ("children", JStr "only child")].

Definition wrapped_empty_doc : jsval :=
  JObj [("verificationProgress", JNum (of_Z 0)); ("rules", JStr "")].

Definition reads_back (pv : string -> option (jsval * string)) (x : jsval) : Prop :=
  forall rest, number_end rest = true -> pv (stringify x ++ rest) = Some (x, rest).

Definition member_text (kv : string * jsval) : string :=
  quote (fst kv) ++ ":" ++ stringify (snd kv).

(** The doubles 1.5, 0.1, 1e21, -2.5e-7, 2^53, 0 and -7, and the text of the
    array that holds them. *)
Definition sample_numbers : list jsval :=
  [JNum (S754_finite false 6755399441055744 (-52));
   JNum (S754_finite false 7205759403792794 (-56));
   JNum (S754_finite false 7629394531250000 17);
   JNum (S754_finite true 4722366482869645 (-74));
   JNum (S754_finite false 4503599627370496 1);
   JNum (S754_zero false);
   JNum (S754_finite true 7881299347898368 (-50))].

Definition numbers_text : string :=
  "[1.5,0.1,1e+21,-2.5e-7,9007199254740992,0,-7]".

(** A progress document with a duration of 1.5 in it. *)
Definition timed_progress : jsval :=
  JObj [("rules",
         JArr [JObj [("name", JStr "r1"); ("status", JStr "VIOLATED");
                     ("duration", JNum (S754_finite false 6755399441055744 (-52)));
                     ("output", JArr [JStr "treeView/rule_1.json"])]])].

Definition encoded_progress : jsval :=
  JObj [("verificationProgress",
         JStr (stringify (JObj [("rules",
                 JArr [JObj [("name", JStr "r1"); ("status", JStr "VIOLATED");
                             ("output", JArr [JStr "treeView/rule_1.json"]);
                             ("children", JArr [])]])])))].

Definition run_url (h r o k : string) : string :=
  "https://" ++ h ++ "/output/" ++ r ++ "/" ++ o ++ "?anonymousKey=" ++ k.

Fixpoint slashes (n : nat) : string :=
  match n with
  | O => ""
  | S n' => String "/" (slashes n')
  end.


Definition query_text (q : option string) : string :=
  match q with Some query => "?" ++ query | None => "" end.

Definition query_of (q : option string) : string :=
  match q with Some query => query | None => "" end.

(** Some line of the text is a marker of one of the four kinds. *)
Definition has_marker (text : string) : bool :=
  existsb (fun l => tokens_used l || final_answer_line l
                    || includes "User instructions:" l || isMetaLine l)
    (split newline text).

Definition plain_answer : string := "Just plain text with no markers.".

(** The indices of the tokens-used lines of a transcript. *)
Definition markers (lines : list string) : list nat :=
  indices_from tokens_used 0 lines.

Definition two_blocks : string :=
  join nl ["[2025-01-01T00:00:00Z] exec codex";
           "first attempt answer";
           "100 tokens used: ...";
           "[2025-01-01T00:00:01Z] exec codex";
           "second attempt: this is correct";
           "200 tokens used: ..."].

Definition run_on_blocks : string :=
  join nl ["[2025-01-01T00:00:00Z] exec codex";
           "first attempt answer";
           "100 tokens used: ...";
           "second attempt: this is correct";
           "200 tokens used: ..."].

Definition null_rule_doc : jsval :=
  JObj [("jobStatus", JStr "COMPLETED"); ("rules", JObj [("rule_a", JNull)])].

(** ** Definitions used to state further properties *)

(** The policy as the walk reads it: the two flags as booleans and the
    trimmed, lower-cased pattern. *)
Definition policy_of (opts : Opts) : bool * bool * option string :=
  (truthy (includeSatisfied opts), truthy (includeAll opts), rule_match opts).

(** A visited node whose status is neither falsy nor a string. *)
Definition bad_status (visit : list jsval * jsval) : Prop :=
  truthy (prop (snd visit) "status") = true
  /\ is_string (prop (snd visit) "status") = false.


Definition group_node : jsval :=
  JObj [("name", JStr "Vault"); ("status", JStr "VERIFIED");
        ("output", JArr [JStr "treeView/group.json"]);
        ("children", JArr [violated_leaf])].


(** The hit of [violated_leaf] under [group_node], and that of [group_node]. *)
Definition leaf_hit : RuleHit :=
  file_hit sample_run [JStr "Vault"; JStr "r"] "VIOLATED" "treeView/out.json".

Definition group_hit : RuleHit :=
  file_hit sample_run [JStr "Vault"] "VERIFIED" "treeView/group.json".

(** [opts'] asks for at least what [opts] asks for: every flag set in [opts]
    is set in [opts'], and a name pattern of [opts] is that of [opts']. *)
Definition widens (opts opts' : Opts) : Prop :=
  (truthy (includeSatisfied opts) = true -> truthy (includeSatisfied opts') = true)
  /\ (truthy (includeAll opts) = true -> truthy (includeAll opts') = true)
  /\ (rule_match opts = None \/ rule_match opts = rule_match opts').

(** The upper-cased status of an element of a [rules] array. *)
Definition element_status (r : jsval) : string :=
  match js_or (prop r "status") (JStr "") with
  | JStr s => toUpperCase s
  | _ => ""
  end.

Definition element_passes (r : jsval) : bool :=
  (element_status r =? "VERIFIED") || (element_status r =? "SUCCESS").

(** An element the loop over a [rules] array can read: not [null] or
    [undefined], its status a string or falsy. *)
Definition readable_element (r : jsval) : bool :=
  not_null r && (is_string (prop r "status") || negb (truthy (prop r "status"))).

Definition is_null (v : jsval) : bool :=
  match v with JNull => true | _ => false end.

(** The number of rules a [rules] value holds: the entries of a keyed object,
    the elements of an array, none for any other value. *)
Definition rule_count (rules : jsval) : Z :=
  match rules with
  | JObj entries => Z.of_nat (length entries)
  | JArr l => Z.of_nat (length l)
  | _ => 0%Z
  end.

(** The address of a run on host [h] with run [r], output [o] and key [k]. *)
Definition run_at (h r o k : string) : RunInfo :=
  {| origin := "https://" ++ h; runId := Some r; outputId := Some o;
     anonymousKey := k |}.



Definition configuration_only : string :=
  join nl ["model: gpt-5"; "[2025-01-01T00:00:00Z] exec codex"].


(** * Properties *)

(** ** The result monad *)

Lemma for_of_app (A B : Type) (step : B -> A -> result B) (l1 l2 : list A) (acc : B) :
  for_of step (l1 ++ l2) acc = (acc' <- for_of step l1 acc ;; for_of step l2 acc').
Proof.
  revert acc; induction l1 as [|x l1 IH]; intros acc; simpl.
  - reflexivity.
  - destruct (step acc x) as [acc'|e]; simpl; [apply IH | reflexivity].
Qed.

Lemma bind_assoc (A B C : Type) (m : result A) (f : A -> result B) (g : B -> result C) :
  (y <- (x <- m ;; f x) ;; g y) = (x <- m ;; y <- f x ;; g y).
Proof. destruct m; reflexivity. Qed.

Lemma bind_ext (A B : Type) (m : result A) (f g : A -> result B) :
  (forall a, f a = g a) -> (x <- m ;; f x) = (x <- m ;; g x).
Proof. intros H; destruct m; simpl; auto. Qed.

Lemma for_of_ext (A B : Type) (f g : B -> A -> result B) (l : list A) :
  Forall (fun x => forall acc, f acc x = g acc x) l ->
  forall acc, for_of f l acc = for_of g l acc.
Proof.
  induction 1 as [|x l Hx _ IH]; intros acc; simpl.
  - reflexivity.
  - rewrite Hx. apply bind_ext, IH.
Qed.

(** ** Text *)

Lemma sapp_assoc (a b c : string) : (a ++ b) ++ c = a ++ b ++ c.
Proof. induction a as [|x a IH]; simpl; [reflexivity | now rewrite IH]. Qed.

Lemma sapp_nil_r (a : string) : a ++ "" = a.
Proof. induction a as [|x a IH]; simpl; [reflexivity | now rewrite IH]. Qed.

Lemma sapp_length (a b : string) :
  String.length (a ++ b) = String.length a + String.length b.
Proof. induction a as [|x a IH]; simpl; [reflexivity | now rewrite IH]. Qed.

(** ** The walk *)

Lemma for_children_eq (B : Type) (step : B -> jsval -> result B) node acc :
  for_children step node acc = for_of step (children_of node) acc.
Proof.
  destruct node as [| | | | | |fields]; try reflexivity.
  unfold children_of, prop; simpl.
  induction fields as [|[k v] rest IH]; simpl.
  - reflexivity.
  - destruct (String.eqb k "children").
    + destruct v; reflexivity.
    + exact IH.
Qed.

Lemma over_children_eq (B : Type) (f : jsval -> list B) node :
  over_children f node = flat_map f (children_of node).
Proof.
  destruct node as [| | | | | |fields]; try reflexivity.
  unfold children_of, prop; simpl.
  induction fields as [|[k v] rest IH]; simpl.
  - reflexivity.
  - destruct (String.eqb k "children").
    + destruct v; reflexivity.
    + exact IH.
Qed.

Lemma push_outputs_eq runInfo path st output results :
  push_outputs runInfo (array_join " > " path) st output results
  = (results ++ map (file_hit runInfo path st) (json_files output))%list.
Proof.
  unfold push_outputs. revert results.
  induction output as [|x output IH]; intros results; simpl.
  - now rewrite app_nil_r.
  - rewrite IH. destruct x; try reflexivity.
    destruct (ends_with_ci ".json" s); simpl.
    + now rewrite <- app_assoc.
    + reflexivity.
Qed.

Lemma collect_body node runInfo results currentPath opts :
  collectFailedRuleOutputs node runInfo results currentPath opts
  = if falsy node then Ok results
    else
      let path := next_path currentPath node in
      st <- node_status node ;;
      results' <-
        (if nonempty st && (0 <? length (output_of node))%nat && selects opts path st
         then Ok (push_outputs runInfo (array_join " > " path) st (output_of node) results)
         else if truthy (includeSatisfied opts) && nonempty st
                 && (length (output_of node) =? 0)%nat && negb (st =? "VERIFIED")
         then
           snap <- take_snapshot node st ;;
           Ok (results ++ [{| ruleName := array_join " > " path; status := st;
                              outputFile := None; url := None;
                              nodeSnapshot := Some snap |}])%list
         else Ok results) ;;
      for_children
        (fun acc child => collectFailedRuleOutputs child runInfo acc path opts)
        node results'.
Proof. destruct node; reflexivity. Qed.

Lemma collect_unfold node runInfo results currentPath opts :
  collectFailedRuleOutputs node runInfo results currentPath opts
  = if falsy node then Ok results
    else
      results' <- add_own runInfo opts results (next_path currentPath node, node) ;;
      for_of (fun acc child =>
                collectFailedRuleOutputs child runInfo acc
                  (next_path currentPath node) opts)
        (children_of node) results'.
Proof.
  rewrite collect_body. destruct (falsy node); [reflexivity|].
  cbv zeta. unfold add_own, own_hits.
  destruct (node_status node) as [st|e]; simpl; [|reflexivity].
  destruct (nonempty st && (0 <? length (output_of node))%nat
            && selects opts (next_path currentPath node) st).
  - simpl. rewrite push_outputs_eq. apply for_children_eq.
  - destruct (truthy (includeSatisfied opts) && nonempty st
              && (length (output_of node) =? 0)%nat && negb (st =? "VERIFIED")).
    + destruct (take_snapshot node st); simpl; [apply for_children_eq | reflexivity].
    + simpl. rewrite app_nil_r. apply for_children_eq.
Qed.

(** Induction along the tree: a property holds of every node as soon as it
    passes from the children of a node to the node. *)
Lemma children_ind (P : jsval -> Prop) :
  (forall node, Forall P (children_of node) -> P node) ->
  forall node, P node.
Proof.
  intros step node.
  enough (H : P node /\ (forall l, node = JArr l -> Forall P l)) by apply H.
  induction node as [| | | | |l IH|fields IH] using jsval_ind;
    (split; [apply step|]); try (now constructor); try discriminate.
  - intros l' [= <-]. revert IH. apply Forall_impl. now intros x [Hx _].
  - unfold children_of, prop.
    induction IH as [|[k v] rest [_ Hv] _ IHrest]; simpl.
    + constructor.
    + destruct (String.eqb k "children").
      * destruct v; try constructor. now apply Hv.
      * exact IHrest.
Qed.

Lemma preorder_unfold currentPath node :
  preorder currentPath node
  = if falsy node then []
    else (next_path currentPath node, node)
         :: flat_map (preorder (next_path currentPath node)) (children_of node).
Proof.
  rewrite <- over_children_eq. destruct node; reflexivity.
Qed.

Lemma collect_flat node : forall runInfo results currentPath opts,
  collectFailedRuleOutputs node runInfo results currentPath opts
  = for_of (add_own runInfo opts) (preorder currentPath node) results.
Proof.
  induction node as [node IH] using children_ind.
  intros runInfo results currentPath opts.
  rewrite collect_unfold, preorder_unfold.
  destruct (falsy node); [reflexivity|].
  simpl for_of. apply bind_ext. intros acc.
  generalize (next_path currentPath node) as path. intros path.
  revert acc. induction IH as [|child kids Hchild _ IHkids]; intros acc; simpl.
  - reflexivity.
  - rewrite for_of_app, Hchild. apply bind_ext, IHkids.
Qed.

(** ** The snapshot of a node without evidence files *)

Lemma lookup_app k (a b : list (string * jsval)) :
  lookup k (a ++ b) = match lookup k a with Some v => Some v | None => lookup k b end.
Proof.
  induction a as [|[k' v] a IH]; simpl; [reflexivity|].
  destruct (String.eqb k' k); [reflexivity | exact IH].
Qed.

Lemma obj_set_fresh k v fields :
  lookup k fields = None -> obj_set k v fields = (fields ++ [(k, v)])%list.
Proof.
  induction fields as [|[k' v'] rest IH]; simpl; [reflexivity|].
  destruct (String.eqb k' k); [discriminate|]. intros H. now rewrite IH.
Qed.


Lemma snapshot_loop fields names : forall snap,
  NoDup names ->
  (forall f, In f names -> lookup f snap = None) ->
  for_of (fun snap field =>
            present <- has_prop field (JObj fields) ;;
            Ok (if present then obj_set field (prop (JObj fields) field) snap else snap))
    names snap
  = Ok (snap ++ picked fields names)%list.
Proof.
  induction names as [|f names IH]; intros snap Hnd Hfresh; simpl.
  - now rewrite app_nil_r.
  - inversion Hnd as [|? ? Hnotin Hnd']; subst.
    unfold picked; simpl.
    destruct (lookup f fields) as [v|] eqn:Hf; simpl.
    + rewrite obj_set_fresh by (apply Hfresh; now left).
      rewrite IH; trivial.
      * now rewrite <- app_assoc.
      * intros g Hg. rewrite lookup_app, Hfresh by now right.
        simpl. destruct (String.eqb_spec f g); [now subst | reflexivity].
    + apply IH; trivial. intros g Hg. apply Hfresh. now right.
Qed.

Lemma snapshotFields_nodup : NoDup snapshotFields.
Proof.
  unfold snapshotFields.
  repeat (constructor; [simpl; intuition discriminate|]). constructor.
Qed.

Lemma take_snapshot_obj fields st :
  take_snapshot (JObj fields) st
  = Ok (("name", prop (JObj fields) "name") :: ("status", JStr st)
        :: picked fields snapshotFields).
Proof.
  unfold take_snapshot. rewrite snapshot_loop.
  - reflexivity.
  - apply snapshotFields_nodup.
  - intros f Hf. simpl in Hf.
    repeat (destruct Hf as [<-|Hf]; [reflexivity|]). contradiction.
Qed.

Lemma node_status_object node st :
  node_status node = Ok st -> st <> "" -> exists fields, node = JObj fields.
Proof.
  unfold node_status.
  destruct node; try (intros; eexists; reflexivity);
    simpl; intros [= <-] H; now contradiction H.
Qed.



(** ** The URL of a hit *)

Lemma form_encode_safe s : sall form_safe s = true -> form_encode s = s.
Proof.
  induction s as [|c s IH]; simpl; [reflexivity|].
  intros H. apply andb_prop in H as [Hc Hs].
  unfold form_encode_char. rewrite Hc. simpl. now rewrite IH.
Qed.

Lemma hit_url_encoded runInfo f : hit_url runInfo f = encoded_url runInfo f.
Proof.
  unfold hit_url, encoded_url, buildResultBaseUrl, params_toString.
  destruct (nonempty (anonymousKey runInfo)); cbn [app map join fst snd];
    change (form_encode "output") with "output";
    change (form_encode "anonymousKey") with "anonymousKey";
    cbn [String.append nonempty]; rewrite ?sapp_assoc; reflexivity.
Qed.

Lemma Forall2_In_r (A B : Type) (R : A -> B -> Prop) l1 l2 y :
  Forall2 R l1 l2 -> In y l2 -> exists x, In x l1 /\ R x y.
Proof.
  induction 1 as [|a b l1 l2 Hab _ IH]; simpl; [contradiction|].
  intros [<-|Hy].
  - exists a. auto.
  - destruct (IH Hy) as (x & Hx & Hr). exists x. auto.
Qed.

Lemma walk_hits runInfo opts visits : forall results hits,
  for_of (add_own runInfo opts) visits results = Ok hits <->
  exists owns,
    Forall2 (fun v own => own_hits runInfo opts v = Ok own) visits owns
    /\ hits = (results ++ concat owns)%list.
Proof.
  induction visits as [|v visits IH]; intros results hits; simpl.
  - split.
    + intros [= <-]. exists []. split; [constructor | now rewrite app_nil_r].
    + intros (owns & H & ->). inversion H. simpl. now rewrite app_nil_r.
  - unfold add_own at 1. split.
    + destruct (own_hits runInfo opts v) as [own|e] eqn:Hv; simpl; [|discriminate].
      intros H. apply IH in H as (owns & Hall & ->).
      exists (own :: owns). split; [now constructor|].
      simpl. now rewrite app_assoc.
    + intros (owns & H & ->). inversion H as [|? own ? owns' Hv Hall]; subst.
      rewrite Hv. simpl. apply IH. exists owns'. split; [assumption|].
      simpl. now rewrite app_assoc.
Qed.

Lemma own_hits_urls runInfo opts visit own :
  own_hits runInfo opts visit = Ok own ->
  Forall (fun h => forall u, url h = Some u ->
                   exists f, outputFile h = Some f /\ u = encoded_url runInfo f) own.
Proof.
  unfold own_hits. destruct visit as [path node].
  destruct (node_status node) as [st|e]; simpl; [|discriminate].
  destruct (nonempty st && (0 <? length (output_of node))%nat && selects opts path st).
  - intros [= <-]. apply Forall_forall. intros h Hh.
    apply in_map_iff in Hh as (f & <- & _). simpl.
    intros u [= <-]. exists f. split; [reflexivity | apply hit_url_encoded].
  - destruct (truthy (includeSatisfied opts) && nonempty st
              && (length (output_of node) =? 0)%nat && negb (st =? "VERIFIED")).
    + destruct (take_snapshot node st); simpl; [|discriminate].
      intros [= <-]. constructor; [|constructor]. simpl. discriminate.
    + intros [= <-]. constructor.
Qed.

(** C3 (amended). Every non-null [url] of a hit that a walk adds has the form
    [{origin}/result/{runId}/{outputId}?[anonymousKey=<key>&]output=<file>]
    where the key and the file name are written in form-urlencoded spelling
    (letters, digits and [*-._] as they are, a space as [+], any other byte
    as [%XX]); the [anonymousKey] parameter is left out exactly when the key
    is empty and comes before [output] otherwise. When the key and the file
    name consist of letters, digits and [*-._] only, both are written as they
    are. *)
Theorem hit_url_is_form_encoded :
  forall node runInfo results currentPath opts hits,
    collectFailedRuleOutputs node runInfo results currentPath opts = Ok hits ->
    exists added,
      hits = (results ++ added)%list
      /\ forall h u,
           In h added -> url h = Some u ->
           exists f,
             outputFile h = Some f
             /\ u = buildResultBaseUrl runInfo ++ "?"
                    ++ (if nonempty (anonymousKey runInfo)
                        then "anonymousKey=" ++ form_encode (anonymousKey runInfo) ++ "&"
                        else "")
                    ++ "output=" ++ form_encode f
             /\ (sall form_safe (anonymousKey runInfo) = true ->
                 sall form_safe f = true ->
                 u = verbatim_url runInfo f).
Proof.
  intros node runInfo results currentPath opts hits H.
  rewrite collect_flat in H. apply walk_hits in H as (owns & Hall & ->).
  exists (concat owns). split; [reflexivity|].
  intros h u Hh Hu. apply in_concat in Hh as (own & Hown & Hh).
  destruct (@Forall2_In_r _ _ _ _ _ _ Hall Hown) as (v & _ & Hv).
  eapply own_hits_urls, Forall_forall in Hv; [|exact Hh].
  destruct (Hv u Hu) as (f & Hf & ->). exists f.
  split; [exact Hf|]. split; [reflexivity|].
  intros Hkey Hfile. unfold encoded_url, verbatim_url.
  now rewrite (form_encode_safe _ Hkey), (form_encode_safe _ Hfile).
Qed.

Lemma hit_url_is_form_encoded_witness :
  collectFailedRuleOutputs violated_leaf sample_run [] [] no_opts
  = Ok [file_hit sample_run [JStr "r"] "VIOLATED" "treeView/out.json"]
  /\ exists added,
       [file_hit sample_run [JStr "r"] "VIOLATED" "treeView/out.json"]
       = ([] ++ added)%list
       /\ forall h u,
            In h added -> url h = Some u ->
            exists f,
              outputFile h = Some f
              /\ u = buildResultBaseUrl sample_run ++ "?"
                     ++ (if nonempty (anonymousKey sample_run)
                         then "anonymousKey=" ++ form_encode (anonymousKey sample_run) ++ "&"
                         else "")
                     ++ "output=" ++ form_encode f
              /\ (sall form_safe (anonymousKey sample_run) = true ->
                  sall form_safe f = true ->
                  u = verbatim_url sample_run f).
Proof.
  split; [reflexivity|].
  apply (@hit_url_is_form_encoded violated_leaf sample_run [] [] no_opts).
  reflexivity.
Defined.

(** C3 as stated fails: the file name [treeView/out.json] of a VIOLATED node
    is not written as it is in the URL of its hit, its slash is escaped. *)
Lemma hit_url_not_verbatim :
  exists h,
    collectFailedRuleOutputs violated_leaf keyless_run [] [] no_opts = Ok [h]
    /\ outputFile h = Some "treeView/out.json"
    /\ url h = Some "https://prover.certora.com/result/111/aaa?output=treeView%2Fout.json"
    /\ url h <> Some (verbatim_url keyless_run "treeView/out.json").
Proof.
  eexists. split; [reflexivity|]. split; [reflexivity|]. split; [reflexivity|].
  vm_compute. discriminate.
Qed.

(** ** Counting the hits of a small tree *)








Section FourNodes.
Variable runInfo : RunInfo.
Variables pv ps po pe : list jsval * jsval.
Variable rest : list (list jsval * jsval).
Variables fv fs fo ste : string.

Hypothesis rest_bare : Forall (fun v => truthy (prop (snd v) "status") = false) rest.
Hypothesis v_status : node_status (snd pv) = Ok "VIOLATED".
Hypothesis v_output : output_of (snd pv) = [JStr fv].
Hypothesis v_json : ends_with_ci ".json" fv = true.
Hypothesis s_status : node_status (snd ps) = Ok "SANITY_FAILED".
Hypothesis s_output : output_of (snd ps) = [JStr fs].
Hypothesis s_json : ends_with_ci ".json" fs = true.
Hypothesis o_status : node_status (snd po) = Ok "VERIFIED".
Hypothesis o_output : output_of (snd po) = [JStr fo].
Hypothesis o_json : ends_with_ci ".json" fo = true.
Hypothesis e_status : node_status (snd pe) = Ok ste.
Hypothesis e_output : output_of (snd pe) = [].

End FourNodes.



(** ** Counting rules in the job metadata *)

Lemma fail_count_fold fields : forall a,
  fold_left (fun s kv => (s + array_length (snd kv))%Z)
    (filter (fun kv => negb (String.eqb (fst kv) "SUCCESS")) fields) a
  = (a + fail_count fields)%Z.
Proof.
  induction fields as [|[k v] rest IH]; intros a; simpl.
  - lia.
  - destruct (String.eqb k "SUCCESS"); simpl; rewrite IH; lia.
Qed.

Lemma count_entry_spec p f k val :
  string_or_object val ->
  count_entry (p, f) (k, val)
  = Ok (if rule_passes val then ((p + 1)%Z, f) else (p, (f + 1)%Z)).
Proof.
  destruct val; simpl; try contradiction; intros _.
  - destruct (String.eqb s "SUCCESS"); reflexivity.
  - rewrite fail_count_fold. simpl.
    destruct (fail_count fields =? 0)%Z; reflexivity.
Qed.

Lemma count_entries_spec entries : forall p f,
  Forall (fun kv => string_or_object (snd kv)) entries ->
  for_of count_entry entries (p, f)
  = Ok ((p + count_if (fun kv => rule_passes (snd kv)) entries)%Z,
        (f + count_if (fun kv => negb (rule_passes (snd kv))) entries)%Z).
Proof.
  unfold count_if.
  induction entries as [|[k val] rest IH]; intros p f H.
  - simpl. now rewrite !Z.add_0_r.
  - inversion H as [|? ? Hval Hrest]; subst. cbn [for_of].
    rewrite count_entry_spec by exact Hval. cbn [bind filter snd].
    destruct (rule_passes val); cbn [negb length]; rewrite IH by exact Hrest;
      do 2 f_equal; lia.
Qed.

Lemma count_if_split (A : Type) (p : A -> bool) (l : list A) :
  (count_if p l + count_if (fun x => negb (p x)) l)%Z = Z.of_nat (length l).
Proof.
  unfold count_if. induction l as [|x l IH]; [reflexivity|].
  cbn [filter]. destruct (p x); cbn [negb length]; lia.
Qed.

(** C4. Over a keyed [rules] whose entries are strings or objects, the
    summary counts as passed the string entries equal to [SUCCESS] and the
    object entries whose arrays under keys other than [SUCCESS] have lengths
    summing to 0, and as failed all the others; an object entry without any
    array passes; the sample mapping gives 1 passed, 2 failed, 3 in total. *)
Theorem rules_summary_of_keyed_rules :
  (forall data entries,
      prop data "rules" = JObj entries ->
      Forall (fun kv => string_or_object (snd kv)) entries ->
      exists meta,
        parseJobMetadata data = Ok (Some meta)
        /\ rulesSummary meta
           = Some {| passed := count_if (fun kv => rule_passes (snd kv)) entries;
                     failed := count_if (fun kv => negb (rule_passes (snd kv))) entries;
                     total := Z.of_nat (length entries) |})
  /\ (forall s, rule_passes (JStr s) = true <-> s = "SUCCESS")
  /\ (forall fields, rule_passes (JObj fields) = true <-> fail_count fields = 0%Z)
  /\ (forall fields,
         Forall (fun kv => isArray (snd kv) = false) fields ->
         rule_passes (JObj fields) = true)
  /\ (exists meta,
         parseJobMetadata (JObj [("rules", sample_rules)]) = Ok (Some meta)
         /\ rulesSummary meta = Some {| passed := 1; failed := 2; total := 3 |}).
Proof.
  split; [|split; [|split; [|split]]].
  - intros data entries Hrules Hentries.
    destruct data as [| | | | | |fields]; try discriminate.
    unfold parseJobMetadata. rewrite Hrules.
    cbn [falsy truthy typeof_object negb orb andb isArray Object_entries].
    rewrite count_entries_spec by exact Hentries. cbn [bind fst snd].
    eexists. split; [reflexivity|]. cbn [rulesSummary].
    rewrite !Z.add_0_l, count_if_split. reflexivity.
  - intros s. simpl. apply String.eqb_eq.
  - intros fields. simpl. apply Z.eqb_eq.
  - intros fields H. simpl. apply Z.eqb_eq.
    induction H as [|[k v] rest Hv _ IH]; simpl; [reflexivity|].
    rewrite IH. destruct (String.eqb k "SUCCESS"); [reflexivity|].
    simpl in Hv. destruct v; try reflexivity; discriminate.
  - eexists. split; reflexivity.
Qed.

Lemma rules_summary_of_keyed_rules_witness :
  exists meta,
    parseJobMetadata (JObj [("jobStatus", JStr "COMPLETED"); ("rules", sample_rules)])
    = Ok (Some meta)
    /\ rulesSummary meta
       = Some {| passed := count_if (fun kv => rule_passes (snd kv))
                             (Object_entries sample_rules);
                 failed := count_if (fun kv => negb (rule_passes (snd kv)))
                             (Object_entries sample_rules);
                 total := Z.of_nat (length (Object_entries sample_rules)) |}.
Proof.
  apply (proj1 rules_summary_of_keyed_rules); [reflexivity | repeat constructor].
Defined.

(** ** The roots of a progress document *)

(** C10. When the document has a [verificationProgress] field whose parsed
    value is falsy or has no [rules], is no array and has no [children],
    [getProgressRoots] goes on to the document itself: it returns the
    document's [rules] when there is one, else its [children] when there is
    one, and only then the empty list. (A document with a
    [verificationProgress] field is an object, so the array test in between
    cannot succeed.) *)
Theorem roots_fall_through_to_document :
  forall doc,
    let pj := parseMaybeJson doc in
    let vp := parseMaybeJson (prop pj "verificationProgress") in
    truthy doc = true ->
    not_null (prop pj "verificationProgress") = true ->
    truthy vp = false
    \/ (truthy (prop vp "rules") = false /\ isArray vp = false
        /\ truthy (prop vp "children") = false) ->
    isArray pj = false
    /\ (truthy (prop pj "rules") = true ->
        getProgressRoots doc
        = Ok match prop pj "rules" with JArr rules => rules | rule => [rule] end)
    /\ (truthy (prop pj "rules") = false -> truthy (prop pj "children") = true ->
        getProgressRoots doc
        = Ok match prop pj "children" with
             | JArr children => children
             | child => [child]
             end)
    /\ (truthy (prop pj "rules") = false -> truthy (prop pj "children") = false ->
        getProgressRoots doc = Ok []).
Proof.
  intros doc pj vp Hdoc Hwrap Hnone.
  assert (Hobj : exists fields, pj = JObj fields).
  { destruct pj; try discriminate Hwrap. eauto. }
  destruct Hobj as [fields Hpj].
  assert (Hinner : inner_roots pj = Ok None).
  { unfold inner_roots. rewrite Hpj. cbn [truthy member bind].
    rewrite <- Hpj. rewrite Hwrap. fold vp.
    destruct Hnone as [Hvp | (Hr & Ha & Hc)].
    - now rewrite Hvp.
    - destruct (truthy vp) eqn:Hvp; [|reflexivity].
      assert (Hm : forall k, member vp k = Ok (prop vp k)).
      { intros k. destruct vp; try discriminate Hvp; reflexivity. }
      rewrite !Hm. cbn [bind]. now rewrite Hr, Ha, Hc. }
  assert (Hroots : getProgressRoots doc
                   = if truthy (prop pj "rules") then Ok (as_array (prop pj "rules"))
                     else if truthy (prop pj "children")
                          then Ok (as_array (prop pj "children")) else Ok []).
  { unfold getProgressRoots, falsy. rewrite Hdoc. cbn [negb]. fold pj.
    rewrite Hinner. cbn [bind]. unfold and_member. rewrite Hpj.
    cbn [truthy member bind isArray].
    destruct (truthy (prop (JObj fields) "rules")); [reflexivity|].
    destruct (truthy (prop (JObj fields) "children")); reflexivity. }
  rewrite Hroots. split; [now rewrite Hpj|].
  split; [intros ->; now destruct (prop pj "rules")|].
  split; intros -> ->; [now destruct (prop pj "children") | reflexivity].
Qed.

Lemma roots_fall_through_to_document_witness :
  getProgressRoots wrapped_doc = Ok [JObj [("name", JStr "r1"); ("status", JStr "VIOLATED")]]
  /\ getProgressRoots wrapped_children_doc = Ok [JStr "only child"]
  /\ getProgressRoots wrapped_empty_doc = Ok [].
Proof.
  split; [|split].
  - exact (proj1 (proj2 (roots_fall_through_to_document wrapped_doc
                           eq_refl eq_refl
                           (or_intror (conj eq_refl (conj eq_refl eq_refl)))))
             eq_refl).
  - exact (proj1 (proj2 (proj2 (roots_fall_through_to_document wrapped_children_doc
                                  eq_refl eq_refl
                                  (or_intror (conj eq_refl (conj eq_refl eq_refl))))))
             eq_refl eq_refl).
  - exact (proj2 (proj2 (proj2 (roots_fall_through_to_document wrapped_empty_doc
                                  eq_refl eq_refl (or_introl eq_refl))))
             eq_refl eq_refl).
Defined.

(** ** JSON text read back *)

Lemma skip_ws_head c s : is_json_ws c = false -> skip_ws (String c s) = String c s.
Proof. intros H. simpl. now rewrite H. Qed.

Lemma parse_chars_escape c tail :
  parse_chars (escape_char c ++ tail) = prepend (String c "") (parse_chars tail).
Proof.
  destruct c as [[] [] [] [] [] [] [] []]; reflexivity.
Qed.

Lemma parse_chars_quote_body s rest :
  parse_chars (quote_body s ++ String dquote rest) = Some (s, rest).
Proof.
  induction s as [|c s IH]; simpl.
  - reflexivity.
  - rewrite sapp_assoc, parse_chars_escape, IH. reflexivity.
Qed.

Lemma quote_eq s rest :
  quote s ++ rest = String dquote (quote_body s ++ String dquote rest).
Proof. unfold quote. simpl. now rewrite sapp_assoc. Qed.

(** *** Spans *)

Lemma span_all (p : ascii -> bool) s rest :
  sall p s = true ->
  match rest with "" => true | String c _ => negb (p c) end = true ->
  span p (s ++ rest) = (s, rest).
Proof.
  intros Hs Hrest. induction s as [|c s IH]; simpl in *.
  - destruct rest as [|c r]; [reflexivity|]. simpl.
    apply negb_true_iff in Hrest. now rewrite Hrest.
  - apply andb_prop in Hs as [Hc Hs]. now rewrite Hc, IH.
Qed.

Lemma number_end_digit rest :
  number_end rest = true ->
  match rest with "" => true | String c _ => negb (is_digit c) end = true.
Proof.
  destruct rest as [|c r]; simpl; [reflexivity|].
  intros H. apply negb_true_iff in H. apply negb_true_iff.
  now destruct (is_digit c).
Qed.

(** *** Numbers *)

Lemma span_more (p : ascii -> bool) t rest :
  match rest with "" => true | String c _ => negb (p c) end = true ->
  span p (t ++ rest) = (fst (span p t), snd (span p t) ++ rest).
Proof.
  intros Hrest. induction t as [|c t IH]; cbn [String.append span].
  - destruct rest as [|d r]; [reflexivity|]. cbn [span fst snd String.append].
    apply negb_true_iff in Hrest. now rewrite Hrest.
  - destruct (p c); [|reflexivity]. rewrite IH.
    now destruct (span p t).
Qed.

Lemma fraction_more s rest fp r :
  number_end rest = true ->
  fraction s = Some (fp, r) -> fraction (s ++ rest) = Some (fp, r ++ rest).
Proof.
  intros Hend. destruct s as [|c s']; cbn [fraction String.append].
  - intros [= <- <-]. destruct rest as [|d rest']; [reflexivity|].
    cbn [number_end] in Hend. apply negb_true_iff in Hend.
    cbn [fraction]. destruct (Ascii.eqb d "."); [|reflexivity].
    now rewrite !orb_true_r in Hend.
  - destruct (Ascii.eqb c ".").
    + rewrite (@span_more is_digit s' rest (@number_end_digit rest Hend)).
      destruct (span is_digit s') as [f r']. cbn [fst snd].
      destruct (nonempty f); [|discriminate]. now intros [= <- <-].
    + now intros [= <- <-].
Qed.

Lemma exponent_more s rest ex r :
  number_end rest = true ->
  exponent s = Some (ex, r) -> exponent (s ++ rest) = Some (ex, r ++ rest).
Proof.
  intros Hend. pose proof (@number_end_digit rest Hend) as Hdigit.
  destruct s as [|c s']; cbn [exponent String.append].
  - intros [= <- <-]. destruct rest as [|d rest']; [reflexivity|].
    cbn [number_end] in Hend. apply negb_true_iff in Hend.
    cbn [exponent]. destruct (Ascii.eqb d "e" || Ascii.eqb d "E") eqn:E; [|reflexivity].
    destruct (is_digit d); [discriminate|]. destruct (Ascii.eqb d "."); [discriminate|].
    cbn [orb] in Hend. congruence.
  - destruct (Ascii.eqb c "e" || Ascii.eqb c "E"); [|now intros [= <- <-]].
    destruct s' as [|d s'']; [discriminate|]. cbn [String.append].
    destruct (Ascii.eqb d "-").
    { rewrite (@span_more is_digit s'' rest Hdigit).
      destruct (span is_digit s'') as [ds r']. cbn [fst snd].
      destruct (nonempty ds); [|discriminate]. now intros [= <- <-]. }
    destruct (Ascii.eqb d "+").
    { rewrite (@span_more is_digit s'' rest Hdigit).
      destruct (span is_digit s'') as [ds r']. cbn [fst snd].
      destruct (nonempty ds); [|discriminate]. now intros [= <- <-]. }
    change (String d (s'' ++ rest)) with (String d s'' ++ rest).
    rewrite (@span_more is_digit (String d s'') rest Hdigit).
    destruct (span is_digit (String d s'')) as [ds r']. cbn [fst snd].
    destruct (nonempty ds); [|discriminate]. now intros [= <- <-].
Qed.

Lemma split_sign_more s rest :
  s <> "" -> split_sign (s ++ rest) = (fst (split_sign s), snd (split_sign s) ++ rest).
Proof.
  destruct s as [|c s']; [contradiction|]. intros _. cbn [String.append split_sign].
  destruct (Ascii.eqb c "-"); reflexivity.
Qed.

(** A literal that is read whole is read the same with more text after it. *)
Lemma parse_number_more t x rest :
  parse_number t = Some (x, "") -> number_end rest = true ->
  parse_number (t ++ rest) = Some (x, rest).
Proof.
  intros H Hend. unfold parse_number in *.
  assert (Ht : t <> "") by (intros ->; discriminate H).
  rewrite (@split_sign_more t rest Ht).
  destruct (split_sign t) as [neg r0]. cbn [fst snd].
  rewrite (@span_more is_digit r0 rest (@number_end_digit rest Hend)).
  destruct (span is_digit r0) as [ip r1]. cbn [fst snd].
  destruct (nonempty ip && (String.eqb ip "0" || negb (starts_with "0" ip)));
    [|discriminate].
  destruct (fraction r1) as [[fp r2]|] eqn:Hf; [|discriminate].
  rewrite (@fraction_more r1 rest fp r2 Hend Hf).
  destruct (exponent r2) as [[ex r3]|] eqn:He; [|discriminate].
  rewrite (@exponent_more r2 rest ex r3 Hend He).
  injection H as <- ->. reflexivity.
Qed.

Lemma span_digits s ip r :
  span is_digit s = (ip, r) -> nonempty ip = true ->
  exists c s', s = String c s' /\ is_digit c = true.
Proof.
  destruct s as [|c s']; cbn [span]; [intros [= <- <-]; discriminate|].
  destruct (is_digit c) eqn:E; [eauto|]. intros [= <- <-]. discriminate.
Qed.

Lemma parse_number_head t x r :
  parse_number t = Some (x, r) ->
  exists c s, t = String c s /\ starts_number c = true.
Proof.
  unfold parse_number. destruct t as [|c s]; [discriminate|].
  cbn [split_sign]. unfold starts_number.
  destruct (Ascii.eqb c "-") eqn:Hm.
  { intros _. exists c, s. now rewrite Hm. }
  cbv beta iota.
  destruct (span is_digit (String c s)) as [ip r1] eqn:E.
  destruct (nonempty ip) eqn:Hn; cbn [andb]; [|discriminate]. intros _.
  destruct (@span_digits _ _ _ E Hn) as (c' & s' & Heq & Hc).
  injection Heq as -> ->. exists c', s'. now rewrite Hc, orb_true_r.
Qed.

Lemma same_number_eq x y : same_number x y = true -> x = y.
Proof.
  destruct x as [a|a| |a m e], y as [b|b| |b m' e']; cbn [same_number];
    try discriminate.
  - intros H. apply Bool.eqb_prop in H. now subst.
  - intros H. apply Bool.eqb_prop in H. now subst.
  - intros H. apply andb_prop in H as [H He]. apply andb_prop in H as [Hs Hm].
    apply Bool.eqb_prop in Hs. apply Pos.eqb_eq in Hm. apply Z.eqb_eq in He.
    now subst.
Qed.

Lemma number_text_reads x rest :
  number_reads_back x = true -> number_end rest = true ->
  parse_number (number_text x ++ rest) = Some (x, rest).
Proof.
  unfold number_reads_back. intros H Hend.
  destruct (parse_number (number_text x)) as [[y r]|] eqn:E; [|discriminate].
  destruct r; [|discriminate]. apply same_number_eq in H. subst y.
  now apply parse_number_more.
Qed.

Lemma reads_back_finite x : number_reads_back x = true -> is_finite x = true.
Proof.
  destruct x as [s|[]| |s m e]; try reflexivity; discriminate.
Qed.

Lemma number_head x :
  number_reads_back x = true ->
  exists c s, number_text x = String c s /\ starts_number c = true.
Proof.
  unfold number_reads_back. intros H.
  destruct (parse_number (number_text x)) as [[y r]|] eqn:E; [|discriminate].
  exact (@parse_number_head _ _ _ E).
Qed.

(** *** Values *)

Lemma parse_value_number fuel c r :
  starts_number c = true ->
  parse_value (S fuel) (String c r)
  = match parse_number (String c r) with
    | Some (x, rest) => Some (JNum x, rest)
    | None => None
    end.
Proof.
  destruct c as [[] [] [] [] [] [] [] []]; try discriminate; reflexivity.
Qed.

Lemma starts_number_head c :
  starts_number c = true ->
  is_json_ws c = false /\ Ascii.eqb "]" c = false /\ Ascii.eqb "}" c = false.
Proof.
  destruct c as [[] [] [] [] [] [] [] []]; try discriminate; repeat split.
Qed.

Lemma stringify_head v :
  is_json v = true ->
  exists c s,
    stringify v = String c s
    /\ is_json_ws c = false /\ Ascii.eqb "]" c = false /\ Ascii.eqb "}" c = false.
Proof.
  destruct v as [| |[]|x|s|l|fields]; intros Hj;
    try (eexists; eexists; split; [reflexivity | repeat split]).
  cbn [is_json] in Hj. cbn [stringify]. rewrite (reads_back_finite _ Hj).
  destruct (number_head _ Hj) as (c & s & Hx & Hc).
  exists c, s. split; [exact Hx | now apply starts_number_head].
Qed.

Lemma size_pos v : 1 <= size v.
Proof. destruct v; simpl; lia. Qed.

Lemma length_le_sizes (A : Type) (f : A -> nat) (l : list A) :
  (forall x, 1 <= f x) -> length l <= list_sum (map f l).
Proof.
  intros Hf. induction l as [|x l IH]; simpl; [lia|].
  specialize (Hf x). lia.
Qed.

Lemma size_le_sizes (A : Type) (f : A -> nat) (l : list A) x :
  In x l -> f x <= list_sum (map f l).
Proof.
  induction l as [|y l IH]; simpl; [contradiction|].
  intros [->|H]; [lia|]. specialize (IH H). lia.
Qed.

Lemma join_cons sep x y l : join sep (x :: y :: l) = x ++ sep ++ join sep (y :: l).
Proof. reflexivity. Qed.

Lemma parse_elements_ok pv l : forall n rest,
  l <> [] ->
  Forall (reads_back pv) l ->
  length l <= n ->
  parse_elements pv n (join "," (map stringify l) ++ "]" ++ rest) = Some (l, rest).
Proof.
  induction l as [|x xs IH]; intros n rest Hne Hall Hn; [contradiction|].
  inversion Hall as [|? ? Hx Hxs]; subst.
  destruct n as [|n]; [simpl in Hn; lia|].
  destruct xs as [|y ys].
  - cbn [map join parse_elements]. rewrite Hx by reflexivity. reflexivity.
  - cbn [map]. rewrite join_cons, !sapp_assoc. cbn [parse_elements].
    rewrite Hx by reflexivity.
    change (skip_ws ("," ++ join "," (stringify y :: map stringify ys) ++ "]" ++ rest))
      with (String "," (join "," (stringify y :: map stringify ys) ++ "]" ++ rest)).
    cbv iota. change (Ascii.eqb "," ",") with true. cbv iota.
    change (stringify y :: map stringify ys) with (map stringify (y :: ys)).
    rewrite IH; [reflexivity | discriminate | exact Hxs | simpl in *; lia].
Qed.

Lemma parse_member_ok pv k x rest :
  reads_back pv x -> number_end rest = true ->
  parse_member pv (member_text (k, x) ++ rest) = Some ((k, x), rest).
Proof.
  intros Hx Hrest. unfold member_text. cbn [fst snd].
  rewrite !sapp_assoc, quote_eq. unfold parse_member.
  rewrite skip_ws_head by reflexivity.
  change (Ascii.eqb dquote dquote) with true. cbv iota.
  rewrite parse_chars_quote_body.
  change (skip_ws (":" ++ stringify x ++ rest)) with (String ":" (stringify x ++ rest)).
  cbv iota. change (Ascii.eqb ":" ":") with true. cbv iota.
  now rewrite Hx.
Qed.

Lemma parse_members_ok pv l : forall n rest,
  l <> [] ->
  Forall (fun kv => reads_back pv (snd kv)) l ->
  length l <= n ->
  parse_members pv n (join "," (map member_text l) ++ "}" ++ rest) = Some (l, rest).
Proof.
  induction l as [|[k x] xs IH]; intros n rest Hne Hall Hn; [contradiction|].
  inversion Hall as [|? ? Hx Hxs]; subst.
  destruct n as [|n]; [simpl in Hn; lia|].
  destruct xs as [|y ys].
  - cbn [map join parse_members]. rewrite parse_member_ok by (trivial; reflexivity).
    reflexivity.
  - cbn [map]. rewrite join_cons, !sapp_assoc. cbn [parse_members].
    rewrite parse_member_ok by (trivial; reflexivity).
    change (skip_ws ("," ++ join "," (member_text y :: map member_text ys) ++ "}" ++ rest))
      with (String "," (join "," (member_text y :: map member_text ys) ++ "}" ++ rest)).
    cbv iota. change (Ascii.eqb "," ",") with true. cbv iota.
    change (member_text y :: map member_text ys) with (map member_text (y :: ys)).
    rewrite IH; [reflexivity | discriminate | exact Hxs | simpl in *; lia].
Qed.

Lemma lookup_none_neq k k' (v : jsval) rest :
  lookup k rest = None -> lookup k' rest <> None -> lookup k' [(k, v)] = None.
Proof.
  intros Hk Hk'. simpl. destruct (String.eqb_spec k k'); [|reflexivity].
  subst. contradiction.
Qed.

Lemma build_object_fold kvs : forall acc,
  distinct_keys kvs = true ->
  (forall k, lookup k kvs <> None -> lookup k acc = None) ->
  fold_left (fun fields kv => obj_set (fst kv) (snd kv) fields) kvs acc
  = (acc ++ kvs)%list.
Proof.
  induction kvs as [|[k v] rest IH]; intros acc Hd Hfresh; simpl.
  - now rewrite app_nil_r.
  - simpl in Hd. destruct (lookup k rest) eqn:Hk; [discriminate|].
    rewrite obj_set_fresh.
    + rewrite IH; [now rewrite <- app_assoc | exact Hd |].
      intros k' Hk'. rewrite lookup_app.
      rewrite Hfresh.
      * now apply lookup_none_neq with (rest := rest).
      * simpl. destruct (String.eqb k k'); [discriminate | exact Hk'].
    + apply Hfresh. simpl. rewrite String.eqb_refl. discriminate.
Qed.

Lemma build_object_distinct kvs :
  distinct_keys kvs = true -> build_object kvs = JObj kvs.
Proof.
  intros H. unfold build_object. now rewrite build_object_fold.
Qed.

Lemma member_texts fields :
  forallb (fun kv : string * jsval => let (_, x) := kv in is_json x) fields = true ->
  flat_map (fun p : string * jsval =>
              let (k, x) := p in
              if is_undefined x then [] else [quote k ++ ":" ++ stringify x]) fields
  = map member_text fields.
Proof.
  induction fields as [|[k x] rest IH]; [reflexivity|].
  cbn [flat_map map forallb]. intros H. apply andb_prop in H as [Hx Hrest].
  rewrite IH by exact Hrest. destruct x; try reflexivity. discriminate.
Qed.

Lemma join_head sep x l c s :
  x = String c s -> exists s', join sep (x :: l) = String c s'.
Proof.
  intros ->. destruct l; simpl; eauto.
Qed.

Lemma parse_value_string fuel r :
  parse_value (S fuel) (String dquote r)
  = match parse_chars r with
    | Some (str, rest) => Some (JStr str, rest)
    | None => None
    end.
Proof. reflexivity. Qed.

Lemma parse_value_array fuel r :
  parse_value (S fuel) (String "[" r)
  = match strip_prefix "]" (skip_ws r) with
    | Some rest => Some (JArr [], rest)
    | None =>
        match parse_elements (parse_value fuel) fuel r with
        | Some (vs, rest) => Some (JArr vs, rest)
        | None => None
        end
    end.
Proof. reflexivity. Qed.

Lemma parse_value_object fuel r :
  parse_value (S fuel) (String "{" r)
  = match strip_prefix "}" (skip_ws r) with
    | Some rest => Some (JObj [], rest)
    | None =>
        match parse_members (parse_value fuel) fuel r with
        | Some (kvs, rest) => Some (build_object kvs, rest)
        | None => None
        end
    end.
Proof. reflexivity. Qed.

Lemma not_closing close text c s rest :
  text = String c s ->
  is_json_ws c = false -> Ascii.eqb close c = false ->
  strip_prefix (String close "") (skip_ws (text ++ rest)) = None.
Proof.
  intros -> Hws Hc. cbn [String.append].
  rewrite skip_ws_head by exact Hws. simpl. now rewrite Hc.
Qed.

Lemma parse_value_stringify v :
  is_json v = true ->
  forall fuel rest,
    size v <= fuel -> number_end rest = true ->
    parse_value fuel (stringify v ++ rest) = Some (v, rest).
Proof.
  induction v as [| |b|z|s|l IH|fields IH] using jsval_ind;
    intros Hj fuel rest Hfuel Hrest;
    (destruct fuel as [|f]; [simpl in Hfuel; lia|]).
  - discriminate.
  - reflexivity.
  - destruct b; reflexivity.
  - cbn [is_json] in Hj. cbn [stringify]. rewrite (reads_back_finite _ Hj).
    destruct (number_head _ Hj) as (c & s & Hx & Hc).
    rewrite Hx. cbn [String.append]. rewrite parse_value_number by exact Hc.
    change (String c (s ++ rest)) with (String c s ++ rest). rewrite <- Hx.
    now rewrite (@number_text_reads z rest Hj Hrest).
  - cbn [stringify]. rewrite quote_eq, parse_value_string, parse_chars_quote_body.
    reflexivity.
  - cbn [stringify]. cbn [String.append]. rewrite parse_value_array.
    destruct l as [|x xs]; [reflexivity|].
    rewrite sapp_assoc.
    assert (Hjx : is_json x = true).
    { cbn [is_json forallb] in Hj. now apply andb_prop in Hj as [Hjx _]. }
    destruct (stringify_head x Hjx) as (c & s & Hx & Hws & Hc & _).
    destruct (@join_head "," (stringify x) (map stringify xs) c s Hx) as (s' & Hjoin).
    cbn [map]. rewrite (@not_closing "]" _ _ _ _ Hjoin) by assumption.
    change (stringify x :: map stringify xs) with (map stringify (x :: xs)).
    simpl in Hfuel. rewrite parse_elements_ok; [reflexivity | discriminate | |].
    + simpl in Hj. apply Forall_forall. intros y Hy rest' Hrest'.
      rewrite Forall_forall in IH. apply IH; trivial.
      * change (forallb is_json (x :: xs) = true) in Hj.
        rewrite forallb_forall in Hj. now apply Hj.
      * pose proof (@size_le_sizes _ size (x :: xs) y Hy). simpl in H. lia.
    + pose proof (@length_le_sizes _ size (x :: xs) size_pos). simpl in *. lia.
  - cbn [stringify]. cbn [String.append]. rewrite parse_value_object.
    cbn [is_json] in Hj. apply andb_prop in Hj as [Hvals Hkeys].
    rewrite member_texts by exact Hvals.
    destruct fields as [|[k x] xs]; [reflexivity|].
    rewrite sapp_assoc. cbn [map].
    destruct (@join_head "," (member_text (k, x)) (map member_text xs) dquote
                (quote_body k ++ String dquote (":" ++ stringify x))) as (s' & Hjoin).
    { unfold member_text. cbn [fst snd]. now rewrite quote_eq. }
    rewrite (@not_closing "}" _ _ _ _ Hjoin) by reflexivity.
    change (member_text (k, x) :: map member_text xs)
      with (map member_text ((k, x) :: xs)).
    set (sz := fun kv : string * jsval => let (_, y) := kv in size y).
    assert (Hsz : forall kv, 1 <= sz kv) by (intros [? y]; apply size_pos).
    change (S (list_sum (map sz ((k, x) :: xs))) <= S f) in Hfuel.
    rewrite parse_members_ok; [now rewrite build_object_distinct | discriminate | |].
    + apply Forall_forall. intros [k' y] Hy rest' Hrest'. cbn [snd].
      rewrite Forall_forall in IH. apply (IH (k', y)); trivial.
      * rewrite forallb_forall in Hvals. now apply (Hvals (k', y)).
      * pose proof (@size_le_sizes _ sz ((k, x) :: xs) (k', y) Hy).
        change (size y <= list_sum (map sz ((k, x) :: xs))) in H.
        cbn [snd]. lia.
    + pose proof (@length_le_sizes _ sz ((k, x) :: xs) Hsz). lia.
Qed.

Lemma join_length sep l :
  list_sum (map String.length l) <= String.length (join sep l).
Proof.
  induction l as [|x l IH]; simpl; [lia|].
  destruct l as [|y l]; [simpl; lia|].
  rewrite !sapp_length. simpl in *. lia.
Qed.

Lemma list_sum_le (A : Type) (f g : A -> nat) (l : list A) :
  Forall (fun x => f x <= g x) l -> list_sum (map f l) <= list_sum (map g l).
Proof. induction 1; simpl; lia. Qed.

Lemma size_le_text v : is_json v = true -> size v <= String.length (stringify v).
Proof.
  induction v as [| |b|z|s|l IH|fields IH] using jsval_ind; intros Hj.
  - discriminate.
  - simpl. lia.
  - destruct b; simpl; lia.
  - destruct (stringify_head _ Hj) as (c & s & Hx & _). rewrite Hx. simpl. lia.
  - simpl. lia.
  - cbn [stringify size]. cbn [String.append String.length].
    rewrite sapp_length.
    pose proof (join_length "," (map stringify l)) as Hjoin.
    rewrite map_map in Hjoin.
    assert (Hsum : list_sum (map size l)
                   <= list_sum (map (fun x => String.length (stringify x)) l)).
    { apply list_sum_le. simpl in Hj. rewrite forallb_forall in Hj.
      rewrite Forall_forall in *. intros x Hx. apply IH; auto. }
    simpl. lia.
  - cbn [is_json] in Hj. apply andb_prop in Hj as [Hvals _].
    cbn [stringify size]. rewrite member_texts by exact Hvals.
    cbn [String.append String.length]. rewrite sapp_length.
    pose proof (join_length "," (map member_text fields)) as Hjoin.
    rewrite map_map in Hjoin.
    assert (Hsum : list_sum (map (fun kv : string * jsval => let (_, x) := kv in size x)
                               fields)
                   <= list_sum (map (fun kv => String.length (member_text kv)) fields)).
    { apply list_sum_le. rewrite forallb_forall in Hvals.
      rewrite Forall_forall in *. intros [k x] Hx.
      unfold member_text. cbn [fst snd]. rewrite !sapp_length.
      specialize (IH (k, x) Hx (Hvals (k, x) Hx)). cbn [snd] in IH. lia. }
    simpl. lia.
Qed.

(** What [JSON.stringify] writes for a document, [JSON.parse] reads back. *)
Lemma JSON_parse_stringify v : is_json v = true -> JSON_parse (stringify v) = Some v.
Proof.
  intros Hj. unfold JSON_parse.
  pose proof (size_le_text v Hj) as Hsize.
  pose proof (@parse_value_stringify v Hj (S (String.length (stringify v))) "") as H.
  rewrite sapp_nil_r in H. rewrite H; [reflexivity | lia | reflexivity].
Qed.

Lemma parseMaybeJson_text doc :
  is_json doc = true -> parseMaybeJson (JStr (stringify doc)) = doc.
Proof. intros Hj. simpl. now rewrite JSON_parse_stringify. Qed.

Lemma stringify_nonempty v : is_json v = true -> nonempty (stringify v) = true.
Proof. intros Hj. destruct (stringify_head v Hj) as (c & s & -> & _). reflexivity. Qed.

(** C5. [getProgressRoots] returns the empty list for [null] and for
    [undefined]; and for every JSON document that is not itself a string (an
    object, an array, a number, a boolean or [null]) it returns the same
    result for the document and for the document JSON-encoded as a string.
    (A JSON document is a value that [JSON.parse] can return: without
    [undefined], with distinct keys in each object, and with numbers, whole
    or fractional, that are read back from their text.) *)
Theorem roots_of_encoded_document :
  getProgressRoots JNull = Ok []
  /\ getProgressRoots JUndefined = Ok []
  /\ forall doc,
       is_json doc = true -> is_string doc = false ->
       getProgressRoots (JSON_stringify doc) = getProgressRoots doc.
Proof.
  split; [reflexivity|]. split; [reflexivity|].
  intros doc Hj Hs.
  assert (Henc : JSON_stringify doc = JStr (stringify doc)).
  { destruct doc; try reflexivity. discriminate. }
  rewrite Henc. unfold getProgressRoots at 1.
  unfold falsy at 1. cbn [truthy]. rewrite stringify_nonempty by exact Hj.
  cbn [negb]. rewrite parseMaybeJson_text by exact Hj.
  unfold getProgressRoots.
  assert (Hsame : parseMaybeJson doc = doc).
  { destruct doc; try reflexivity. discriminate. }
  rewrite Hsame.
  destruct (falsy doc) eqn:Hf; [|reflexivity].
  unfold falsy in Hf. apply negb_true_iff in Hf.
  unfold inner_roots, and_member. rewrite Hf. cbn [bind].
  rewrite Hf. destruct doc; try discriminate; reflexivity.
Qed.

Lemma roots_of_encoded_document_witness :
  JSON_stringify (JArr sample_numbers) = JStr numbers_text
  /\ getProgressRoots (JStr numbers_text) = Ok sample_numbers
  /\ getProgressRoots (JSON_stringify (JArr sample_numbers))
     = getProgressRoots (JArr sample_numbers)
  /\ getProgressRoots (JSON_stringify timed_progress)
     = getProgressRoots timed_progress
  /\ getProgressRoots (JSON_stringify encoded_progress)
     = getProgressRoots encoded_progress.
Proof.
  split; [reflexivity|]. split; [reflexivity|].
  split; [|split];
    apply (proj2 (proj2 roots_of_encoded_document)); reflexivity.
Defined.

(** ** Run addresses *)

Lemma drop_end_all (p : ascii -> bool) s : sall p s = true -> drop_end p s = "".
Proof.
  induction s as [|c s IH]; simpl; [reflexivity|].
  intros H. apply andb_prop in H as [Hc Hs]. now rewrite IH, Hc.
Qed.

Lemma drop_end_app (p : ascii -> bool) s t :
  sall p t = true -> drop_end p (s ++ t) = drop_end p s.
Proof.
  intros Ht. induction s as [|c s IH]; simpl.
  - now apply drop_end_all.
  - now rewrite IH.
Qed.

Lemma slashes_all n : sall (Ascii.eqb "/") (slashes n) = true.
Proof. induction n; simpl; auto. Qed.


Lemma ends_with_char_app c s t :
  t <> "" -> ends_with (String c "") (s ++ t) = ends_with (String c "") t.
Proof.
  intros Ht. induction s as [|x s IH]; simpl; [reflexivity|].
  rewrite IH. destruct (s ++ t) eqn:E.
  - destruct s; simpl in E; [contradiction | discriminate].
  - now destruct (Ascii.eqb c x).
Qed.

Lemma split_none sep s :
  sall (fun c => negb (Ascii.eqb c sep)) s = true -> split sep s = [s].
Proof.
  induction s as [|c s IH]; simpl; [reflexivity|].
  intros H. apply andb_prop in H as [Hc Hs]. apply negb_true_iff in Hc.
  now rewrite Hc, IH.
Qed.

Lemma split_at sep a b :
  sall (fun c => negb (Ascii.eqb c sep)) a = true ->
  split sep (a ++ String sep b) = a :: split sep b.
Proof.
  induction a as [|c a IH]; simpl.
  - now rewrite Ascii.eqb_refl.
  - intros H. apply andb_prop in H as [Hc Ha]. apply negb_true_iff in Hc.
    now rewrite Hc, IH.
Qed.

Lemma sall_impl (p q : ascii -> bool) s :
  (forall c, p c = true -> q c = true) -> sall p s = true -> sall q s = true.
Proof.
  intros Hpq. induction s as [|c s IH]; simpl; [reflexivity|].
  intros H. apply andb_prop in H as [Hc Hs]. now rewrite (Hpq c Hc), IH.
Qed.

Lemma smap_id (f : ascii -> ascii) (p : ascii -> bool) s :
  (forall c, p c = true -> f c = c) -> sall p s = true -> smap f s = s.
Proof.
  intros Hf. induction s as [|c s IH]; simpl; [reflexivity|].
  intros H. apply andb_prop in H as [Hc Hs]. now rewrite (Hf c Hc), IH.
Qed.

Lemma host_char_facts c :
  host_char c = true -> negb (ends_authority c) = true.
Proof.
  destruct c as [[] [] [] [] [] [] [] []]; try discriminate; reflexivity.
Qed.

Lemma path_char_facts c : path_char c = true -> negb (ends_path c) = true.
Proof.
  destruct c as [[] [] [] [] [] [] [] []]; try discriminate; reflexivity.
Qed.

Lemma coded_key_char_facts c :
  coded_key_char c = true ->
  query_char c = true /\ negb (Ascii.eqb c "&") = true.
Proof.
  destruct c as [[] [] [] [] [] [] [] []]; try discriminate; split; reflexivity.
Qed.


Lemma segment_char_path c : segment_char c = true -> path_char c = true.
Proof. unfold path_char. now intros ->. Qed.



Lemma segment_char_facts c :
  segment_char c = true ->
  negb (Ascii.eqb c "/") = true /\ negb (ends_path c) = true.
Proof.
  destruct c as [[] [] [] [] [] [] [] []]; try discriminate; split; reflexivity.
Qed.


Lemma span_whole (p : ascii -> bool) s : sall p s = true -> span p s = (s, "").
Proof.
  intros H. rewrite <- (sapp_nil_r s) at 1. now apply span_all.
Qed.

Lemma URL_new_plain h path q :
  plain_host h = true ->
  sall path_char path = true ->
  path = "" \/ starts_with "/" path = true ->
  plain_query (query_of q) = true ->
  URL_new ("https://" ++ h ++ path ++ query_text q)
  = Some (Ok {| protocol := "https:"; host := h;
                pathname := if nonempty path then path else "/";
                search := query_of q |}).
Proof.
  intros Hh Hpath Hslash Hq.
  assert (Hchars : sall host_char h = true).
  { unfold plain_host in Hh. now repeat (apply andb_prop in Hh as [Hh _]). }
  unfold URL_new.
  change (includes ":" ("https://" ++ h ++ path ++ query_text q)) with true.
  change (starts_with "https://" ("https://" ++ h ++ path ++ query_text q)) with true.
  change (drop 8 ("https://" ++ h ++ path ++ query_text q))
    with (h ++ path ++ query_text q).
  cbv beta iota. cbn [negb].
  rewrite (@span_all (fun c => negb (ends_authority c)) h (path ++ query_text q)).
  - rewrite (@span_all (fun c => negb (ends_path c)) path (query_text q)).
    + destruct q as [query|]; cbn [query_text String.append query_of] in *;
        now rewrite Hh, Hpath, Hq.
    + revert Hpath. apply sall_impl. intros c Hc. now apply path_char_facts.
    + destruct q; reflexivity.
  - revert Hchars. apply sall_impl. intros c Hc. now apply host_char_facts.
  - destruct Hslash as [-> | Hs].
    + destruct q; reflexivity.
    + destruct path as [|c path']; [discriminate|]. cbn [starts_with] in Hs.
      apply andb_prop in Hs as [Hc _]. apply Ascii.eqb_eq in Hc. subst c.
      reflexivity.
Qed.


Lemma sall_app (p : ascii -> bool) a b : sall p (a ++ b) = sall p a && sall p b.
Proof.
  induction a as [|c a IH]; simpl; [reflexivity|]. now rewrite IH, andb_assoc.
Qed.

Lemma segment_no_slash r :
  sall segment_char r = true -> sall (fun c => negb (Ascii.eqb c "/")) r = true.
Proof. apply sall_impl. intros c Hc. now apply segment_char_facts. Qed.

Lemma segment_in_path r :
  sall segment_char r = true -> sall path_char r = true.
Proof. apply sall_impl. intros c Hc. now apply segment_char_path. Qed.

Lemma key_in_query k : coded_key k = true -> sall query_char k = true.
Proof. apply sall_impl. intros c Hc. now apply coded_key_char_facts. Qed.

Lemma key_no_amp k :
  coded_key k = true -> sall (fun c => negb (Ascii.eqb c "&")) k = true.
Proof. apply sall_impl. intros c Hc. now apply coded_key_char_facts. Qed.



Lemma parseRunInfo_ok urlStr u :
  URL_new (drop_end (Ascii.eqb "/") urlStr) = Some (Ok u) ->
  parseRunInfo urlStr = Some (Ok (run_info u)).
Proof. unfold parseRunInfo. now intros ->. Qed.

Lemma query_pair_key k :
  query_pair ("anonymousKey=" ++ k) = ("anonymousKey", form_decode k).
Proof. reflexivity. Qed.

Lemma key_pairs k :
  coded_key k = true ->
  query_pairs ("anonymousKey=" ++ k) = [("anonymousKey", form_decode k)].
Proof.
  intros Hk. unfold query_pairs. rewrite split_none.
  - change (filter nonempty ["anonymousKey=" ++ k]) with ["anonymousKey=" ++ k].
    cbn [map]. now rewrite query_pair_key.
  - rewrite sall_app, (key_no_amp _ Hk). reflexivity.
Qed.

Lemma key_query k :
  coded_key k = true -> valid_utf8 (form_decode k) = true ->
  plain_query ("anonymousKey=" ++ k) = true.
Proof.
  intros Hk Hv. unfold plain_query.
  rewrite sall_app, (key_in_query _ Hk), (key_pairs _ Hk).
  cbn [forallb fst snd]. now rewrite Hv.
Qed.

Lemma run_info_run h r o k :
  plain_segment r = true -> plain_segment o = true -> coded_key k = true ->
  run_info {| protocol := "https:"; host := h;
              pathname := "/output/" ++ r ++ "/" ++ o;
              search := "anonymousKey=" ++ k |}
  = {| origin := "https://" ++ h; runId := Some r; outputId := Some o;
       anonymousKey := form_decode k |}.
Proof.
  intros Hr Ho Hk.
  apply andb_prop in Hr as [Hr1 Hr2]. apply andb_prop in Ho as [Ho1 Ho2].
  unfold run_info, searchParams. cbn [pathname search protocol host].
  rewrite key_pairs by exact Hk. cbn [params_get String.eqb]. 
  change ("/output/" ++ r ++ "/" ++ o)
    with ("" ++ String "/" ("output" ++ String "/" (r ++ String "/" o))).
  rewrite !split_at, split_none;
    try reflexivity; try (now apply segment_no_slash).
  cbn [filter nonempty]. rewrite Hr1, Ho1.
  cbn [length scan_parts].
  change (scan_parts ["output"; r; o] 3 0) with (Some r, Some o).
  cbv beta iota. destruct (form_decode k); reflexivity.
Qed.





Lemma drop_end_after c pre k :
  pre <> "" -> ends_with (String c "") pre = false ->
  drop_end (Ascii.eqb c) (pre ++ k) = pre ++ drop_end (Ascii.eqb c) k.
Proof.
  induction pre as [|x pre IH]; intros Hne Hend; [contradiction|].
  cbn [String.append drop_end].
  cbn [ends_with] in Hend. apply orb_false_iff in Hend as [Hx Hpre].
  destruct pre as [|y pre].
  - cbn [String.append]. destruct (drop_end (Ascii.eqb c) k); [|reflexivity].
    destruct (Ascii.eqb_spec c x) as [->|_]; [|reflexivity].
    rewrite String.eqb_refl in Hx. discriminate.
  - rewrite IH by (trivial; discriminate). reflexivity.
Qed.

Lemma sall_drop_end (p q : ascii -> bool) s :
  sall p s = true -> sall p (drop_end q s) = true.
Proof.
  induction s as [|c s IH]; simpl; [reflexivity|].
  intros H. apply andb_prop in H as [Hc Hs]. specialize (IH Hs).
  destruct (drop_end q s).
  - destruct (q c); simpl; [reflexivity | now rewrite Hc].
  - cbn [sall] in *. now rewrite Hc.
Qed.

Lemma run_url_stripped h r o k n :
  drop_end (Ascii.eqb "/") (run_url h r o k ++ slashes n)
  = run_url h r o (drop_end (Ascii.eqb "/") k).
Proof.
  rewrite drop_end_app by apply slashes_all.
  unfold run_url.
  replace ("https://" ++ h ++ "/output/" ++ r ++ "/" ++ o ++ "?anonymousKey=" ++ k)
    with (("https://" ++ h ++ "/output/" ++ r ++ "/" ++ o ++ "?anonymousKey=") ++ k)
    by (now rewrite !sapp_assoc).
  rewrite drop_end_after.
  - now rewrite !sapp_assoc.
  - discriminate.
  - replace ("https://" ++ h ++ "/output/" ++ r ++ "/" ++ o ++ "?anonymousKey=")
      with (("https://" ++ h ++ "/output/" ++ r ++ "/" ++ o) ++ "?anonymousKey=")
      by (now rewrite !sapp_assoc).
    rewrite ends_with_char_app by discriminate. reflexivity.
Qed.

Lemma URL_new_run h r o k :
  plain_host h = true -> plain_segment r = true -> plain_segment o = true ->
  coded_key k = true -> valid_utf8 (form_decode k) = true ->
  URL_new (run_url h r o k)
  = Some (Ok {| protocol := "https:"; host := h;
                pathname := "/output/" ++ r ++ "/" ++ o;
                search := "anonymousKey=" ++ k |}).
Proof.
  intros Hh Hr Ho Hk Hv.
  apply andb_prop in Hr as [_ Hr]. apply andb_prop in Ho as [_ Ho].
  replace (run_url h r o k)
    with ("https://" ++ h ++ ("/output/" ++ r ++ "/" ++ o)
          ++ query_text (Some ("anonymousKey=" ++ k)))
    by (unfold run_url, query_text; now rewrite !sapp_assoc).
  rewrite URL_new_plain; trivial.
  - change ("/output/" ++ r ++ "/" ++ o) with ("/output/" ++ (r ++ "/" ++ o)).
    rewrite !sall_app, (@segment_in_path r Hr), (@segment_in_path o Ho). reflexivity.
  - now right.
  - cbn [query_of]. now apply key_query.
Qed.

Lemma parseRunInfo_run h r o k n :
  plain_host h = true -> plain_segment r = true -> plain_segment o = true ->
  coded_key k = true ->
  valid_utf8 (form_decode (drop_end (Ascii.eqb "/") k)) = true ->
  parseRunInfo (run_url h r o k ++ slashes n)
  = Some (Ok {| origin := "https://" ++ h; runId := Some r; outputId := Some o;
                anonymousKey := form_decode (drop_end (Ascii.eqb "/") k) |}).
Proof.
  intros Hh Hr Ho Hk Hv.
  assert (Hk' : coded_key (drop_end (Ascii.eqb "/") k) = true)
    by now apply sall_drop_end.
  assert (Hu := @URL_new_run h r o _ Hh Hr Ho Hk' Hv).
  rewrite <- (run_url_stripped h r o k n) in Hu.
  rewrite (parseRunInfo_ok _ Hu). now rewrite run_info_run.
Qed.





(** ** Transcripts *)

Lemma split_nonempty sep s : split sep s <> [].
Proof.
  destruct s as [|c s]; simpl; [discriminate|].
  destruct (Ascii.eqb c sep); [discriminate|].
  destruct (split sep s); discriminate.
Qed.

Lemma join_split s : join nl (split newline s) = s.
Proof.
  induction s as [|c s IH]; [reflexivity|].
  cbn [split]. destruct (Ascii.eqb_spec c newline) as [->|Hc].
  - pose proof (split_nonempty newline s) as Hne.
    destruct (split newline s) as [|h t] eqn:E; [contradiction|].
    rewrite join_cons, IH. reflexivity.
  - destruct (split newline s) as [|h t] eqn:E.
    + now contradiction (split_nonempty newline s).
    + destruct t as [|h' t].
      * cbn [join] in *. now subst.
      * rewrite join_cons in *. cbn [String.append]. now rewrite IH.
Qed.

Lemma indices_none (p : string -> bool) lines : forall from,
  existsb p lines = false -> indices_from p from lines = [].
Proof.
  induction lines as [|l lines IH]; intros from; simpl; [reflexivity|].
  intros H. apply orb_false_iff in H as [Hl Hrest]. rewrite Hl. now apply IH.
Qed.

Lemma findIndex_none (p : string -> bool) lines :
  existsb p lines = false -> findIndex p lines = (-1)%Z.
Proof.
  induction lines as [|l lines IH]; simpl; [reflexivity|].
  intros H. apply orb_false_iff in H as [Hl Hrest]. rewrite Hl, (IH Hrest).
  reflexivity.
Qed.

Lemma existsb_nth (p : string -> bool) lines j :
  existsb p lines = false -> (j < length lines)%nat -> p (nth j lines "") = false.
Proof.
  revert j. induction lines as [|l lines IH]; intros j H Hj; simpl in *; [lia|].
  apply orb_false_iff in H as [Hl Hrest].
  destruct j; [exact Hl | apply IH; [exact Hrest | lia]].
Qed.

Lemma instructions_none lines : forall i,
  existsb (includes "User instructions:") lines = false ->
  (i <= length lines)%nat ->
  instructions_before lines i = (-1)%Z.
Proof.
  induction i as [|j IH]; intros H Hi; [reflexivity|].
  cbn [instructions_before].
  rewrite (@existsb_nth (includes "User instructions:") lines j H) by lia.
  apply IH; [exact H | lia].
Qed.

Lemma filter_all (A : Type) (p : A -> bool) l :
  existsb (fun x => negb (p x)) l = false -> filter p l = l.
Proof.
  induction l as [|x l IH]; simpl; [reflexivity|].
  intros H. apply orb_false_iff in H as [Hx Hl].
  apply negb_false_iff in Hx. now rewrite Hx, IH.
Qed.

Lemma existsb_weaken (A : Type) (p q : A -> bool) l :
  (forall x, q x = true -> p x = true) ->
  existsb p l = false -> existsb q l = false.
Proof.
  intros Hpq. induction l as [|x l IH]; simpl; [reflexivity|].
  intros H. apply orb_false_iff in H as [Hx Hl]. rewrite (IH Hl).
  destruct (q x) eqn:E; [|reflexivity]. now rewrite (Hpq x E) in Hx.
Qed.

(** C6 (amended). [extractCodexAnswer] is a total function of its text. On a
    text without markers (no tokens-used line, no Final answer: line, no
    User instructions: line, no meta line) it returns the text with its
    leading and trailing white space removed, and the text itself when
    nothing would be left; so it returns the text unchanged exactly when the
    text neither starts nor ends with white space or is all white space. *)
Theorem extract_without_markers :
  forall text,
    has_marker text = false ->
    extractCodexAnswer text = (if nonempty (trim text) then trim text else text)
    /\ (trim text = text -> extractCodexAnswer text = text)
    /\ (trim text = "" -> extractCodexAnswer text = text).
Proof.
  intros text H.
  assert (Hmain : extractCodexAnswer text
                  = if nonempty (trim text) then trim text else text).
  { unfold has_marker in H. unfold extractCodexAnswer.
    set (lines := split newline text) in *.
    rewrite indices_none; cycle 1.
    { revert H. apply existsb_weaken. intros l ->. reflexivity. }
    cbn [rev first_segment].
    rewrite findIndex_none; cycle 1.
    { revert H. apply existsb_weaken. intros l ->. now rewrite orb_true_r. }
    cbn [Z.eqb negb].
    rewrite instructions_none; trivial; cycle 1.
    { revert H. apply existsb_weaken. intros l ->. now rewrite !orb_true_r. }
    cbn [Z.leb Z.compare]. rewrite filter_all; cycle 1.
    { revert H. apply existsb_weaken. intros l Hl.
      rewrite negb_andb, !negb_involutive in Hl.
      destruct (tokens_used l); [reflexivity|].
      rewrite orb_false_r in Hl. rewrite Hl. now rewrite !orb_true_r. }
    unfold lines. now rewrite join_split. }
  split; [exact Hmain|]. split; intros Ht; rewrite Hmain, Ht.
  - now destruct text.
  - reflexivity.
Qed.

Lemma extract_without_markers_witness :
  extractCodexAnswer (utf8 65279 ++ " The rule holds." ++ utf8 160 ++ nl)
  = "The rule holds."
  /\ extractCodexAnswer plain_answer = plain_answer
  /\ extractCodexAnswer (utf8 8232 ++ " " ++ utf8 65279)
     = utf8 8232 ++ " " ++ utf8 65279.
Proof.
  split; [|split].
  - exact (proj1 (extract_without_markers
                    (utf8 65279 ++ " The rule holds." ++ utf8 160 ++ nl) eq_refl)).
  - exact (proj1 (proj2 (extract_without_markers plain_answer eq_refl)) eq_refl).
  - exact (proj2 (proj2 (extract_without_markers
                           (utf8 8232 ++ " " ++ utf8 65279) eq_refl)) eq_refl).
Defined.

(** C6 as stated fails: a text without markers that ends with a line break
    is returned without it. *)
Lemma extract_trims_plain_text :
  has_marker (plain_answer ++ nl) = false
  /\ extractCodexAnswer (plain_answer ++ nl) = plain_answer
  /\ extractCodexAnswer (plain_answer ++ nl) <> plain_answer ++ nl.
Proof.
  split; [reflexivity|]. split; [reflexivity|]. vm_compute. discriminate.
Qed.

(** *** Lines of a text and of its pieces *)

Lemma split_app sep s t :
  split sep (s ++ t)
  = (removelast (split sep s)
     ++ String.append (last (split sep s) "") (hd "" (split sep t))
        :: tl (split sep t))%list.
Proof.
  induction s as [|c s IH].
  - cbn [String.append split removelast last app].
    pose proof (split_nonempty sep t) as Hne.
    destruct (split sep t); [contradiction | reflexivity].
  - cbn [String.append split]. rewrite IH.
    pose proof (split_nonempty sep s) as Hne.
    destruct (Ascii.eqb c sep).
    + destruct (split sep s) as [|h tl0]; [contradiction | reflexivity].
    + destruct (split sep s) as [|h tl0]; [contradiction|].
      destruct tl0 as [|x tl2]; reflexivity.
Qed.

Lemma split_all (p : ascii -> bool) sep s :
  sall p s = true -> Forall (fun l => sall p l = true) (split sep s).
Proof.
  induction s as [|c s IH]; intros H.
  - repeat constructor.
  - cbn [sall] in H. apply andb_prop in H as [Hc Hs]. specialize (IH Hs).
    cbn [split]. destruct (Ascii.eqb c sep).
    + constructor; [reflexivity | exact IH].
    + destruct (split sep s) as [|h t]; [repeat constructor; simpl; now rewrite Hc|].
      inversion IH; subst. constructor; [simpl; now rewrite Hc | assumption].
Qed.

Lemma split_no_sep sep s :
  Forall (fun l => sall (fun c => negb (Ascii.eqb c sep)) l = true) (split sep s).
Proof.
  induction s as [|c s IH].
  - repeat constructor.
  - cbn [split]. destruct (Ascii.eqb c sep) eqn:Hc.
    + constructor; [reflexivity | exact IH].
    + pose proof (split_nonempty sep s) as Hne.
      destruct (split sep s) as [|h t]; [contradiction|].
      inversion IH; subst. constructor; [simpl; now rewrite Hc | assumption].
Qed.

Lemma split_join lines :
  lines <> [] ->
  Forall (fun l => sall (fun c => negb (Ascii.eqb c newline)) l = true) lines ->
  split newline (join nl lines) = lines.
Proof.
  induction lines as [|x lines IH]; intros Hne Hall; [contradiction|].
  inversion Hall as [|? ? Hx Hrest]; subst.
  destruct lines as [|y lines].
  - cbn [join]. now apply split_none.
  - rewrite join_cons. unfold nl at 1. cbn [String.append].
    rewrite split_at by exact Hx. f_equal. apply IH; [discriminate | exact Hrest].
Qed.

(** *** White space *)

Lemma white_space_eq : white_space = white_space_bytes.
Proof. vm_compute. reflexivity. Qed.

Lemma is_white_in t : is_white t = true <-> In t white_space.
Proof.
  unfold is_white. rewrite existsb_exists. split.
  - intros (x & Hx & E). apply String.eqb_eq in E. now subst.
  - intros H. exists t. split; [exact H | apply String.eqb_refl].
Qed.

Ltac each_token H :=
  rewrite white_space_eq in H; unfold white_space_bytes in H; cbn [In] in H;
  repeat (destruct H as [<-|H]); [..|contradiction].

Lemma trimStart_token t s : In t white_space -> trimStart (t ++ s) = trimStart s.
Proof. intros H. each_token H; reflexivity. Qed.

Lemma token_length t : In t white_space -> 1 <= String.length t.
Proof. intros H. each_token H; cbn; lia. Qed.

Lemma trimStart_cases s :
  trimStart s = s
  \/ exists t r, In t white_space /\ s = t ++ r /\ trimStart s = trimStart r.
Proof.
  destruct s as [|c1 s1]; [now left|]. cbn [trimStart].
  destruct (is_white (String c1 "")) eqn:E1.
  { right. exists (String c1 ""), s1. split; [now apply is_white_in | now split]. }
  destruct s1 as [|c2 s2]; [now left|].
  destruct (is_white (String c1 (String c2 ""))) eqn:E2.
  { right. exists (String c1 (String c2 "")), s2.
    split; [now apply is_white_in | now split]. }
  destruct s2 as [|c3 s3]; [now left|].
  destruct (is_white (String c1 (String c2 (String c3 "")))) eqn:E3; [|now left].
  right. exists (String c1 (String c2 (String c3 ""))), s3.
  split; [now apply is_white_in | now split].
Qed.

Lemma by_length (P : string -> Prop) :
  (forall s, (forall r, String.length r < String.length s -> P r) -> P s) ->
  forall s, P s.
Proof.
  intros H s.
  assert (G : forall n r, String.length r < n -> P r).
  { induction n as [|n IH]; intros r Hr; [lia|].
    apply H. intros r' Hr'. apply IH. lia. }
  apply (G (S (String.length s))). lia.
Qed.

Lemma trimStart_shorter s : String.length (trimStart s) <= String.length s.
Proof.
  induction s as [s IH] using by_length.
  destruct (trimStart_cases s) as [->|(t & r & Ht & -> & ->)]; [lia|].
  pose proof (@token_length _ Ht). rewrite sapp_length.
  assert (String.length r < String.length (t ++ r)) by (rewrite sapp_length; lia).
  specialize (IH r H0). lia.
Qed.

Lemma trimStart_decompose s :
  exists w, s = w ++ trimStart s /\ blank w = true.
Proof.
  induction s as [s IH] using by_length.
  destruct (trimStart_cases s) as [E|(t & r & Ht & -> & E)].
  - exists "". now split.
  - destruct (IH r) as (w & Hw & Hb).
    { pose proof (@token_length _ Ht). rewrite sapp_length. lia. }
    exists (t ++ w). rewrite E. split.
    + rewrite sapp_assoc. now rewrite <- Hw.
    + unfold blank in *. now rewrite trimStart_token.
Qed.

Lemma blank_cases a :
  blank a = true ->
  a = "" \/ exists t r, In t white_space /\ a = t ++ r /\ blank r = true.
Proof.
  unfold blank. intros H.
  destruct (trimStart_cases a) as [E|(t & r & Ht & -> & E)].
  - left. rewrite E in H. now destruct a.
  - right. exists t, r. rewrite E in H. auto.
Qed.

Lemma trimStart_blank a s : blank a = true -> trimStart (a ++ s) = trimStart s.
Proof.
  induction a as [a IH] using by_length. intros H.
  destruct (blank_cases _ H) as [->|(t & r & Ht & -> & Hr)]; [reflexivity|].
  rewrite sapp_assoc, trimStart_token by exact Ht.
  apply IH; [|exact Hr].
  pose proof (@token_length _ Ht). rewrite sapp_length. lia.
Qed.

Lemma blank_app a b : blank a = true -> blank b = true -> blank (a ++ b) = true.
Proof. intros Ha Hb. unfold blank in *. now rewrite trimStart_blank. Qed.

Lemma blank_token t : In t white_space -> blank t = true.
Proof.
  intros H. unfold blank. rewrite <- (sapp_nil_r t), trimStart_token by exact H.
  reflexivity.
Qed.

Lemma trimStart_idem s : trimStart (trimStart s) = trimStart s.
Proof.
  induction s as [s IH] using by_length.
  destruct (trimStart_cases s) as [E|(t & r & Ht & -> & ->)]; [now rewrite !E|].
  apply IH. pose proof (@token_length _ Ht). rewrite sapp_length. lia.
Qed.

Lemma trimEnd_decompose s :
  exists w, s = trimEnd s ++ w /\ blank w = true.
Proof.
  induction s as [|c s (w & Hw & Hb)]; [now exists ""|].
  cbn [trimEnd]. destruct (blank (String c s)) eqn:E.
  - exists (String c s). now split.
  - exists w. cbn [String.append]. split; [now rewrite <- Hw | exact Hb].
Qed.

Lemma trim_decompose s :
  exists w1 w2,
    s = w1 ++ trim s ++ w2 /\ blank w1 = true /\ blank w2 = true.
Proof.
  destruct (trimStart_decompose s) as (w1 & H1 & Hs1).
  destruct (trimEnd_decompose (trimStart s)) as (w2 & H2 & Hs2).
  exists w1, w2. unfold trim. rewrite <- H2. auto.
Qed.

Lemma trimEnd_idem s : trimEnd (trimEnd s) = trimEnd s.
Proof.
  induction s as [|c s IH]; [reflexivity|]. cbn [trimEnd].
  destruct (blank (String c s)) eqn:E; [reflexivity|]. cbn [trimEnd].
  destruct (blank (String c (trimEnd s))) eqn:E2; [|now rewrite IH].
  destruct (trimEnd_decompose s) as (w & Hw & Hb).
  assert (H : blank (String c (trimEnd s) ++ w) = true) by now apply blank_app.
  cbn [String.append] in H. rewrite <- Hw in H. congruence.
Qed.

Lemma trimStart_prefix y w :
  trimStart (y ++ w) = y ++ w -> trimStart y = y.
Proof.
  intros H. destruct (trimStart_cases y) as [E|(t & r & Ht & -> & E)]; [exact E|].
  exfalso. rewrite sapp_assoc, trimStart_token in H by exact Ht.
  pose proof (trimStart_shorter (r ++ w)) as Hlen. rewrite H in Hlen.
  pose proof (@token_length _ Ht). rewrite !sapp_length in Hlen. lia.
Qed.

Lemma trim_idem s : trim (trim s) = trim s.
Proof.
  unfold trim.
  destruct (trimEnd_decompose (trimStart s)) as (w & Hw & _).
  assert (H : trimStart (trimEnd (trimStart s)) = trimEnd (trimStart s)).
  { apply trimStart_prefix with (w := w). rewrite <- Hw. apply trimStart_idem. }
  rewrite H. apply trimEnd_idem.
Qed.

Lemma token_shape t :
  In t white_space ->
  exists c r, t = String c r /\ continues c = false /\ sall continues r = true.
Proof.
  intros H. each_token H; eexists; eexists; (split; [reflexivity|]); split; reflexivity.
Qed.

Lemma blank_head c r : blank (String c r) = true -> continues c = false.
Proof.
  intros H. destruct (blank_cases _ H) as [E|(t & r' & Ht & E & _)]; [discriminate|].
  destruct (token_shape Ht) as (c' & r'' & -> & Hc & _).
  cbn [String.append] in E. now injection E as -> _.
Qed.

Lemma white_two c1 c2 :
  is_white (String c1 (String c2 "")) = true -> continues c2 = true.
Proof.
  intros H. apply is_white_in in H. destruct (token_shape H) as (c & r & E & _ & Hr).
  injection E as <- <-. cbn [sall] in Hr. now apply andb_prop in Hr as [Hr _].
Qed.

Lemma white_three c1 c2 c3 :
  is_white (String c1 (String c2 (String c3 ""))) = true ->
  continues c2 = true /\ continues c3 = true.
Proof.
  intros H. apply is_white_in in H. destruct (token_shape H) as (c & r & E & _ & Hr).
  injection E as <- <-. cbn [sall] in Hr. apply andb_prop in Hr as [H2 Hr].
  now apply andb_prop in Hr as [H3 _].
Qed.

(** Text that does not start with white space keeps its start when white
    space is put after it. *)
Lemma trimStart_fixed m b :
  m <> "" -> trimStart m = m -> blank b = true -> trimStart (m ++ b) = m ++ b.
Proof.
  intros Hne Hm Hb.
  destruct m as [|c1 m1]; [contradiction|].
  assert (E1 : is_white (String c1 "") = false).
  { destruct (is_white (String c1 "")) eqn:E; [|reflexivity]. exfalso.
    apply is_white_in in E.
    pose proof (@trimStart_token _ m1 E) as Ht. cbn [String.append] in Ht.
    pose proof (trimStart_shorter m1) as Hl. rewrite <- Ht, Hm in Hl. cbn in Hl. lia. }
  assert (Hb1 : forall c r, b = String c r -> continues c = false).
  { intros c r ->. now apply blank_head with (r := r). }
  cbn [String.append trimStart]. rewrite E1.
  destruct m1 as [|c2 m2].
  { cbn [String.append]. destruct b as [|d1 b1]; [reflexivity|].
    pose proof (Hb1 d1 b1 eq_refl) as Hd.
    destruct (is_white (String c1 (String d1 ""))) eqn:E2.
    { apply white_two in E2. congruence. }
    destruct b1 as [|d2 b2]; [reflexivity|].
    destruct (is_white (String c1 (String d1 (String d2 "")))) eqn:E3; [|reflexivity].
    apply white_three in E3 as [E3 _]. congruence. }
  assert (E2 : is_white (String c1 (String c2 "")) = false).
  { destruct (is_white (String c1 (String c2 ""))) eqn:E; [|reflexivity]. exfalso.
    apply is_white_in in E.
    pose proof (@trimStart_token _ m2 E) as Ht. cbn [String.append] in Ht.
    pose proof (trimStart_shorter m2) as Hl. rewrite <- Ht, Hm in Hl. cbn in Hl. lia. }
  cbn [String.append]. rewrite E2.
  destruct m2 as [|c3 m3].
  { cbn [String.append]. destruct b as [|d1 b1]; [reflexivity|].
    pose proof (Hb1 d1 b1 eq_refl) as Hd.
    destruct (is_white (String c1 (String c2 (String d1 "")))) eqn:E3; [|reflexivity].
    apply white_three in E3 as [_ E3]. congruence. }
  cbn [String.append].
  destruct (is_white (String c1 (String c2 (String c3 "")))) eqn:E3; [|reflexivity].
  exfalso. apply is_white_in in E3.
  pose proof (@trimStart_token _ m3 E3) as Ht. cbn [String.append] in Ht.
  pose proof (trimStart_shorter m3) as Hl. rewrite <- Ht, Hm in Hl. cbn in Hl. lia.
Qed.

Lemma trimStart_app s b :
  blank b = true ->
  trimStart (s ++ b) = if blank s then "" else trimStart s ++ b.
Proof.
  intros Hb. induction s as [s IH] using by_length.
  destruct (trimStart_cases s) as [E|(t & r & Ht & -> & E)].
  - unfold blank at 1. rewrite E. destruct s as [|c s'].
    + cbn. unfold blank in Hb. now destruct (trimStart b).
    + cbn [nonempty negb]. now apply trimStart_fixed.
  - rewrite sapp_assoc, trimStart_token by exact Ht.
    unfold blank at 1. rewrite E. fold (blank r). apply IH.
    pose proof (@token_length _ Ht). rewrite sapp_length. lia.
Qed.

Lemma blank_app_r a b : blank b = true -> blank (a ++ b) = blank a.
Proof.
  intros Hb. unfold blank at 1. rewrite trimStart_app by exact Hb.
  destruct (blank a) eqn:E; [reflexivity|].
  unfold blank in E. destruct (trimStart a); [discriminate | reflexivity].
Qed.

Lemma trimEnd_app x b : blank b = true -> trimEnd (x ++ b) = trimEnd x.
Proof.
  intros Hb. induction x as [|c x IH].
  - cbn [String.append trimEnd]. destruct b as [|d b']; [reflexivity|].
    cbn [trimEnd]. now rewrite Hb.
  - cbn [String.append trimEnd].
    change (String c (x ++ b)) with (String c x ++ b).
    rewrite blank_app_r by exact Hb. now rewrite IH.
Qed.

Lemma trimEnd_blank s : blank s = true -> trimEnd s = "".
Proof. intros H. destruct s; [reflexivity|]. cbn [trimEnd]. now rewrite H. Qed.

(** White space around a text does not show after trimming. *)
Lemma trim_padded a s b :
  blank a = true -> blank b = true -> trim (a ++ s ++ b) = trim s.
Proof.
  intros Ha Hb. unfold trim. rewrite trimStart_blank by exact Ha.
  rewrite trimStart_app by exact Hb.
  destruct (blank s) eqn:E.
  - unfold blank in E. destruct (trimStart s); [reflexivity | discriminate].
  - now apply trimEnd_app.
Qed.

(** On an ASCII character trimming looks at that character only. *)
Lemma trimStart_ascii c s :
  is_ascii c = true ->
  trimStart (String c s) = if is_space c then trimStart s else String c s.
Proof.
  intros Hc.
  destruct c as [[] [] [] [] [] [] [] []]; try discriminate Hc;
    try reflexivity;
    (destruct s as [|c2 s2]; [reflexivity|]);
    (destruct s2 as [|c3 s3]; reflexivity).
Qed.

Lemma blank_ascii s : sall is_ascii s = true -> blank s = sall is_space s.
Proof.
  induction s as [|c s IH]; [reflexivity|]. cbn [sall]. intros H.
  apply andb_prop in H as [Hc Hs]. unfold blank in *.
  rewrite trimStart_ascii by exact Hc.
  destruct (is_space c); [now apply IH | reflexivity].
Qed.

Lemma upper_ascii c : is_ascii c = true -> is_ascii (upper_char c) = true.
Proof. destruct c as [[] [] [] [] [] [] [] []]; try discriminate; reflexivity. Qed.

Lemma space_upper c : is_ascii c = true -> is_space (upper_char c) = is_space c.
Proof. destruct c as [[] [] [] [] [] [] [] []]; try discriminate; reflexivity. Qed.

Lemma lower_upper c : is_ascii c = true -> lower_char (upper_char c) = lower_char c.
Proof. destruct c as [[] [] [] [] [] [] [] []]; try discriminate; reflexivity. Qed.

Lemma sall_upper_ascii s : sall is_ascii s = true -> sall is_ascii (toUpperCase s) = true.
Proof.
  induction s as [|c s IH]; [reflexivity|]. cbn [sall toUpperCase smap]. intros H.
  apply andb_prop in H as [Hc Hs]. rewrite (upper_ascii _ Hc). now apply IH.
Qed.

Lemma sall_space_upper s :
  sall is_ascii s = true -> sall is_space (toUpperCase s) = sall is_space s.
Proof.
  induction s as [|c s IH]; [reflexivity|]. cbn [sall toUpperCase smap]. intros H.
  apply andb_prop in H as [Hc Hs]. rewrite (space_upper _ Hc).
  f_equal. now apply IH.
Qed.

Lemma trimStart_upper s :
  sall is_ascii s = true -> trimStart (toUpperCase s) = toUpperCase (trimStart s).
Proof.
  induction s as [|c s IH]; [reflexivity|]. cbn [sall]. intros H.
  apply andb_prop in H as [Hc Hs].
  change (toUpperCase (String c s)) with (String (upper_char c) (toUpperCase s)).
  rewrite !trimStart_ascii by (trivial; now apply upper_ascii).
  rewrite (space_upper _ Hc). destruct (is_space c); [now apply IH | reflexivity].
Qed.

Lemma trimEnd_upper s :
  sall is_ascii s = true -> trimEnd (toUpperCase s) = toUpperCase (trimEnd s).
Proof.
  induction s as [|c s IH]; [reflexivity|]. intros H.
  pose proof H as H'. cbn [sall] in H'. apply andb_prop in H' as [Hc Hs].
  change (toUpperCase (String c s)) with (String (upper_char c) (toUpperCase s)).
  cbn [trimEnd].
  change (String (upper_char c) (toUpperCase s)) with (toUpperCase (String c s)).
  rewrite (blank_ascii _ (sall_upper_ascii _ H)), sall_space_upper by exact H.
  rewrite <- (blank_ascii _ H).
  destruct (blank (String c s)); [reflexivity|].
  cbn [toUpperCase smap]. f_equal. now apply IH.
Qed.

Lemma sall_trimStart (p : ascii -> bool) s : sall p s = true -> sall p (trimStart s) = true.
Proof.
  intros H. destruct (trimStart_decompose s) as (w & Hw & _).
  rewrite Hw in H. clear Hw. induction w as [|c w IH]; [exact H|].
  cbn [String.append sall] in H. apply andb_prop in H as [_ H]. now apply IH.
Qed.

Lemma trim_upper s :
  sall is_ascii s = true -> trim (toUpperCase s) = toUpperCase (trim s).
Proof.
  intros H. unfold trim. rewrite trimStart_upper by exact H.
  apply trimEnd_upper. now apply sall_trimStart.
Qed.

(** *** Lines of white space *)

Lemma split_cons c r :
  Ascii.eqb c newline = false ->
  split newline (String c r) = String c (hd "" (split newline r)) :: tl (split newline r).
Proof.
  intros H. cbn [split]. rewrite H.
  pose proof (split_nonempty newline r) as Hne.
  destruct (split newline r); [contradiction | reflexivity].
Qed.

Lemma split_token t r :
  In t white_space ->
  split newline (t ++ r)
  = (if String.eqb t (String newline "") then "" :: split newline r
     else (t ++ hd "" (split newline r)) :: tl (split newline r)).
Proof.
  intros H. each_token H; cbn [String.append];
    first [ reflexivity | rewrite !split_cons by reflexivity; reflexivity ].
Qed.

Lemma blank_lines w :
  blank w = true -> Forall (fun l => blank l = true) (split newline w).
Proof.
  induction w as [w IH] using by_length. intros H.
  destruct (blank_cases _ H) as [->|(t & r & Ht & -> & Hr)].
  - repeat constructor.
  - assert (Hrest : Forall (fun l => blank l = true) (split newline r)).
    { apply IH; [|exact Hr]. pose proof (@token_length _ Ht).
      rewrite sapp_length. lia. }
    rewrite split_token by exact Ht.
    destruct (String.eqb t (String newline "")).
    + constructor; [reflexivity | exact Hrest].
    + pose proof (split_nonempty newline r) as Hne.
      destruct (split newline r) as [|h tl0]; [contradiction|].
      inversion Hrest; subst. constructor; [|assumption].
      cbn [hd]. apply blank_app; [now apply blank_token | assumption].
Qed.

Lemma last_all (p : string -> Prop) (l : list string) :
  p "" -> Forall p l -> p (last l "").
Proof.
  intros Hd H. induction H as [|x l Hx Hl IH]; [exact Hd|].
  destruct l; [exact Hx | exact IH].
Qed.

Lemma hd_all (p : string -> Prop) (l : list string) :
  p "" -> Forall p l -> p (hd "" l).
Proof. intros Hd H. destruct H; [exact Hd | assumption]. Qed.

Lemma line_after_spaces w T r :
  blank w = true -> In r (split newline T) ->
  exists l a, In l (split newline (w ++ T)) /\ l = a ++ r /\ blank a = true.
Proof.
  intros Hw Hr. rewrite split_app.
  destruct (split newline T) as [|h tl0]; [contradiction|].
  destruct Hr as [<-|Hr].
  - exists (last (split newline w) "" ++ h), (last (split newline w) "").
    split; [apply in_or_app; right; now left|]. split; [reflexivity|].
    apply (@last_all (fun l => blank l = true)); [reflexivity|].
    now apply blank_lines.
  - exists r, "". split; [apply in_or_app; right; now right|]. now split.
Qed.

Lemma line_before_spaces T w r :
  blank w = true -> In r (split newline T) ->
  exists l b, In l (split newline (T ++ w)) /\ l = r ++ b /\ blank b = true.
Proof.
  intros Hw Hr. rewrite split_app.
  rewrite (app_removelast_last "" (split_nonempty newline T)) in Hr.
  apply in_app_or in Hr as [Hr|[<-|[]]].
  - exists r, "". split; [apply in_or_app; now left|].
    split; [now rewrite sapp_nil_r | reflexivity].
  - exists (last (split newline T) "" ++ hd "" (split newline w)),
           (hd "" (split newline w)).
    split; [apply in_or_app; right; now left|]. split; [reflexivity|].
    apply (@hd_all (fun l => blank l = true)); [reflexivity|].
    now apply blank_lines.
Qed.

(** A line of a trimmed text is a line of the text, less white space at its
    ends. *)
Lemma trimmed_line J r :
  In r (split newline (trim J)) ->
  exists l a b,
    In l (split newline J) /\ l = a ++ r ++ b
    /\ blank a = true /\ blank b = true.
Proof.
  intros Hr. destruct (trim_decompose J) as (w1 & w2 & HJ & H1 & H2).
  destruct (@line_before_spaces (trim J) w2 r H2 Hr) as (l1 & b & Hl1 & -> & Hb).
  destruct (@line_after_spaces w1 (trim J ++ w2) (r ++ b) H1 Hl1)
    as (l & a & Hl & -> & Ha).
  exists (a ++ r ++ b), a, b. rewrite HJ. auto.
Qed.





(** *** Indices *)

Lemma slice_in from to lines l :
  In l (slice from to lines) ->
  exists i, (from <= i < to)%nat /\ (i < length lines)%nat /\ nth i lines "" = l.
Proof.
  unfold slice. intros H. apply (In_nth _ _ "") in H as (j & Hj & Hn).
  rewrite length_firstn, length_skipn in Hj.
  rewrite nth_firstn, nth_skipn in Hn.
  destruct (Nat.ltb_spec j (to - from)); [|lia].
  exists (from + j)%nat. repeat split; try lia. exact Hn.
Qed.

Lemma stamp_before_spec lines t :
  (-1 <= stamp_before lines t < Z.of_nat t)%Z
  /\ forall j, (stamp_before lines t < Z.of_nat j)%Z -> (j < t)%nat ->
                timestamped (nth j lines "") = false.
Proof.
  induction t as [|t (IH1 & IH2)]; cbn [stamp_before].
  - split; [lia|]. intros j _ Hj. lia.
  - destruct (timestamped (nth t lines "")) eqn:Ht.
    + split; [lia|]. intros j H1 H2. lia.
    + split; [lia|]. intros j H1 H2.
      destruct (Nat.eq_dec j t) as [->|Hne]; [exact Ht|]. apply IH2; lia.
Qed.

Lemma indices_from_in (p : string -> bool) lines : forall from i,
  In i (indices_from p from lines) <->
  (from <= i < from + length lines)%nat /\ p (nth (i - from) lines "") = true.
Proof.
  induction lines as [|l lines IH]; intros from i; cbn [indices_from length].
  - split; [contradiction | lia].
  - assert (Hstep : In i (indices_from p (S from) lines) <->
                    (S from <= i < from + S (length lines))%nat
                    /\ p (nth (i - from) (l :: lines) "") = true).
    { rewrite IH. split; intros [H1 H2]; (split; [lia|]).
      - replace (i - from)%nat with (S (i - S from)) by lia. exact H2.
      - replace (i - from)%nat with (S (i - S from)) in H2 by lia. exact H2. }
    destruct (p l) eqn:Hl.
    + cbn [In]. rewrite Hstep. split.
      * intros [<-|[H1 H2]]; [|split; [lia | exact H2]].
        split; [lia|]. now rewrite Nat.sub_diag.
      * intros [H1 H2]. destruct (Nat.eq_dec from i) as [->|Hne]; [now left|].
        right. split; [lia | exact H2].
    + rewrite Hstep. split; intros [H1 H2]; (split; [|exact H2]); try lia.
      destruct (Nat.eq_dec from i) as [->|Hne]; [|lia].
      rewrite Nat.sub_diag in H2. cbn [nth] in H2. congruence.
Qed.

(** Where the lines of a segment come from. *)
Lemma segment_line lines t r :
  Forall (fun l => sall (fun c => negb (Ascii.eqb c newline)) l = true) lines ->
  segment lines t <> "" ->
  In r (split newline (segment lines t)) ->
  exists i a b,
    (stamp_before lines t < Z.of_nat i)%Z /\ (i < t)%nat /\ (i < length lines)%nat
    /\ nth i lines "" = a ++ r ++ b
    /\ blank a = true /\ blank b = true
    /\ isMetaLine (nth i lines "") = false.
Proof.
  intros Hlines Hne Hr. unfold segment in *.
  set (s := stamp_before lines t) in *.
  set (piece := slice (Z.to_nat (s + 1)) t lines) in *.
  set (kept := filter (fun l => negb (isMetaLine l)) piece) in *.
  apply trimmed_line in Hr as (l & a & b & Hl & -> & Ha & Hb).
  assert (Hkept : kept <> []).
  { intros E. rewrite E in Hne. now apply Hne. }
  assert (Hsub : forall x, In x kept -> In x lines /\ In x piece /\ isMetaLine x = false).
  { intros x Hx. apply filter_In in Hx as [Hx Hmeta].
    apply negb_true_iff in Hmeta. split; [|now split].
    apply slice_in in Hx as (i & _ & Hi & <-). now apply nth_In. }
  rewrite split_join in Hl; trivial.
  - destruct (Hsub _ Hl) as (_ & Hpiece & Hmeta).
    apply slice_in in Hpiece as (i & Hi & Hlen & Hn).
    pose proof (stamp_before_spec lines t) as [Hs _]. fold s in Hs.
    exists i, a, b. rewrite Hn. repeat split; trivial; lia.
  - apply Forall_forall. intros x Hx. rewrite Forall_forall in Hlines.
    apply Hlines. now apply Hsub.
Qed.

(** C7. A transcript with two tokens-used markers and no time-stamped line
    between them: the segment of the last marker reaches back over the line
    of the first one, and since only meta lines are filtered from a segment
    (a marker line is none), [extractCodexAnswer] returns a text that holds
    the line [100 tokens used: ...], where the last lines of the function
    filter such lines out and its test expects no [tokens used] in an
    answer. *)
Theorem extract_keeps_marker_line :
  markers (split newline run_on_blocks) = [2; 4]%nat
  /\ extractCodexAnswer run_on_blocks
     = join nl ["first attempt answer"; "100 tokens used: ...";
                "second attempt: this is correct"]
  /\ In "100 tokens used: ..." (split newline (extractCodexAnswer run_on_blocks))
  /\ tokens_used "100 tokens used: ..." = true
  /\ includes "tokens used" (extractCodexAnswer run_on_blocks) = true.
Proof.
  assert (Hlines : split newline (extractCodexAnswer run_on_blocks)
                   = ["first attempt answer"; "100 tokens used: ...";
                      "second attempt: this is correct"])
    by (vm_compute; reflexivity).
  split; [vm_compute; reflexivity|]. split; [vm_compute; reflexivity|].
  split; [|split; vm_compute; reflexivity].
  rewrite Hlines. right. left. reflexivity.
Qed.

(** ** What can throw *)

Lemma member_truthy v k : truthy v = true -> member v k = Ok (prop v k).
Proof. destruct v; try discriminate; reflexivity. Qed.

Lemma inner_roots_total pj : exists found, inner_roots pj = Ok found.
Proof.
  unfold inner_roots. destruct (truthy pj) eqn:Hpj; [|eauto].
  rewrite member_truthy by exact Hpj. cbn [bind].
  destruct (not_null (prop pj "verificationProgress")); [|eauto].
  destruct (truthy (parseMaybeJson (prop pj "verificationProgress"))) eqn:Hvp; [|eauto].
  rewrite !member_truthy by exact Hvp. cbn [bind].
  repeat match goal with
         | |- context [if ?c then _ else _] => destruct c
         end; eauto.
Qed.

(** [getProgressRoots] returns a list whatever it is given. *)
Lemma getProgressRoots_total v : exists roots, getProgressRoots v = Ok roots.
Proof.
  unfold getProgressRoots. destruct (falsy v); [eauto|].
  destruct (inner_roots_total (parseMaybeJson v)) as [found ->]. cbn [bind].
  destruct found; [eauto|]. unfold and_member.
  destruct (truthy (parseMaybeJson v)) eqn:Hpj.
  - rewrite !member_truthy by exact Hpj. cbn [bind].
    repeat match goal with
           | |- context [if ?c then _ else _] => destruct c
           end; eauto.
  - cbn [bind]. rewrite Hpj. destruct (isArray (parseMaybeJson v)); eauto.
Qed.

(** [parseRunInfo] throws exactly when the URL parser rejects the string
    left after the trailing slashes are stripped. *)
Lemma parseRunInfo_throws urlStr :
  (exists e, parseRunInfo urlStr = Some (Throw e))
  <-> (exists e, URL_new (drop_end (Ascii.eqb "/") urlStr) = Some (Throw e)).
Proof.
  unfold parseRunInfo.
  destruct (URL_new (drop_end (Ascii.eqb "/") urlStr)) as [[u|err]|]; cbn [bind];
    split; intros [e' H]; try discriminate; eauto.
Qed.

(** C9. [parseJobMetadata] throws on a document whose keyed [rules] holds a
    [null] entry: [typeof null] is ['object'], so the entry passes the guard
    of source line 160 and [val.SUCCESS] is read from [null]. *)
Theorem metadata_throws_on_null_rule :
  parseJobMetadata null_rule_doc = Throw TypeError.
Proof. reflexivity. Qed.

(** * Further properties *)

(** ** More on the walk *)

Lemma walk_from runInfo opts visits : forall acc,
  for_of (add_own runInfo opts) visits acc
  = (added <- for_of (add_own runInfo opts) visits [] ;; Ok (acc ++ added)%list).
Proof.
  induction visits as [|v visits IH]; intros acc; cbn [for_of].
  - cbn [bind]. now rewrite app_nil_r.
  - unfold add_own at 1 3. destruct (own_hits runInfo opts v) as [own|e]; cbn [bind].
    + rewrite (IH (acc ++ own)%list), (IH ([] ++ own)%list). cbn [app].
      destruct (for_of (add_own runInfo opts) visits []); cbn [bind];
        [now rewrite app_assoc | reflexivity].
    + reflexivity.
Qed.

(** X1. The walk only appends to the accumulator it is given: walking a node
    with the results so far is walking it with an empty accumulator and
    putting what that adds after the results so far, and it fails when the
    walk from the empty accumulator fails. *)
Theorem collect_extends_accumulator :
  forall node runInfo results currentPath opts,
    collectFailedRuleOutputs node runInfo results currentPath opts
    = (added <- collectFailedRuleOutputs node runInfo [] currentPath opts ;;
       Ok (results ++ added)%list).
Proof.
  intros. rewrite !collect_flat. apply walk_from.
Qed.

Lemma node_status_throws node e :
  node_status node = Throw e <->
  e = TypeError /\ truthy (prop node "status") = true
  /\ is_string (prop node "status") = false.
Proof.
  unfold node_status, js_or.
  destruct (prop node "status") as [| |[]|z|s|l|fields]; cbn [truthy call_toUpperCase is_string];
    try (split; [discriminate | intros (_ & H1 & H2); discriminate]);
    try (destruct z as [?|[]| |? ? ?]);
    try (destruct (nonempty s));
    cbn [call_toUpperCase];
    try (split; [discriminate | intros (_ & H1 & H2); discriminate]);
    (split; [intros [= <-]; auto | intros (-> & _); reflexivity]).
Qed.

Lemma take_snapshot_total node st :
  (exists fields, node = JObj fields) -> exists snap, take_snapshot node st = Ok snap.
Proof. intros [fields ->]. rewrite take_snapshot_obj. eauto. Qed.

Lemma own_hits_throws runInfo opts visit e :
  own_hits runInfo opts visit = Throw e <-> node_status (snd visit) = Throw e.
Proof.
  destruct visit as [path node]. unfold own_hits. cbn [snd].
  destruct (node_status node) as [st|e'] eqn:Hst; cbn [bind];
    [|split; intros [= ->]; reflexivity].
  split; [|discriminate].
  destruct (nonempty st && (0 <? length (output_of node))%nat && selects opts path st);
    [discriminate|].
  destruct (truthy (includeSatisfied opts) && nonempty st
            && (length (output_of node) =? 0)%nat && negb (st =? "VERIFIED")) eqn:Hc;
    [|discriminate].
  apply andb_prop in Hc as [Hc _]. apply andb_prop in Hc as [Hc _].
  apply andb_prop in Hc as [_ Hne].
  destruct (@take_snapshot_total node st) as [snap ->]; [|discriminate].
  apply node_status_object with (st := st); [exact Hst|].
  intros ->. discriminate.
Qed.

Lemma walk_throws runInfo opts visits : forall acc e,
  for_of (add_own runInfo opts) visits acc = Throw e <->
  e = TypeError /\ Exists bad_status visits.
Proof.
  induction visits as [|v visits IH]; intros acc e; cbn [for_of].
  - split; [discriminate | intros [_ H]; inversion H].
  - unfold add_own at 1.
    destruct (own_hits runInfo opts v) as [own|e'] eqn:Hv; cbn [bind].
    + rewrite IH. split; intros [He Hex]; (split; [exact He|]).
      * now right.
      * inversion Hex as [? ? Hbad|]; subst; [|assumption].
        destruct Hbad as [H1 H2].
        assert (Ht : own_hits runInfo opts v = Throw TypeError).
        { apply own_hits_throws, node_status_throws. auto. }
        congruence.
    + apply own_hits_throws, node_status_throws in Hv as (-> & H1 & H2).
      split; [intros [= <-]|intros [-> _]; reflexivity].
      split; [reflexivity|]. left. now split.
Qed.



Lemma upper_char_idem c : upper_char (upper_char c) = upper_char c.
Proof. destruct c as [[] [] [] [] [] [] [] []]; reflexivity. Qed.

Lemma toUpperCase_idem s : toUpperCase (toUpperCase s) = toUpperCase s.
Proof.
  unfold toUpperCase. induction s as [|c s IH]; simpl; [reflexivity|].
  now rewrite upper_char_idem, IH.
Qed.

Lemma node_status_upper node st :
  node_status node = Ok st -> toUpperCase st = st.
Proof.
  unfold node_status. destruct (js_or (prop node "status") (JStr "")); try discriminate.
  cbn [call_toUpperCase]. intros [= <-]. apply toUpperCase_idem.
Qed.

Lemma json_files_suffix output f :
  In f (json_files output) -> ends_with_ci ".json" f = true.
Proof.
  unfold json_files. intros H. apply in_flat_map in H as (x & _ & Hx).
  destruct x; try contradiction.
  destruct (ends_with_ci ".json" s) eqn:E; [|contradiction].
  destruct Hx as [<-|[]]. exact E.
Qed.

(** The shape of one hit. *)
Lemma own_hits_shape runInfo opts visit own :
  own_hits runInfo opts visit = Ok own ->
  Forall (fun h =>
            status h <> "" /\ toUpperCase (status h) = status h
            /\ ruleName h = array_join " > " (fst visit)
            /\ ((exists f, outputFile h = Some f /\ ends_with_ci ".json" f = true
                           /\ url h = Some (hit_url runInfo f)
                           /\ nodeSnapshot h = None
                           /\ selects opts (fst visit) (status h) = true)
                \/ (outputFile h = None /\ url h = None
                    /\ (exists snap, nodeSnapshot h = Some snap)
                    /\ truthy (includeSatisfied opts) = true
                    /\ status h <> "VERIFIED"))) own.
Proof.
  unfold own_hits. destruct visit as [path node]. cbn [fst].
  destruct (node_status node) as [st|e] eqn:Hst; cbn [bind]; [|discriminate].
  pose proof (node_status_upper _ Hst) as Hup.
  destruct (nonempty st && (0 <? length (output_of node))%nat && selects opts path st)
    eqn:Hc.
  - apply andb_prop in Hc as [Hc Hsel]. apply andb_prop in Hc as [Hne _].
    intros [= <-]. apply Forall_forall. intros h Hh.
    apply in_map_iff in Hh as (f & <- & Hf). cbn.
    split; [intros ->; discriminate|]. split; [exact Hup|]. split; [reflexivity|].
    left. exists f. repeat split; trivial. now apply json_files_suffix with (output := output_of node).
  - destruct (truthy (includeSatisfied opts) && nonempty st
              && (length (output_of node) =? 0)%nat && negb (st =? "VERIFIED")) eqn:Hc2.
    + apply andb_prop in Hc2 as [Hc2 Hver]. apply andb_prop in Hc2 as [Hc2 _].
      apply andb_prop in Hc2 as [Hsat Hne].
      destruct (take_snapshot node st) as [snap|]; cbn [bind]; [|discriminate].
      intros [= <-]. constructor; [|constructor]. cbn.
      split; [intros ->; discriminate|]. split; [exact Hup|]. split; [reflexivity|].
      right. repeat split; eauto.
      intros ->. discriminate.
    + intros [= <-]. constructor.
Qed.

Lemma walk_forall runInfo opts (P : list jsval * jsval -> RuleHit -> Prop) visits :
  (forall v own, own_hits runInfo opts v = Ok own -> Forall (P v) own) ->
  forall results hits,
    for_of (add_own runInfo opts) visits results = Ok hits ->
    exists added, hits = (results ++ added)%list
                  /\ Forall (fun h => exists v, In v visits /\ P v h) added.
Proof.
  intros HP results hits H. apply walk_hits in H as (owns & Hall & ->).
  exists (concat owns). split; [reflexivity|].
  apply Forall_forall. intros h Hh. apply in_concat in Hh as (own & Hown & Hh).
  destruct (@Forall2_In_r _ _ _ _ _ _ Hall Hown) as (v & Hv & Hok).
  exists v. split; [exact Hv|].
  pose proof (HP v own Hok) as HF. rewrite Forall_forall in HF. now apply HF.
Qed.



(** X4. Without [includeAll] and without a name pattern the options bound
    the statuses of the hits: without [includeSatisfied] every added hit is
    VIOLATED or SANITY_FAILED and has an evidence file; with
    [includeSatisfied] no added hit is VERIFIED. *)
Theorem policy_bounds_statuses :
  forall node runInfo results currentPath opts hits,
    collectFailedRuleOutputs node runInfo results currentPath opts = Ok hits ->
    truthy (includeAll opts) = false ->
    rule_match opts = None ->
    exists added,
      hits = (results ++ added)%list
      /\ (truthy (includeSatisfied opts) = false ->
          forall h, In h added ->
            (status h = "VIOLATED" \/ status h = "SANITY_FAILED")
            /\ outputFile h <> None)
      /\ (truthy (includeSatisfied opts) = true ->
          forall h, In h added -> status h <> "VERIFIED").
Proof.
  intros node runInfo results currentPath opts hits H Hall Hmatch.
  rewrite collect_flat in H.
  eapply walk_forall in H; [|intros v own; apply own_hits_shape].
  destruct H as (added & -> & HF). exists added. split; [reflexivity|].
  rewrite Forall_forall in HF.
  assert (Hsel : forall path st, selects opts path st = true ->
            (truthy (includeSatisfied opts) = true /\ st <> "VERIFIED")
            \/ (truthy (includeSatisfied opts) = false
                /\ (st = "VIOLATED" \/ st = "SANITY_FAILED"))).
  { intros path st. unfold selects, matches_name. rewrite Hall, Hmatch.
    cbn [orb]. destruct (truthy (includeSatisfied opts)); cbn [andb negb orb].
    - rewrite orb_false_r. intros Hn. left. split; [reflexivity|].
      intros ->. discriminate.
    - intros Hs. right. split; [reflexivity|].
      apply orb_prop in Hs as [Hs|Hs]; apply String.eqb_eq in Hs; auto. }
  split.
  - intros Hsat h Hh.
    destruct (HF h Hh) as (v & _ & _ & _ & _ & [(f & Hf & _ & _ & _ & Hs) | Hsnap]).
    + destruct (Hsel _ _ Hs) as [[Ht _]|[_ Hst]]; [congruence|].
      split; [exact Hst | congruence].
    + destruct Hsnap as (_ & _ & _ & Ht & _). congruence.
  - intros Hsat h Hh.
    destruct (HF h Hh) as (v & _ & _ & _ & _ & [(f & Hf & _ & _ & _ & Hs) | Hsnap]).
    + destruct (Hsel _ _ Hs) as [[_ Hv]|[Ht _]]; [exact Hv | congruence].
    + now destruct Hsnap as (_ & _ & _ & _ & Hv).
Qed.

Lemma policy_bounds_statuses_witness :
  exists added,
    [leaf_hit] = ([] ++ added)%list
    /\ (truthy (includeSatisfied no_opts) = false ->
        forall h, In h added ->
          (status h = "VIOLATED" \/ status h = "SANITY_FAILED")
          /\ outputFile h <> None)
    /\ (truthy (includeSatisfied no_opts) = true ->
        forall h, In h added -> status h <> "VERIFIED").
Proof.
  apply (@policy_bounds_statuses group_node sample_run [] [] no_opts);
    [vm_compute; reflexivity | reflexivity | reflexivity].
Defined.

Lemma own_hits_policy runInfo opts opts' visit :
  policy_of opts = policy_of opts' ->
  own_hits runInfo opts visit = own_hits runInfo opts' visit.
Proof.
  unfold policy_of. intros [= Hsat Hall Hmatch].
  unfold own_hits, selects, matches_name. destruct visit as [path node].
  now rewrite Hsat, Hall, Hmatch.
Qed.

Lemma lower_of_upper s :
  sall is_ascii s = true -> toLowerCase (toUpperCase s) = toLowerCase s.
Proof.
  unfold toLowerCase, toUpperCase. induction s as [|c s IH]; [reflexivity|].
  cbn [sall smap]. intros H. apply andb_prop in H as [Hc Hs].
  now rewrite (lower_upper _ Hc), IH.
Qed.

Lemma nonempty_smap f s : nonempty (smap f s) = nonempty s.
Proof. destruct s; reflexivity. Qed.

Lemma sall_trimEnd (p : ascii -> bool) s : sall p s = true -> sall p (trimEnd s) = true.
Proof.
  induction s as [|c s IH]; [reflexivity|]. cbn [sall trimEnd]. intros H.
  apply andb_prop in H as [Hc Hs].
  destruct (blank (String c s)); [reflexivity|]. cbn [sall]. now rewrite Hc, IH.
Qed.

(** X5. The walk reads the options through their truth values and the
    trimmed, lower-cased pattern only: options with the same policy give the
    same walk; white space around an ASCII pattern and its letter case do
    not matter; a pattern of white space only is no pattern. *)
Theorem policy_is_normalised :
  (forall opts opts' node runInfo results currentPath,
      policy_of opts = policy_of opts' ->
      collectFailedRuleOutputs node runInfo results currentPath opts
      = collectFailedRuleOutputs node runInfo results currentPath opts')
  /\ (forall sat all m a b,
         blank a = true -> blank b = true -> sall is_ascii m = true ->
         policy_of {| includeSatisfied := sat; includeAll := all;
                      includeRuleMatch := JStr (a ++ toUpperCase m ++ b) |}
         = policy_of {| includeSatisfied := sat; includeAll := all;
                        includeRuleMatch := JStr m |})
  /\ (forall sat all m,
         blank m = true ->
         policy_of {| includeSatisfied := sat; includeAll := all;
                      includeRuleMatch := JStr m |}
         = policy_of {| includeSatisfied := sat; includeAll := all;
                        includeRuleMatch := JUndefined |}).
Proof.
  split; [|split].
  - intros opts opts' node runInfo results currentPath H.
    rewrite !collect_flat. apply for_of_ext. apply Forall_forall.
    intros v _ acc. unfold add_own. now rewrite (own_hits_policy _ _ H).
  - intros sat all m a b Ha Hb Hm. unfold policy_of, rule_match.
    cbn [includeSatisfied includeAll includeRuleMatch].
    rewrite trim_padded by assumption. rewrite trim_upper by exact Hm.
    unfold toUpperCase at 1. rewrite nonempty_smap, lower_of_upper; [reflexivity|].
    unfold trim. now apply sall_trimEnd, sall_trimStart.
  - intros sat all m Hm. unfold policy_of, rule_match.
    cbn [includeSatisfied includeAll includeRuleMatch].
    unfold trim, blank in *. destruct (trimStart m); [reflexivity | discriminate].
Qed.

Lemma policy_is_normalised_witness :
  policy_of (match_opts (utf8 160 ++ toUpperCase "Vault" ++ utf8 8232))
  = (false, false, Some "vault")
  /\ collectFailedRuleOutputs group_node sample_run [] []
       (match_opts (utf8 160 ++ toUpperCase "Vault" ++ utf8 8232))
     = Ok [group_hit; leaf_hit].
Proof.
  assert (H : policy_of (match_opts (utf8 160 ++ toUpperCase "Vault" ++ utf8 8232))
              = policy_of (match_opts "Vault")).
  { apply (proj1 (proj2 policy_is_normalised)); vm_compute; reflexivity. }
  split.
  - rewrite H. vm_compute. reflexivity.
  - rewrite (proj1 policy_is_normalised _ _ _ _ _ _ H). vm_compute. reflexivity.
Defined.

Lemma Forall2_app_l (A B : Type) (R : A -> B -> Prop) l1 l2 l :
  Forall2 R (l1 ++ l2) l ->
  exists m1 m2, l = (m1 ++ m2)%list /\ Forall2 R l1 m1 /\ Forall2 R l2 m2.
Proof.
  revert l. induction l1 as [|x l1 IH]; intros l H; cbn [app] in H.
  - exists [], l. auto.
  - inversion H as [|? y ? l' Hxy Hrest]; subst.
    destruct (IH _ Hrest) as (m1 & m2 & -> & H1 & H2).
    exists (y :: m1), m2. auto.
Qed.

(** X6. A successful walk of a node contains the walk of each of its
    children: the child, walked from the path of the node, succeeds, and
    every hit of it is a hit of the walk of the node. *)
Theorem descendants_are_walked :
  forall node child runInfo results currentPath opts hits,
    collectFailedRuleOutputs node runInfo results currentPath opts = Ok hits ->
    In child (children_of node) ->
    exists below,
      collectFailedRuleOutputs child runInfo [] (next_path currentPath node) opts
      = Ok below
      /\ incl below hits.
Proof.
  intros node child runInfo results currentPath opts hits H Hchild.
  rewrite collect_flat, preorder_unfold in H.
  assert (Ht : falsy node = false).
  { destruct node; try contradiction; reflexivity. }
  rewrite Ht in H.
  destruct (in_split _ _ Hchild) as (l1 & l2 & Hsplit).
  rewrite Hsplit, flat_map_app in H. cbn [flat_map] in H.
  apply walk_hits in H as (owns & Hall & ->).
  change ((next_path currentPath node, node)
          :: flat_map (preorder (next_path currentPath node)) l1
          ++ preorder (next_path currentPath node) child
          ++ flat_map (preorder (next_path currentPath node)) l2)%list
    with (((next_path currentPath node, node)
           :: flat_map (preorder (next_path currentPath node)) l1)
          ++ preorder (next_path currentPath node) child
          ++ flat_map (preorder (next_path currentPath node)) l2)%list in Hall.
  apply Forall2_app_l in Hall as (m1 & m & -> & _ & Hall).
  apply Forall2_app_l in Hall as (m2 & m3 & -> & Hmid & _).
  exists (concat m2). split.
  - rewrite collect_flat. apply walk_hits. exists m2. auto.
  - intros h Hh. rewrite !concat_app. apply in_or_app. right.
    apply in_or_app. right. apply in_or_app. now left.
Qed.

Lemma descendants_are_walked_witness :
  exists below,
    collectFailedRuleOutputs violated_leaf sample_run [] (next_path [] group_node)
      all_opts = Ok below
    /\ incl below [group_hit; leaf_hit].
Proof.
  apply (@descendants_are_walked group_node violated_leaf sample_run [] [] all_opts).
  - vm_compute; reflexivity.
  - vm_compute. left. reflexivity.
Defined.

Lemma selects_widens opts opts' path st :
  widens opts opts' -> selects opts path st = true -> selects opts' path st = true.
Proof.
  intros (Hsat & Hall & Hmatch). unfold selects, matches_name.
  intros H. rewrite !orb_true_iff in H. destruct H as [[[H|H]|H]|H].
  - destruct Hmatch as [E|E]; [now rewrite E in H|]. rewrite <- E, H. reflexivity.
  - rewrite (Hall H). now rewrite orb_true_r.
  - apply andb_prop in H as [H1 H2]. rewrite (Hsat H1), H2. cbn.
    now rewrite !orb_true_r.
  - apply andb_prop in H as [_ H2].
    destruct (truthy (includeSatisfied opts')); cbn [negb andb].
    + assert (Hv : negb (st =? "VERIFIED") = true).
      { apply orb_prop in H2 as [E|E]; apply String.eqb_eq in E; now subst st. }
      rewrite Hv. now rewrite !orb_true_r.
    + rewrite H2. now rewrite !orb_true_r.
Qed.

Lemma own_hits_widen runInfo opts opts' visit own own' :
  widens opts opts' ->
  own_hits runInfo opts visit = Ok own ->
  own_hits runInfo opts' visit = Ok own' ->
  incl own own'.
Proof.
  intros Hw. pose proof Hw as (Hsat & _ & _).
  destruct visit as [path node]. unfold own_hits.
  destruct (node_status node) as [st|e]; cbn [bind]; [|discriminate].
  destruct (nonempty st && (0 <? length (output_of node))%nat && selects opts path st)
    eqn:Hc.
  - apply andb_prop in Hc as [Hc Hsel]. rewrite Hc.
    rewrite (@selects_widens opts opts' path st Hw Hsel). cbn [andb].
    intros [= <-] [= <-]. apply incl_refl.
  - destruct (truthy (includeSatisfied opts) && nonempty st
              && (length (output_of node) =? 0)%nat && negb (st =? "VERIFIED"))
      eqn:Hc2; [|intros [= <-] _; intros h []].
    apply andb_prop in Hc2 as [Hc2 Hver]. apply andb_prop in Hc2 as [Hc2 Hlen].
    apply andb_prop in Hc2 as [Hs Hne].
    rewrite (Hsat Hs), Hne, Hlen, Hver. cbn [andb].
    apply Nat.eqb_eq in Hlen. rewrite Hlen. cbn [Nat.ltb Nat.leb andb].
    destruct (take_snapshot node st) as [snap|]; cbn [bind]; [|discriminate].
    intros [= <-] [= <-]. apply incl_refl.
Qed.

Lemma walk_widens runInfo opts opts' visits owns owns' :
  widens opts opts' ->
  Forall2 (fun v own => own_hits runInfo opts v = Ok own) visits owns ->
  Forall2 (fun v own => own_hits runInfo opts' v = Ok own) visits owns' ->
  incl (concat owns) (concat owns').
Proof.
  intros Hw H. revert owns'.
  induction H as [|v own visits owns Hv _ IH]; intros owns' H'.
  - intros h [].
  - inversion H' as [|? own' ? rest' Hv' Hrest']; subst. cbn [concat].
    apply incl_app.
    + apply incl_appl. exact (@own_hits_widen _ _ _ _ _ _ Hw Hv Hv').
    + apply incl_appr. now apply IH.
Qed.

(** X7. Asking for more never loses a hit: when [opts'] sets every flag
    that [opts] sets and keeps its pattern, a walk that succeeds under [opts]
    succeeds under [opts'] and every hit of the first is a hit of the
    second. *)
Theorem wider_options_keep_every_hit :
  forall node runInfo currentPath opts opts' hits,
    widens opts opts' ->
    collectFailedRuleOutputs node runInfo [] currentPath opts = Ok hits ->
    exists hits',
      collectFailedRuleOutputs node runInfo [] currentPath opts' = Ok hits'
      /\ incl hits hits'.
Proof.
  intros node runInfo currentPath opts opts' hits Hw H.
  rewrite collect_flat in *.
  destruct (for_of (add_own runInfo opts') (preorder currentPath node) [])
    as [hits'|e] eqn:H'.
  - exists hits'. split; [reflexivity|].
    apply walk_hits in H as (owns & Hall & ->).
    apply walk_hits in H' as (owns' & Hall' & ->).
    cbn [app]. exact (@walk_widens _ _ _ _ _ _ Hw Hall Hall').
  - apply walk_throws in H' as [-> Hbad].
    assert (Ht : for_of (add_own runInfo opts) (preorder currentPath node) []
                 = Throw TypeError) by (apply walk_throws; auto).
    congruence.
Qed.

Lemma wider_options_keep_every_hit_witness :
  exists hits',
    collectFailedRuleOutputs group_node sample_run [] [] all_opts = Ok hits'
    /\ incl [leaf_hit] hits'.
Proof.
  apply (@wider_options_keep_every_hit group_node sample_run [] no_opts all_opts).
  - split; [discriminate|]. split; [discriminate|]. left. reflexivity.
  - vm_compute; reflexivity.
Defined.

(** ** More on the progress document *)

Lemma is_json_field k v : is_json v = true -> is_json (JObj [(k, v)]) = true.
Proof. intros H. cbn [is_json forallb distinct_keys lookup]. now rewrite H. Qed.

Lemma roots_of_text doc :
  is_json doc = true -> truthy doc = true -> is_string doc = false ->
  getProgressRoots (JStr (stringify doc)) = getProgressRoots doc.
Proof.
  intros Hj Ht Hs. unfold getProgressRoots, falsy. cbn [truthy].
  rewrite stringify_nonempty by exact Hj. rewrite Ht. cbn [negb].
  rewrite (parseMaybeJson_text _ Hj).
  now destruct doc.
Qed.

(** X8. The same array of roots is found under every envelope the
    function knows: bare, under [rules] or [children], under
    [verificationProgress] as an array or under its [rules] or [children],
    with the inner document written as JSON text, and with the whole
    document written as JSON text once more. The roots are any JSON values,
    their numbers whole or fractional. *)
Theorem roots_under_every_envelope :
  forall l,
    is_json (JArr l) = true ->
    getProgressRoots (JArr l) = Ok l
    /\ getProgressRoots (JObj [("rules", JArr l)]) = Ok l
    /\ getProgressRoots (JObj [("children", JArr l)]) = Ok l
    /\ getProgressRoots (JObj [("verificationProgress", JArr l)]) = Ok l
    /\ getProgressRoots (JObj [("verificationProgress", JObj [("rules", JArr l)])]) = Ok l
    /\ getProgressRoots (JObj [("verificationProgress", JObj [("children", JArr l)])])
       = Ok l
    /\ getProgressRoots
         (JObj [("verificationProgress", JStr (stringify (JObj [("rules", JArr l)])))])
       = Ok l
    /\ getProgressRoots
         (JStr (stringify
            (JObj [("verificationProgress",
                    JStr (stringify (JObj [("rules", JArr l)])))])))
       = Ok l.
Proof.
  intros l Hl. repeat (split; [reflexivity|]).
  assert (Hin : is_json (JObj [("rules", JArr l)]) = true) by now apply is_json_field.
  assert (Hone : getProgressRoots
                   (JObj [("verificationProgress",
                           JStr (stringify (JObj [("rules", JArr l)])))]) = Ok l).
  { unfold getProgressRoots. cbn [falsy truthy negb parseMaybeJson].
    unfold inner_roots. cbn [truthy member bind].
    change (prop (JObj [("verificationProgress",
                         JStr (stringify (JObj [("rules", JArr l)])))])
              "verificationProgress")
      with (JStr (stringify (JObj [("rules", JArr l)]))).
    cbn [not_null]. rewrite (parseMaybeJson_text _ Hin). reflexivity. }
  split; [exact Hone|].
  assert (Hout : is_json (JObj [("verificationProgress",
                                 JStr (stringify (JObj [("rules", JArr l)])))]) = true)
    by reflexivity.
  now rewrite roots_of_text.
Qed.

Lemma roots_under_every_envelope_witness :
  getProgressRoots (JObj [("verificationProgress", JObj [("children", JArr sample_numbers)])])
  = Ok sample_numbers
  /\ getProgressRoots
       (JObj [("verificationProgress",
               JStr ("{" ++ quote "rules" ++ ":" ++ numbers_text ++ "}"))])
     = Ok sample_numbers
  /\ getProgressRoots
       (JStr (stringify
          (JObj [("verificationProgress",
                  JStr ("{" ++ quote "rules" ++ ":" ++ numbers_text ++ "}"))])))
     = Ok sample_numbers.
Proof.
  destruct (@roots_under_every_envelope sample_numbers eq_refl)
    as (_ & _ & _ & _ & _ & Hchildren & Htext & Htwice).
  split; [exact Hchildren|]. split; [exact Htext | exact Htwice].
Defined.

(** X9. [getProgressRoots] never throws, and it returns no roots for a
    falsy value, for a number or a boolean, and for an object that has none
    of the keys [verificationProgress], [rules] and [children]. *)
Theorem roots_of_unusable_input :
  (forall v, exists roots, getProgressRoots v = Ok roots)
  /\ (forall v, falsy v = true -> getProgressRoots v = Ok [])
  /\ (forall v, typeof_object v = false -> is_string v = false ->
                getProgressRoots v = Ok [])
  /\ (forall fields,
         lookup "verificationProgress" fields = None ->
         lookup "rules" fields = None -> lookup "children" fields = None ->
         getProgressRoots (JObj fields) = Ok []).
Proof.
  split; [apply getProgressRoots_total|]. split; [|split].
  - intros v Hv. unfold getProgressRoots. now rewrite Hv.
  - intros v Ho Hs. destruct v as [| |[]|z| | |]; try discriminate; try reflexivity.
    unfold getProgressRoots, falsy, inner_roots, and_member.
    cbn [truthy parseMaybeJson]. destruct z as [?|[]| |? ? ?]; reflexivity.
  - intros fields Hv Hr Hc. unfold getProgressRoots, inner_roots, and_member.
    cbn [falsy truthy negb parseMaybeJson member prop bind].
    rewrite Hv, Hr, Hc. reflexivity.
Qed.

Lemma roots_of_unusable_input_witness :
  getProgressRoots (JObj [("jobStatus", JStr "RUNNING")]) = Ok [].
Proof.
  apply (proj2 (proj2 (proj2 roots_of_unusable_input))); reflexivity.
Defined.



(** X11. [parseMaybeJson] undoes [JSON.stringify]: the text of a JSON
    document reads back as the document, and a document encoded twice is
    recovered by decoding twice. A JSON document is a value that
    [JSON.parse] can return, with numbers, whole or fractional, that are
    read back from their text. *)
Theorem parseMaybeJson_reads_json_text :
  forall v,
    is_json v = true ->
    parseMaybeJson (JSON_stringify v) = v
    /\ parseMaybeJson (parseMaybeJson (JSON_stringify (JSON_stringify v))) = v.
Proof.
  intros v Hj.
  assert (Henc : JSON_stringify v = JStr (stringify v)).
  { destruct v; try reflexivity. discriminate. }
  rewrite Henc. cbn [JSON_stringify].
  rewrite !parseMaybeJson_text; auto.
Qed.

Lemma parseMaybeJson_reads_json_text_witness :
  (parseMaybeJson (JStr numbers_text) = JArr sample_numbers
   /\ parseMaybeJson (parseMaybeJson (JSON_stringify (JStr numbers_text)))
      = JArr sample_numbers)
  /\ parseMaybeJson (JSON_stringify sample_rules) = sample_rules
  /\ parseMaybeJson (parseMaybeJson (JSON_stringify (JSON_stringify sample_rules)))
     = sample_rules.
Proof.
  split.
  - exact (@parseMaybeJson_reads_json_text (JArr sample_numbers) eq_refl).
  - exact (@parseMaybeJson_reads_json_text sample_rules eq_refl).
Defined.

(** ** More on the job metadata *)

Lemma count_element_spec p f r :
  readable_element r = true ->
  count_element (p, f) r
  = Ok (if element_passes r then ((p + 1)%Z, f) else (p, (f + 1)%Z)).
Proof.
  unfold readable_element, count_element, element_passes, element_status.
  intros H. apply andb_prop in H as [Hn Hs].
  assert (Hm : member r "status" = Ok (prop r "status")).
  { destruct r; try discriminate; reflexivity. }
  rewrite Hm. cbn [bind]. unfold js_or.
  destruct (prop r "status") as [| |[]|z|s|l|fields]; cbn in Hs |- *;
    try discriminate; try reflexivity.
  - destruct z as [?|[]| |? ? ?]; first [discriminate | reflexivity].
  - destruct (nonempty s); cbn [call_toUpperCase bind];
      try match goal with
          | |- context [if ?c then _ else _] => destruct c
          end; reflexivity.
Qed.

Lemma count_element_throws p f r e :
  count_element (p, f) r = Throw e <-> e = TypeError /\ readable_element r = false.
Proof.
  destruct (readable_element r) eqn:Hr.
  - rewrite count_element_spec by exact Hr.
    split; [destruct (element_passes r); discriminate | intros [_ H]; discriminate].
  - unfold readable_element in Hr. unfold count_element.
    destruct r as [| |b|z|s|l|fields]; cbn [member bind];
      try (split; [intros [= <-]; auto | intros [-> _]; reflexivity]);
      cbn [not_null andb] in Hr; unfold js_or;
      (destruct (prop _ "status") as [| |[]|z'|s'|l'|fields'] eqn:E;
       cbn [truthy is_string negb orb] in Hr |- *; try discriminate Hr;
       try (destruct z' as [?|[]| |? ? ?]; try discriminate Hr);
       cbn [call_toUpperCase bind];
       (split; [intros [= <-]; auto | intros [-> _]; reflexivity])).
Qed.




Lemma for_of_throws (A B : Type) (step : B -> A -> result B) (bad : A -> bool) :
  (forall acc x e, step acc x = Throw e <-> e = TypeError /\ bad x = true) ->
  forall l acc e,
    for_of step l acc = Throw e <-> e = TypeError /\ existsb bad l = true.
Proof.
  intros Hstep. induction l as [|x l IH]; intros acc e; cbn [for_of existsb].
  - split; [discriminate | intros [_ H]; discriminate].
  - destruct (step acc x) as [acc'|e'] eqn:Hx; cbn [bind].
    + assert (Hb : bad x = false).
      { destruct (bad x) eqn:E; [|reflexivity].
        assert (Ht : step acc x = Throw TypeError) by (apply Hstep; auto).
        congruence. }
      rewrite Hb. cbn [orb]. apply IH.
    + apply Hstep in Hx as [-> Hb]. rewrite Hb. cbn [orb].
      split; [intros [= <-]; auto | intros [-> _]; reflexivity].
Qed.

Lemma count_entry_throws acc kv e :
  count_entry acc kv = Throw e <-> e = TypeError /\ is_null (snd kv) = true.
Proof.
  destruct acc as [p f]. destruct kv as [k val]. unfold count_entry. cbn [snd].
  destruct val as [| |b|z|s|l|fields]; cbn [typeof_object member bind is_null];
    try (split; [discriminate | intros [_ H]; discriminate]).
  - split; [intros [= <-]; auto | intros [-> _]; reflexivity].
  - destruct (s =? "SUCCESS"); split; try discriminate; intros [_ H]; discriminate.
  - match goal with |- context [if ?c then _ else _] => destruct c end;
      split; try discriminate; intros [_ H]; discriminate.
  - match goal with |- context [if ?c then _ else _] => destruct c end;
      split; try discriminate; intros [_ H]; discriminate.
Qed.

Lemma count_element_throws' acc r e :
  count_element acc r = Throw e <->
  e = TypeError /\ negb (readable_element r) = true.
Proof.
  destruct acc as [p f]. rewrite count_element_throws, negb_true_iff. reflexivity.
Qed.

(** X13. [parseJobMetadata] throws exactly when [rules] is a keyed
    object with a [null] entry, or an array with an element that is [null] or
    [undefined] or whose status is truthy and not a string; what it throws is
    a TypeError. *)
Theorem metadata_throws_exactly_on_unreadable_rules :
  forall data e,
    parseJobMetadata data = Throw e <->
    e = TypeError
    /\ ((exists entries,
            prop data "rules" = JObj entries
            /\ existsb (fun kv => is_null (snd kv)) entries = true)
        \/ (exists l,
               prop data "rules" = JArr l
               /\ existsb (fun r => negb (readable_element r)) l = true)).
Proof.
  intros data e.
  destruct data as [| |b|z|s|l0|fields];
    try (split; [discriminate
                | intros [_ [(en & H & _) | (l & H & _)]]; discriminate]).
  - unfold parseJobMetadata. cbn [falsy truthy typeof_object negb orb].
    destruct b; split; try discriminate;
      intros [_ [(en & H & _) | (l & H & _)]]; discriminate.
  - unfold parseJobMetadata. cbn [falsy truthy typeof_object negb orb].
    rewrite orb_true_r. split; [discriminate|].
    intros [_ [(en & H & _) | (l & H & _)]]; discriminate.
  - unfold parseJobMetadata. cbn [falsy truthy typeof_object negb orb].
    rewrite orb_true_r. split; [discriminate|].
    intros [_ [(en & H & _) | (l & H & _)]]; discriminate.
  - unfold parseJobMetadata. cbn [falsy truthy typeof_object negb orb].
    destruct (prop (JObj fields) "rules") as [| |b|z|s|l|entries] eqn:Hr;
      cbn [truthy typeof_object isArray andb negb bind Object_entries as_array];
      try (split; [discriminate
                  | intros [_ [(en & H & _) | (l' & H & _)]]; discriminate]).
    + destruct b; cbn [bind]; split; try discriminate;
        intros [_ [(en & H & _) | (l' & H & _)]]; discriminate.
    + destruct z as [?|[]| |? ? ?]; cbn [bind truthy]; split; try discriminate;
        intros [_ [(en & H & _) | (l' & H & _)]]; discriminate.
    + destruct (nonempty s); cbn [bind]; split; try discriminate;
        intros [_ [(en & H & _) | (l' & H & _)]]; discriminate.
    + pose proof (@for_of_throws _ _ count_element
                    (fun r => negb (readable_element r)) count_element_throws'
                    l (0%Z, 0%Z) e) as Hl.
      destruct (for_of count_element l (0%Z, 0%Z)) as [c|e'] eqn:E; cbn [bind].
      * split; [discriminate|].
        intros [He [(en & H & _) | (l' & [= <-] & Hbad)]]; [discriminate|].
        assert (Ht : Throw e = Throw e :> result (Z * Z)) by reflexivity.
        destruct Hl as [_ Hl]. specialize (Hl (conj He Hbad)). discriminate.
      * split.
        -- intros [= <-]. destruct Hl as [Hl _]. destruct (Hl eq_refl) as [He Hb].
           split; [exact He|]. right. eauto.
        -- intros [He _]. destruct Hl as [Hl _].
           assert (He' : e' = TypeError).
           { pose proof (@for_of_throws _ _ count_element
                           (fun r => negb (readable_element r)) count_element_throws'
                           l (0%Z, 0%Z) e') as Hl'.
             now apply Hl'. }
           congruence.
    + pose proof (@for_of_throws _ _ count_entry
                    (fun kv => is_null (snd kv)) count_entry_throws
                    entries (0%Z, 0%Z)) as Hl.
      destruct (for_of count_entry entries (0%Z, 0%Z)) as [c|e'] eqn:E; cbn [bind].
      * split; [discriminate|].
        intros [He [(en & [= <-] & Hbad) | (l' & H & _)]]; [|discriminate].
        destruct (Hl e) as [_ Hl']. specialize (Hl' (conj He Hbad)). discriminate.
      * destruct (Hl e') as [Hl' _]. destruct (Hl' eq_refl) as [-> Hb].
        split.
        -- intros [= <-]. split; [reflexivity|]. left. eauto.
        -- intros [-> _]. reflexivity.
Qed.

Lemma metadata_throws_exactly_on_unreadable_rules_witness :
  parseJobMetadata (JObj [("rules", JArr [JObj [("status", JStr "VERIFIED")]; JNull])])
  = Throw TypeError.
Proof.
  apply (proj2 (metadata_throws_exactly_on_unreadable_rules
                  (JObj [("rules", JArr [JObj [("status", JStr "VERIFIED")]; JNull])])
                  TypeError)).
  split; [reflexivity|]. right.
  exists [JObj [("status", JStr "VERIFIED")]; JNull]. split; reflexivity.
Defined.






Lemma counters_grow (A : Type) (step : Z * Z -> A -> result (Z * Z)) :
  (forall p f x p' f',
      step (p, f) x = Ok (p', f') ->
      (p <= p' /\ f <= f' /\ p' + f' <= p + f + 1)%Z) ->
  forall l p f p' f',
    for_of step l (p, f) = Ok (p', f') ->
    (p <= p' /\ f <= f' /\ p' + f' <= p + f + Z.of_nat (length l))%Z.
Proof.
  intros Hstep. induction l as [|x l IH]; intros p f p' f'; cbn [for_of length].
  - intros [= <- <-]. lia.
  - destruct (step (p, f) x) as [[p1 f1]|e] eqn:Hx; cbn [bind]; [|discriminate].
    intros H. apply IH in H. apply Hstep in Hx. lia.
Qed.

Lemma count_entry_grows p f kv p' f' :
  count_entry (p, f) kv = Ok (p', f') ->
  (p <= p' /\ f <= f' /\ p' + f' <= p + f + 1)%Z.
Proof.
  unfold count_entry. destruct (snd kv) as [| |b|z|s|l|fields];
    cbn [typeof_object member bind];
    try (intros [= <- <-]; lia); try discriminate;
    match goal with |- context [if ?c then _ else _] => destruct c end;
    intros [= <- <-]; lia.
Qed.

Lemma count_element_grows p f r p' f' :
  count_element (p, f) r = Ok (p', f') ->
  (p <= p' /\ f <= f' /\ p' + f' <= p + f + 1)%Z.
Proof.
  unfold count_element.
  destruct (member r "status") as [st|]; cbn [bind]; [|discriminate].
  destruct (call_toUpperCase (js_or st (JStr ""))) as [s|]; cbn [bind]; [|discriminate].
  match goal with |- context [if ?c then _ else _] => destruct c end;
    intros [= <- <-]; lia.
Qed.

(** X15. The result is [null] exactly for a falsy or non-object
    document. Otherwise the summary is absent exactly when [rules] is falsy;
    when present its total is the sum of its two counters, which are not
    negative, and it never exceeds the number of rules. *)
Theorem metadata_summary_is_consistent :
  (forall data,
      parseJobMetadata data = Ok None <->
      falsy data || negb (typeof_object data) = true)
  /\ (forall data meta,
         parseJobMetadata data = Ok (Some meta) ->
         (rulesSummary meta = None <-> truthy (prop data "rules") = false)
         /\ forall s,
              rulesSummary meta = Some s ->
              (total s = passed s + failed s /\ 0 <= passed s /\ 0 <= failed s
               /\ total s <= rule_count (prop data "rules"))%Z).
Proof.
  split.
  - intros data. unfold parseJobMetadata.
    destruct (falsy data || negb (typeof_object data)); [now split|].
    split; [|discriminate].
    match goal with
    | |- (x <- ?m ;; _) = _ -> _ => destruct m
    end; discriminate.
  - intros data meta. unfold parseJobMetadata.
    destruct (falsy data || negb (typeof_object data)); [discriminate|].
    destruct (truthy (prop data "rules")) eqn:Ht.
    + set (counting := if typeof_object (prop data "rules")
                          && negb (isArray (prop data "rules"))
                       then for_of count_entry (Object_entries (prop data "rules"))
                              (0%Z, 0%Z)
                       else if isArray (prop data "rules")
                            then for_of count_element (as_array (prop data "rules"))
                                   (0%Z, 0%Z)
                            else Ok (0%Z, 0%Z)).
      destruct counting as [[p f]|e] eqn:Hc; cbn [bind fst snd]; [|discriminate].
      intros [= <-]. cbn [rulesSummary]. split; [split; discriminate|].
      intros s [= <-]. cbn [total passed failed].
      assert (Hb : (0 <= p /\ 0 <= f /\ p + f <= rule_count (prop data "rules"))%Z).
      { subst counting.
        destruct (prop data "rules") as [| |b|z|s|l|entries];
          cbn [typeof_object isArray andb negb Object_entries as_array rule_count]
            in Hc |- *;
          try (injection Hc as <- <-; lia).
        - apply (@counters_grow _ count_element (@count_element_grows)) in Hc. lia.
        - apply (@counters_grow _ count_entry (@count_entry_grows)) in Hc. lia. }
      lia.
    + cbn [bind]. intros [= <-]. cbn [rulesSummary].
      split; [now split | discriminate].
Qed.

Lemma metadata_summary_is_consistent_witness :
  exists meta,
    parseJobMetadata (JObj [("rules", sample_rules)]) = Ok (Some meta)
    /\ forall s,
         rulesSummary meta = Some s ->
         (total s = passed s + failed s /\ 0 <= passed s /\ 0 <= failed s
          /\ total s <= rule_count (prop (JObj [("rules", sample_rules)]) "rules"))%Z.
Proof.
  assert (H : parseJobMetadata (JObj [("rules", sample_rules)])
              = Ok (Some {| jobStatus := JNull; proverTime := JNull;
                            contractName := JNull; specFile := JNull;
                            solcVersion := JNull; proverVersion := JNull;
                            ruleSanity := JNull;
                            rulesSummary := Some {| passed := 1; failed := 2;
                                                    total := 3 |} |}))
    by (vm_compute; reflexivity).
  eexists. split; [exact H|].
  apply (proj2 metadata_summary_is_consistent _ _ H).
Defined.

(** ** More on addresses *)

Lemma scan_second_undefined parts : forall n i r o,
  (0 <= i)%Z ->
  scan_parts parts n i = (r, o) -> r = None -> o = None.
Proof.
  induction n as [|n IH]; intros i r o Hi; cbn [scan_parts].
  - now intros [= <- <-].
  - destruct (is_token "output" (at_index parts i)
              && negb (is_token "outputs" (at_index parts (i - 1)))).
    + intros [= <- <-]. unfold at_index.
      destruct (i + 1 <? 0)%Z eqn:E1; [lia|].
      destruct (i + 2 <? 0)%Z eqn:E2; [lia|].
      intros Hnone. apply nth_error_None in Hnone. apply nth_error_None. lia.
    + apply IH. lia.
Qed.

(** X16. Parsing a run URL and building the result address gives
    [https://host/result/<R>/<O>], whatever the key and the trailing slashes,
    for a host that is a domain name in lower case, [R] and [O] non-empty and
    made of letters, digits, [-], [_] and [~], and a key made of letters,
    digits and [- . _ ~ / = + % *] that decodes to well-formed UTF-8. When
    parsing any string finds no run id it finds no output id either, and the
    result address then ends in [/result/undefined/undefined]. *)
Theorem result_address_of_run_url :
  (forall h r o k n,
      plain_host h = true -> plain_segment r = true -> plain_segment o = true ->
      coded_key k = true ->
      valid_utf8 (form_decode (drop_end (Ascii.eqb "/") k)) = true ->
      exists info,
        parseRunInfo (run_url h r o k ++ slashes n) = Some (Ok info)
        /\ buildResultBaseUrl info = "https://" ++ h ++ "/result/" ++ r ++ "/" ++ o)
  /\ (forall urlStr info,
         parseRunInfo urlStr = Some (Ok info) ->
         runId info = None ->
         outputId info = None
         /\ buildResultBaseUrl info = origin info ++ "/result/undefined/undefined").
Proof.
  split.
  - intros h r o k n Hh Hr Ho Hk Hv.
    rewrite parseRunInfo_run by assumption. eexists. split; [reflexivity|].
    unfold buildResultBaseUrl. cbn [origin runId outputId tpl].
    now rewrite !sapp_assoc.
  - intros urlStr info. unfold parseRunInfo.
    destruct (URL_new (drop_end (Ascii.eqb "/") urlStr)) as [[u|e]|]; cbn [bind];
      try discriminate.
    unfold run_info. destruct (scan_parts _ _ _) as [r o] eqn:Hscan.
    intros [= <-]. cbn [runId outputId]. intros ->.
    apply scan_second_undefined in Hscan; [|lia|reflexivity]. subst o.
    split; reflexivity.
Qed.

Lemma result_address_of_run_url_witness :
  exists info,
    parseRunInfo
      "https://prover.certora.com/output/12345/abcdef?anonymousKey=s3cr%2Bt//"
    = Some (Ok info)
    /\ buildResultBaseUrl info = "https://prover.certora.com/result/12345/abcdef".
Proof.
  exact (proj1 result_address_of_run_url
           "prover.certora.com" "12345" "abcdef" "s3cr%2Bt" 2
           eq_refl eq_refl eq_refl eq_refl eq_refl).
Defined.

Lemma hex_round_trip c rest :
  form_decode (form_encode_char c ++ rest) = String c (form_decode rest).
Proof.
  destruct c as [[] [] [] [] [] [] [] []]; reflexivity.
Qed.

Lemma form_round_trip s : form_decode (form_encode s) = s.
Proof.
  induction s as [|c s IH]; [reflexivity|].
  cbn [form_encode]. now rewrite hex_round_trip, IH.
Qed.

Lemma form_encode_char_clean c :
  sall (fun x => negb (Ascii.eqb x "&") && negb (Ascii.eqb x "=")
                 && negb (Ascii.eqb x "#") && negb (Ascii.eqb x "?"))
    (form_encode_char c) = true.
Proof.
  destruct c as [[] [] [] [] [] [] [] []]; reflexivity.
Qed.

Lemma form_encode_clean s :
  sall (fun x => negb (Ascii.eqb x "&") && negb (Ascii.eqb x "=")
                 && negb (Ascii.eqb x "#") && negb (Ascii.eqb x "?"))
    (form_encode s) = true.
Proof.
  induction s as [|c s IH]; [reflexivity|].
  cbn [form_encode]. now rewrite sall_app, form_encode_char_clean, IH.
Qed.

Lemma form_encode_no_amp s :
  sall (fun c => negb (Ascii.eqb c "&")) (form_encode s) = true.
Proof.
  generalize (form_encode_clean s). apply sall_impl.
  intros c Hc. now destruct (Ascii.eqb c "&").
Qed.

Lemma output_pair f :
  query_pair ("output=" ++ form_encode f) = ("output", f).
Proof.
  change (query_pair ("output=" ++ form_encode f))
    with ("output", form_decode (form_encode f)).
  now rewrite form_round_trip.
Qed.

Lemma key_pair k :
  query_pair ("anonymousKey=" ++ form_encode k) = ("anonymousKey", k).
Proof.
  change (query_pair ("anonymousKey=" ++ form_encode k))
    with ("anonymousKey", form_decode (form_encode k)).
  now rewrite form_round_trip.
Qed.

Lemma form_encode_char_query c : sall query_char (form_encode_char c) = true.
Proof.
  destruct c as [[] [] [] [] [] [] [] []]; reflexivity.
Qed.

Lemma form_encode_query s : sall query_char (form_encode s) = true.
Proof.
  induction s as [|c s IH]; [reflexivity|].
  cbn [form_encode]. now rewrite sall_app, form_encode_char_query, IH.
Qed.

Lemma hit_pairs k f :
  query_pairs ((if nonempty k then "anonymousKey=" ++ form_encode k ++ "&" else "")
               ++ "output=" ++ form_encode f)
  = ((if nonempty k then [("anonymousKey", k)] else []) ++ [("output", f)])%list.
Proof.
  unfold query_pairs. destruct (nonempty k) eqn:Hk.
  - replace (("anonymousKey=" ++ form_encode k ++ "&") ++ "output=" ++ form_encode f)
      with (("anonymousKey=" ++ form_encode k)
            ++ String "&" ("output=" ++ form_encode f))
      by (now rewrite !sapp_assoc).
    rewrite split_at, split_none.
    + change (filter nonempty ["anonymousKey=" ++ form_encode k;
                               "output=" ++ form_encode f])
        with ["anonymousKey=" ++ form_encode k; "output=" ++ form_encode f].
      cbn [map]. now rewrite key_pair, output_pair.
    + change (sall (fun c => negb (Ascii.eqb c "&")) ("output=" ++ form_encode f))
        with (sall (fun c => negb (Ascii.eqb c "&")) (form_encode f)).
      apply form_encode_no_amp.
    + change (sall (fun c => negb (Ascii.eqb c "&")) ("anonymousKey=" ++ form_encode k))
        with (sall (fun c => negb (Ascii.eqb c "&")) (form_encode k)).
      apply form_encode_no_amp.
  - change ("" ++ "output=" ++ form_encode f) with ("output=" ++ form_encode f).
    rewrite split_none.
    + change (filter nonempty ["output=" ++ form_encode f])
        with ["output=" ++ form_encode f].
      cbn [map]. now rewrite output_pair.
    + change (sall (fun c => negb (Ascii.eqb c "&")) ("output=" ++ form_encode f))
        with (sall (fun c => negb (Ascii.eqb c "&")) (form_encode f)).
      apply form_encode_no_amp.
Qed.

(** X17. The URL of a hit reads back. For a run on a host that is a domain
    name in lower case, with run and output ids that are non-empty and made
    of letters, digits, [-], [_] and [~], and for a key and a file name that
    are well-formed UTF-8, whatever characters they contain: the URL parser
    accepts the URL of the hit, with the host of the run and the path
    [/result/<R>/<O>]; its [output] parameter is the file name and its
    [anonymousKey] parameter is the key; there is no [anonymousKey]
    parameter when the key is empty. *)
Theorem hit_url_reads_back :
  forall h r o k f,
    plain_host h = true -> plain_segment r = true -> plain_segment o = true ->
    valid_utf8 k = true -> valid_utf8 f = true ->
    exists u,
      URL_new (hit_url (run_at h r o k) f) = Some (Ok u)
      /\ protocol u = "https:" /\ host u = h
      /\ pathname u = "/result/" ++ r ++ "/" ++ o
      /\ params_get "output" (searchParams u) = Some f
      /\ params_get "anonymousKey" (searchParams u)
         = (if nonempty k then Some k else None).
Proof.
  intros h r o k f Hh Hr Ho Hvk Hvf.
  apply andb_prop in Hr as [_ Hr]. apply andb_prop in Ho as [_ Ho].
  set (q := (if nonempty k then "anonymousKey=" ++ form_encode k ++ "&" else "")
            ++ "output=" ++ form_encode f).
  assert (Hurl : hit_url (run_at h r o k) f
                 = "https://" ++ h ++ ("/result/" ++ r ++ "/" ++ o)
                   ++ query_text (Some q)).
  { rewrite hit_url_encoded. unfold encoded_url, buildResultBaseUrl, run_at, q.
    cbn [origin runId outputId anonymousKey tpl query_text].
    now rewrite !sapp_assoc. }
  assert (Hq : plain_query q = true).
  { unfold plain_query. apply andb_true_intro. split.
    - unfold q. rewrite sall_app.
      change (sall query_char ("output=" ++ form_encode f))
        with (sall query_char (form_encode f)).
      rewrite form_encode_query, andb_true_r.
      destruct (nonempty k); [|reflexivity].
      change (sall query_char ("anonymousKey=" ++ form_encode k ++ "&"))
        with (sall query_char (form_encode k ++ "&")).
      now rewrite sall_app, form_encode_query.
    - unfold q. rewrite hit_pairs.
      destruct (nonempty k); cbn [app forallb fst snd]; now rewrite ?Hvk, Hvf. }
  eexists. split.
  { rewrite Hurl. apply URL_new_plain; trivial.
    - change ("/result/" ++ r ++ "/" ++ o)
        with ("/result/" ++ (r ++ "/" ++ o)).
      change (sall path_char ("/result/" ++ (r ++ "/" ++ o)))
        with (sall path_char (r ++ "/" ++ o)).
      rewrite sall_app, (@segment_in_path r Hr).
      change (sall path_char ("/" ++ o)) with (sall path_char o).
      now rewrite (@segment_in_path o Ho).
    - now right. }
  cbn [protocol host pathname nonempty String.append].
  repeat (split; [reflexivity|]).
  unfold searchParams. cbn [search query_of]. unfold q. rewrite hit_pairs.
  destruct (nonempty k); split; reflexivity.
Qed.

Lemma hit_url_reads_back_witness :
  hit_url (run_at "prover.certora.com" "111" "aaa" "k 1&x") "tree View/out#1.json"
  = "https://prover.certora.com/result/111/aaa?anonymousKey=k+1%26x&output=tree+View%2Fout%231.json"
  /\ exists u,
       URL_new "https://prover.certora.com/result/111/aaa?anonymousKey=k+1%26x&output=tree+View%2Fout%231.json"
       = Some (Ok u)
       /\ protocol u = "https:" /\ host u = "prover.certora.com"
       /\ pathname u = "/result/111/aaa"
       /\ params_get "output" (searchParams u) = Some "tree View/out#1.json"
       /\ params_get "anonymousKey" (searchParams u) = Some "k 1&x".
Proof.
  split; [reflexivity|].
  exact (hit_url_reads_back "prover.certora.com" "111" "aaa" "k 1&x"
           "tree View/out#1.json" eq_refl eq_refl eq_refl eq_refl eq_refl).
Defined.

(** ** More on transcripts *)

Lemma kept_line kept r :
  Forall (fun l => sall (fun c => negb (Ascii.eqb c newline)) l = true) kept ->
  kept <> [] ->
  In r (split newline (trim (join nl kept))) ->
  exists l a b,
    In l kept /\ l = a ++ r ++ b
    /\ blank a = true /\ blank b = true.
Proof.
  intros Hkept Hne Hr.
  apply trimmed_line in Hr as (l & a & b & Hl & -> & Ha & Hb).
  rewrite split_join in Hl by assumption.
  now exists (a ++ r ++ b), a, b.
Qed.

Lemma join_nil_trim : trim (join nl []) = "".
Proof. reflexivity. Qed.

Lemma in_skipn (A : Type) (x : A) n l : In x (skipn n l) -> In x l.
Proof.
  intros H. rewrite <- (firstn_skipn n l). apply in_or_app. now right.
Qed.

Lemma first_segment_some lines ms x :
  first_segment lines ms = Some x ->
  exists t, In t ms /\ x = segment lines t /\ x <> "".
Proof.
  induction ms as [|t ms IH]; cbn [first_segment]; [discriminate|].
  destruct (nonempty (segment lines t)) eqn:E.
  - intros [= <-]. exists t. repeat split; [now left|].
    intros H. now rewrite H in E.
  - intros H. destruct (IH H) as (t' & Hin & Hx & Hne).
    exists t'. repeat split; trivial. now right.
Qed.

Lemma nonempty_false s : nonempty s = false -> s = "".
Proof. now destruct s. Qed.


Lemma findIndex_found (p : string -> bool) lines :
  findIndex p lines <> (-1)%Z -> existsb p lines = true.
Proof.
  intros H. destruct (existsb p lines) eqn:E; [reflexivity|].
  now rewrite findIndex_none in H.
Qed.

Lemma filter_none (A : Type) (p : A -> bool) l :
  (forall x, In x l -> p x = false) -> filter p l = [].
Proof.
  induction l as [|x l IH]; intros H; cbn [filter]; [reflexivity|].
  rewrite (H x (or_introl eq_refl)). apply IH. intros y Hy. apply H. now right.
Qed.

Lemma slice_incl from to lines l : In l (slice from to lines) -> In l lines.
Proof.
  intros H. apply slice_in in H as (i & _ & Hi & <-). now apply nth_In.
Qed.

(** X18. An answer that is not empty is made of lines of the transcript:
    each of its lines is a line of the transcript, up to white space removed
    at its two ends. *)
Theorem answer_lines_come_from_transcript :
  forall text r,
    extractCodexAnswer text <> "" ->
    In r (split newline (extractCodexAnswer text)) ->
    exists l a b,
      In l (split newline text) /\ l = a ++ r ++ b
      /\ blank a = true /\ blank b = true.
Proof.
  intros text r. unfold extractCodexAnswer.
  pose proof (split_no_sep newline text) as Hlines.
  set (lines := split newline text) in *.
  destruct (first_segment lines (rev (indices_from tokens_used 0 lines)))
    as [filtered|] eqn:Hseg.
  - apply first_segment_some in Hseg as (t & _ & -> & Hne). intros _ Hr.
    destruct (@segment_line lines t r Hlines Hne Hr)
      as (i & a & b & _ & _ & Hlen & Hn & Ha & Hb & _).
    exists (nth i lines ""), a, b. repeat split; trivial. now apply nth_In.
  - destruct (negb (findIndex final_answer_line lines =? -1)%Z).
    + set (rest := skipn _ lines). intros Hne Hr.
      assert (Hrest : rest <> []) by (intros E; rewrite E in Hne; now apply Hne).
      apply kept_line in Hr as (l & a & b & Hl & Heq & Ha & Hb); trivial.
      * exists l, a, b. repeat split; trivial. unfold rest in Hl.
        now apply in_skipn in Hl.
      * apply Forall_forall. intros x Hx. rewrite Forall_forall in Hlines.
        apply Hlines. unfold rest in Hx. now apply in_skipn in Hx.
    + set (kept := filter _ _).
      destruct (nonempty (trim (join nl kept))) eqn:Hc.
      * intros Hne Hr.
        assert (Hkept : kept <> []) by (intros E; rewrite E in Hne; now apply Hne).
        assert (Hsub : forall x, In x kept -> In x lines).
        { intros x Hx. unfold kept in Hx. apply filter_In in Hx as [Hx _].
          destruct (0 <=? _)%Z; [now apply in_skipn in Hx | exact Hx]. }
        apply kept_line in Hr as (l & a & b & Hl & Heq & Ha & Hb); trivial.
        -- exists l, a, b. repeat split; trivial. now apply Hsub.
        -- apply Forall_forall. intros x Hx. rewrite Forall_forall in Hlines.
           apply Hlines. now apply Hsub.
      * intros _ Hr. exists r, "", "". repeat split; trivial.
        cbn [String.append]. now rewrite sapp_nil_r.
Qed.

Lemma answer_lines_come_from_transcript_witness :
  extractCodexAnswer (utf8 65279 ++ "hello" ++ utf8 160) = "hello"
  /\ (exists l a b,
         In l (split newline (utf8 65279 ++ "hello" ++ utf8 160))
         /\ l = a ++ "hello" ++ b
         /\ blank a = true /\ blank b = true)
  /\ (exists l a b,
         In l (split newline two_blocks)
         /\ l = a ++ "second attempt: this is correct" ++ b
         /\ blank a = true /\ blank b = true).
Proof.
  split; [reflexivity|]. split.
  - apply (@answer_lines_come_from_transcript
             (utf8 65279 ++ "hello" ++ utf8 160) "hello").
    + vm_compute. discriminate.
    + vm_compute. left. reflexivity.
  - apply (@answer_lines_come_from_transcript two_blocks
             "second attempt: this is correct").
    + vm_compute. discriminate.
    + vm_compute. left. reflexivity.
Defined.





Lemma segment_trimmed lines t : trim (segment lines t) = segment lines t.
Proof. unfold segment. apply trim_idem. Qed.

Lemma segment_of_meta lines t :
  Forall (fun l => isMetaLine l = true) lines -> segment lines t = "".
Proof.
  intros Hall. unfold segment. rewrite filter_none; [reflexivity|].
  intros x Hx. apply slice_incl in Hx. rewrite Forall_forall in Hall.
  now rewrite (Hall x Hx).
Qed.

Lemma first_segment_of_meta lines ms :
  Forall (fun l => isMetaLine l = true) lines -> first_segment lines ms = None.
Proof.
  intros Hall. induction ms as [|t ms IH]; [reflexivity|].
  cbn [first_segment]. now rewrite (@segment_of_meta lines t Hall).
Qed.

(** X20. The answer is either the whole transcript or a text without
    white space at its ends. It is empty only for an empty transcript or
    below a Final answer line. A transcript made of meta lines only, without
    a Final answer line, is returned as it is. *)
Theorem extract_falls_back_to_whole_text :
  (forall text,
      extractCodexAnswer text = text
      \/ trim (extractCodexAnswer text) = extractCodexAnswer text)
  /\ (forall text,
         extractCodexAnswer text = "" ->
         text = "" \/ existsb final_answer_line (split newline text) = true)
  /\ (forall text,
         Forall (fun l => isMetaLine l = true) (split newline text) ->
         existsb final_answer_line (split newline text) = false ->
         extractCodexAnswer text = text).
Proof.
  split; [|split].
  - intros text. unfold extractCodexAnswer.
    set (lines := split newline text).
    destruct (first_segment lines (rev (indices_from tokens_used 0 lines)))
      as [filtered|] eqn:Hseg.
    + right. apply first_segment_some in Hseg as (t & _ & -> & _).
      apply segment_trimmed.
    + destruct (negb (findIndex final_answer_line lines =? -1)%Z).
      * right. apply trim_idem.
      * match goal with
        | |- context [nonempty ?c] => destruct (nonempty c)
        end; [right; apply trim_idem | now left].
  - intros text. unfold extractCodexAnswer.
    set (lines := split newline text).
    destruct (first_segment lines (rev (indices_from tokens_used 0 lines)))
      as [filtered|] eqn:Hseg.
    + apply first_segment_some in Hseg as (t & _ & -> & Hne). intros H.
      now apply Hne in H.
    + destruct (findIndex final_answer_line lines =? -1)%Z eqn:E; cbn [negb].
      * match goal with
        | |- context [nonempty ?c] => destruct (nonempty c) eqn:Hc
        end; [|now left].
        intros H. rewrite H in Hc. discriminate.
      * intros _. right. apply findIndex_found. intros H. rewrite H in E.
        discriminate.
  - intros text Hall Hfinal. unfold extractCodexAnswer.
    rewrite (@first_segment_of_meta _ _ Hall), (@findIndex_none _ _ Hfinal).
    cbn [Z.eqb negb]. rewrite filter_none; [reflexivity|].
    intros x Hx. rewrite Forall_forall in Hall.
    assert (Hin : In x (split newline text)).
    { destruct (0 <=? _)%Z; [now apply in_skipn in Hx | exact Hx]. }
    now rewrite (Hall x Hin).
Qed.

Lemma extract_falls_back_to_whole_text_witness :
  extractCodexAnswer configuration_only = configuration_only.
Proof.
  apply (proj2 (proj2 extract_falls_back_to_whole_text)).
  - vm_compute. repeat constructor.
  - vm_compute; reflexivity.
Defined.

Lemma findIndex_app (p : string -> bool) before head after :
  existsb p before = false -> p head = true ->
  findIndex p (before ++ head :: after) = Z.of_nat (length before).
Proof.
  induction before as [|x before IH]; cbn [existsb app findIndex length].
  - intros _ ->. reflexivity.
  - intros H Hh. apply orb_false_iff in H as [Hx Hb]. rewrite Hx.
    rewrite (IH Hb Hh).
    destruct (Z.of_nat (length before) <? 0)%Z eqn:E; lia.
Qed.

(** X21. In a transcript without tokens-used lines, everything below the
    first Final answer line is the answer, trimmed and otherwise as it is:
    meta lines below that line are kept. *)
Theorem answer_after_final_answer_line :
  forall before head after,
    Forall (fun l => sall (fun c => negb (Ascii.eqb c newline)) l = true)
      (before ++ head :: after) ->
    existsb tokens_used (before ++ head :: after) = false ->
    existsb final_answer_line before = false ->
    final_answer_line head = true ->
    extractCodexAnswer (join nl (before ++ head :: after)) = trim (join nl after).
Proof.
  intros before head after Hlines Htok Hbefore Hhead.
  unfold extractCodexAnswer. rewrite split_join; trivial;
    [|now destruct before].
  rewrite indices_none by exact Htok. cbn [rev first_segment].
  rewrite (@findIndex_app _ _ _ after Hbefore Hhead).
  assert (Hne : negb (Z.of_nat (length before) =? -1)%Z = true).
  { destruct (Z.of_nat (length before) =? -1)%Z eqn:E; [|reflexivity].
    apply Z.eqb_eq in E. lia. }
  rewrite Hne.
  replace (Z.to_nat (Z.of_nat (length before) + 1)) with (length before + 1)%nat
    by lia.
  replace (before ++ head :: after)%list with ((before ++ [head]) ++ after)%list
    by (now rewrite <- app_assoc).
  rewrite skipn_app, skipn_all2 by (rewrite length_app; cbn; lia).
  rewrite length_app. cbn [length].
  replace (length before + 1 - (length before + 1))%nat with 0%nat by lia.
  reflexivity.
Qed.

Lemma answer_after_final_answer_line_witness :
  extractCodexAnswer
    (join nl (["model: gpt-5"; "some log"] ++ "Final Answer :"
              :: ["The rule holds."; "model: unchanged"; "  "]))
  = trim (join nl ["The rule holds."; "model: unchanged"; "  "]).
Proof.
  apply answer_after_final_answer_line.
  - vm_compute. repeat constructor.
  - vm_compute; reflexivity.
  - vm_compute; reflexivity.
  - vm_compute; reflexivity.
Defined.
